(** * microsoft_mcp.graph: request execution, batching, pagination, chunked upload

    A shallow embedding of [src/microsoft_mcp/graph.py].  Python values that
    cross the HTTP boundary are modelled by [pyval]; dictionaries are finite
    maps with string keys; the HTTP client, [time.sleep] and generator
    [yield]s are recorded in a trace held by the [World]; a dictionary that
    the caller passes by reference lives in the [World]'s heap. *)

From Stdlib Require Import ZArith String Ascii DecimalString Lia.
From stdpp Require Import base option list gmap strings.

#[local] Set Warnings "-register-all".
#[local] Open Scope string_scope.
#[local] Open Scope Z_scope.

(** ** Python values and the operations the module applies to them *)

Module Py.

Inductive pyval :=
| PNone
| PBool (b : bool)
| PInt (z : Z)
| PFloat (mantissa exponent : Z)
| PStr (s : string)
| PList (l : list pyval)
| PDict (d : gmap string pyval).

Inductive exn :=
| HTTPStatusError (status : Z)
| TransportError
| JSONDecodeError
| ValueError (msg : string)
| KeyError (key : string)
| IndexError
| TypeError
| AttributeError.

Abbreviation dict := (gmap string pyval).

(** [bool(v)] *)
Definition truthy (v : pyval) : bool :=
  match v with
  | PNone => false
  | PBool b => b
  | PInt z => negb (z =? 0)
  | PFloat m _ => negb (m =? 0)
  | PStr s => negb (String.eqb s EmptyString)
  | PList l => match l with [] => false | _ => true end
  | PDict d => negb (bool_decide (d = ∅))
  end.

(** [needle in s] for two strings *)
Fixpoint str_contains (needle s : string) : bool :=
  String.prefix needle s ||
  match s with
  | EmptyString => false
  | String _ s' => str_contains needle s'
  end.

Definition is_str (needle : string) (v : pyval) : bool :=
  match v with PStr s => String.eqb s needle | _ => false end.

(** ["needle" in v] *)
Definition contains (needle : string) (v : pyval) : exn + bool :=
  match v with
  | PStr s => inr (str_contains needle s)
  | PList l => inr (existsb (is_str needle) l)
  | PDict d => inr (bool_decide (is_Some (d !! needle)))
  | _ => inl TypeError
  end.

(** [v["key"]] *)
Definition getitem (v : pyval) (key : string) : exn + pyval :=
  match v with
  | PDict d => match d !! key with Some x => inr x | None => inl (KeyError key) end
  | _ => inl TypeError
  end.

(** [v.get("key", dflt)] *)
Definition get (v : pyval) (key : string) (dflt : pyval) : exn + pyval :=
  match v with
  | PDict d => inr (default dflt (d !! key))
  | _ => inl AttributeError
  end.

Fixpoint chars (s : string) : list pyval :=
  match s with
  | EmptyString => []
  | String c s' => PStr (String c EmptyString) :: chars s'
  end.

(** The elements [for x in v] runs over.  The keys of a dictionary come in
    the order of the finite map, which does not record insertion order. *)
Definition iter (v : pyval) : exn + list pyval :=
  match v with
  | PList l => inr l
  | PStr s => inr (chars s)
  | PDict d => inr (PStr <$> (map_to_list d).*1)
  | _ => inl TypeError
  end.

(** [s.replace(old, new)] for a non-empty [old]: every non-overlapping
    occurrence, left to right.  [skip] counts the characters of a match still to be dropped. *)
Fixpoint replace_from (old new : string) (skip : nat) (s : string) : string :=
  match s with
  | EmptyString => EmptyString
  | String c s' =>
      match skip with
      | S k => replace_from old new k s'
      | O =>
          if String.prefix old s
          then String.append new (replace_from old new (String.length old - 1)%nat s')
          else String c (replace_from old new O s')
      end
  end.

Definition str_replace (old new s : string) : string :=
  match old with
  | EmptyString => s
  | _ => replace_from old new O s
  end.

(** [v.replace(old, new)] *)
Definition replace (v : pyval) (old new : string) : exn + string :=
  match v with
  | PStr s => inr (str_replace old new s)
  | _ => inl AttributeError
  end.

(** [l[i]], with Python's negative indices *)
Definition index {A} (l : list A) (i : Z) : exn + A :=
  let n := Z.of_nat (length l) in
  let j := if i <? 0 then n + i else i in
  if (0 <=? j) && (j <? n) then
    match l !! Z.to_nat j with Some x => inr x | None => inl IndexError end
  else inl IndexError.

(** [str(z)] *)
Definition str_of_int (z : Z) : string := NilZero.string_of_int (Z.to_int z).

(** [data[lo:hi]] for [0 <= lo <= hi] *)
Definition slice {A} (data : list A) (lo hi : Z) : list A :=
  take (Z.to_nat (hi - lo)) (drop (Z.to_nat lo) data).

(** [len(range(0, stop, step))] and [range(0, stop, step)] for a positive
    [step] *)
Definition range0_len (stop step : Z) : Z := (stop + step - 1) / step.

Definition range0 (stop step : Z) : list Z :=
  (fun k : nat => Z.of_nat k * step) <$> seq 0 (Z.to_nat (range0_len stop step)).

End Py.
Import Py.


(** ** The HTTP client, the clock and the caller's heap *)

Module Http.

(** The [Retry-After] header as [int(...)] sees it. *)
Inductive RetryAfter :=
| RA_absent
| RA_int (seconds : Z)
| RA_malformed.

(** [response.content], and what [response.json()] makes of it. *)
Inductive Body :=
| NoContent
| JsonBody (v : pyval)
| Malformed.

Record Response := {
  status_code : Z;
  retry_after : RetryAfter;
  body : Body
}.

(** What [_client.request] does: it returns a response, or raises an error
    of the transport (none of which is an [HTTPStatusError]). *)
Inductive Reply :=
| Responded (r : Response)
| Failed.

Record Call := {
  call_method : string;
  call_url : string;
  call_headers : gmap string string;
  call_params : option dict;
  call_json : option pyval;
  call_content : option (list Byte.byte)
}.

Inductive event :=
| EvHttp (c : Call) (r : Reply)
| EvSleep (seconds : Z)
| EvYield (item : pyval).

Abbreviation loc := nat.

Record World := {
  heap : gmap loc dict;
  trace : list event
}.

(** The calls, sleeps and yields of a trace, oldest first. *)
Definition calls (t : list event) : list Call :=
  omap (fun e => match e with EvHttp c _ => Some c | _ => None end) t.

Definition replies (t : list event) : list Reply :=
  omap (fun e => match e with EvHttp _ r => Some r | _ => None end) t.

Definition sleeps (t : list event) : list Z :=
  omap (fun e => match e with EvSleep d => Some d | _ => None end) t.

Definition yields (t : list event) : list pyval :=
  omap (fun e => match e with EvYield v => Some v | _ => None end) t.

(** [response.is_success] of httpx: [raise_for_status] raises for every
    other status. *)
Definition is_success (status : Z) : bool := (200 <=? status) && (status <=? 299).

End Http.
Import Http.

(** ** Computations that return, raise, or run out of fuel *)

Inductive outcome (A : Type) :=
| Returned (a : A)
| Raised (e : exn)
| OutOfFuel.
Arguments Returned {A} a.
Arguments Raised {A} e.
Arguments OutOfFuel {A}.

Definition M (A : Type) : Type := World -> outcome A * World.

Definition ret {A} (a : A) : M A := fun w => (Returned a, w).

Definition raise {A} (e : exn) : M A := fun w => (Raised e, w).

Definition out_of_fuel {A} : M A := fun w => (OutOfFuel, w).

Definition bind {A B} (m : M A) (k : A -> M B) : M B :=
  fun w =>
    match m w with
    | (Returned a, w') => k a w'
    | (Raised e, w') => (Raised e, w')
    | (OutOfFuel, w') => (OutOfFuel, w')
    end.

Definition lift {A} (r : exn + A) : M A :=
  match r with inl e => raise e | inr a => ret a end.

(** [try: m  except httpx.HTTPStatusError as e: handler(e.response.status_code)] *)
Definition catch_status {A} (m : M A) (handler : Z -> M A) : M A :=
  fun w =>
    match m w with
    | (Raised (HTTPStatusError status), w') => handler status w'
    | r => r
    end.

Definition emit (e : event) : M unit :=
  fun w => (Returned tt, {| heap := heap w; trace := trace w ++ [e] |}).

Notation "'let*' x ':=' m 'in' k" := (bind m (fun x => k))
  (at level 10, x name, m at level 100, k at level 200).
Notation "'let*' '_' ':=' m 'in' k" := (bind m (fun _ => k))
  (at level 10, m at level 100, k at level 200).

(** ** The module *)

Definition BASE_URL : string := "https://graph.microsoft.com/v1.0".

Definition dquote : string := String (ascii_of_nat 34) EmptyString.

(** ['outlook.body-content-type="text"'] *)
Definition prefer_text : string :=
  String.append "outlook.body-content-type=" (String.append dquote (String.append "text" dquote)).

Definition UPLOAD_CHUNK_SIZE : Z := 15 * 320 * 1024.

(** How one pass through a retry loop ends: [continue] with a new
    [retry_count], [break], or [return]. *)
Inductive step (A : Type) :=
| Again (retry_count : Z)
| Break
| Done (a : A).
Arguments Again {A} retry_count.
Arguments Break {A}.
Arguments Done {A} a.

Section Graph.

(** [get_token] of [microsoft_mcp.auth]: a bearer token, or an error raised
    to the caller. *)
Variable get_token : option string -> exn + string.

(** The remote service behind [_client]: its reply to a call, given
    everything that happened before. *)
Variable server : list event -> Call -> Reply.

Definition client_send (c : Call) : M Response :=
  fun w =>
    let r := server (trace w) c in
    let w' := {| heap := heap w; trace := trace w ++ [EvHttp c r] |} in
    match r with
    | Responded resp => (Returned resp, w')
    | Failed => (Raised TransportError, w')
    end.

(** [time.sleep(seconds)] *)
Definition sleep (seconds : Z) : M unit :=
  if seconds <? 0 then raise (ValueError "sleep length must be non-negative")
  else emit (EvSleep seconds).

(** [int(response.headers.get("Retry-After", "5"))] *)
Definition int_retry_after (r : Response) : exn + Z :=
  match retry_after r with
  | RA_absent => inr 5
  | RA_int z => inr z
  | RA_malformed => inl (ValueError "invalid literal for int()")
  end.

Definition raise_for_status (r : Response) : M unit :=
  if is_success (status_code r) then ret tt
  else raise (HTTPStatusError (status_code r)).

Definition has_content (r : Response) : bool :=
  match body r with NoContent => false | _ => true end.

Definition response_json (r : Response) : M pyval :=
  match body r with
  | JsonBody v => ret v
  | _ => raise JSONDecodeError
  end.

(** The 429 branch shared by every retry loop: [true] when it slept and
    the loop is to [continue]. *)
Definition throttled (r : Response) (max_retries retry_count : Z) : M bool :=
  if status_code r =? 429 then
    let* retry_after := lift (int_retry_after r) in
    if retry_count <? max_retries then
      let* _ := sleep (Z.min retry_after 60) in ret true
    else ret false
  else ret false.

(** The [except httpx.HTTPStatusError] clause shared by every retry loop. *)
Definition on_status_error {A} (max_retries retry_count status : Z) : M (step A) :=
  if (retry_count <? max_retries) && (500 <=? status) then
    let* _ := sleep (2 ^ retry_count * 1) in ret (Again (retry_count + 1))
  else raise (HTTPStatusError status).

(** *** [request] *)

(** The headers of lines 22-34. *)
Definition request_headers (token method : string) (params : option dict)
    (json : option pyval) : exn + gmap string string :=
  let headers : gmap string string := {[ "Authorization" := String.append "Bearer " token ]} in
  let params_or_empty : dict := default ∅ params in
  if String.eqb method "GET" then
    if bool_decide (is_Some (params_or_empty !! "$search")) then
      inr (<["Prefer" := prefer_text]> headers)
    else
      match contains "body" (default (PStr EmptyString) (params_or_empty !! "$select")) with
      | inl e => inl e
      | inr true =>
          inr (<["Prefer" := prefer_text]> headers)
      | inr false => inr headers
      end
  else
    inr (<["Content-Type" :=
             if match json with Some j => truthy j | None => false end
             then "application/json" else "application/octet-stream"]> headers).

(** The condition of lines 36-40, with Python's short-circuit [and]/[or]. *)
Definition wants_eventual (params : option dict) : exn + bool :=
  match params with
  | None => inr false
  | Some d =>
      if bool_decide (d = ∅) then inr false
      else if bool_decide (is_Some (d !! "$search")) then inr true
      else
        match contains "contains(" (default (PStr EmptyString) (d !! "$filter")) with
        | inl e => inl e
        | inr true => inr true
        | inr false => contains "/any(" (default (PStr EmptyString) (d !! "$filter"))
        end
  end.

(** [params.setdefault("$count", "true")] on the dictionary at [l]. *)
Definition setdefault_count (l : loc) : M unit :=
  fun w =>
    let d : dict := default ∅ (heap w !! l) in
    match d !! "$count" with
    | Some _ => (Returned tt, w)
    | None =>
        (Returned tt,
         {| heap := <[l := <["$count" := PStr "true"]> d]> (heap w); trace := trace w |})
    end.

Definition read_params (params : option loc) : M (option dict) :=
  fun w => (Returned ((fun l => default ∅ (heap w !! l)) <$> params), w).

(** One pass through the body of the [while] loop of lines 45-81. *)
Definition request_attempt (c : Call) (max_retries retry_count : Z) : M (step pyval) :=
  catch_status
    (let* response := client_send c in
     let* slept := throttled response max_retries retry_count in
     if slept then ret (Again (retry_count + 1))
     else if (500 <=? status_code response) && (retry_count <? max_retries) then
       let* _ := sleep (2 ^ retry_count * 1) in ret (Again (retry_count + 1))
     else
       let* _ := raise_for_status response in
       if has_content response then
         let* v := response_json response in ret (Done v)
       else ret (Done PNone))
    (on_status_error max_retries retry_count).

Fixpoint request_loop (fuel : nat) (c : Call) (max_retries retry_count : Z) : M pyval :=
  if retry_count <=? max_retries then
    match fuel with
    | O => out_of_fuel
    | S fuel' =>
        let* s := request_attempt c max_retries retry_count in
        match s with
        | Again retry_count' => request_loop fuel' c max_retries retry_count'
        | Break => ret PNone
        | Done v => ret v
        end
    end
  else ret PNone.

(** Lines 22-42: the headers, and the write to the caller's dictionary.
    [params] is the caller's dictionary, passed by reference. *)
Definition prepare_request (method path : string) (account_id : option string)
    (params : option loc) (json : option pyval) (data : option (list Byte.byte))
    : M Call :=
  let* token := lift (get_token account_id) in
  let* d := read_params params in
  let* headers := lift (request_headers token method d json) in
  let* eventual := lift (wants_eventual d) in
  let* headers :=
    (if eventual then
       let* _ := match params with Some l => setdefault_count l | None => ret tt end in
       ret (<["ConsistencyLevel" := "eventual"]> headers)
     else ret headers) in
  let* d' := read_params params in
  ret {| call_method := method; call_url := String.append BASE_URL path;
         call_headers := headers; call_params := d'; call_json := json;
         call_content := data |}.

Definition request (method path : string) (account_id : option string)
    (params : option loc) (json : option pyval) (data : option (list Byte.byte))
    (max_retries : Z) : M pyval :=
  let* c := prepare_request method path account_id params json data in
  request_loop (Z.to_nat (max_retries + 1)) c max_retries 0.

(** *** [batch_request] *)

(** [req["dependsOn"] = [requests[i - 1]["id"]]] *)
Definition depend_on_previous (requests : list dict) (i : Z) (req : dict) : exn + dict :=
  match index requests (i - 1) with
  | inl e => inl e
  | inr prev =>
      match getitem (PDict prev) "id" with
      | inl e => inl e
      | inr prev_req_id => inr (<["dependsOn" := PList [prev_req_id]]> req)
      end
  end.

(** The body of the [for i, req in enumerate(requests)] loop, lines 128-146;
    [req.copy()] is the value itself. *)
Definition chain_item (requests : list dict) (i : Z) (req : dict) : exn + dict :=
  match (if i mod 4 =? 0 then inr req else depend_on_previous requests i req) with
  | inl e => inl e
  | inr req' =>
      if (4 <=? i) && (i mod 4 =? 0) then depend_on_previous requests i req'
      else inr req'
  end.

Fixpoint chain_from (requests : list dict) (i : Z) (rest : list dict) : exn + list dict :=
  match rest with
  | [] => inr []
  | req :: rest' =>
      match chain_item requests i req with
      | inl e => inl e
      | inr req' =>
          match chain_from requests (i + 1) rest' with
          | inl e => inl e
          | inr reqs' => inr (req' :: reqs')
          end
      end
  end.

(** [chunked_requests], lines 120-146. *)
Definition chunked_requests (requests : list dict) : exn + list dict :=
  if Z.of_nat (length requests) <=? 4 then inr requests
  else chain_from requests 0 requests.

Definition batch_payload (chunked : list dict) : pyval :=
  PDict {[ "requests" := PList (PDict <$> chunked) ]}.

Definition batch_attempt (c : Call) (max_retries retry_count : Z) : M (step pyval) :=
  catch_status
    (let* response := client_send c in
     let* slept := throttled response max_retries retry_count in
     if slept then ret (Again (retry_count + 1))
     else if (500 <=? status_code response) && (retry_count <? max_retries) then
       let* _ := sleep (2 ^ retry_count * 1) in ret (Again (retry_count + 1))
     else
       let* _ := raise_for_status response in
       let* v := response_json response in ret (Done v))
    (on_status_error max_retries retry_count).

Fixpoint batch_loop (fuel : nat) (c : Call) (max_retries retry_count : Z) : M pyval :=
  if retry_count <=? max_retries then
    match fuel with
    | O => out_of_fuel
    | S fuel' =>
        let* s := batch_attempt c max_retries retry_count in
        match s with
        | Again retry_count' => batch_loop fuel' c max_retries retry_count'
        | Break => raise (ValueError "Batch request failed after all retries")
        | Done v => ret v
        end
    end
  else raise (ValueError "Batch request failed after all retries").

Definition batch_request (requests : list dict) (account_id : option string)
    (max_retries : Z) : M pyval :=
  match requests with
  | [] => ret (PDict {[ "responses" := PList [] ]})
  | _ =>
      if 20 <? Z.of_nat (length requests) then
        raise (ValueError "Batch requests cannot exceed 20 items")
      else
        let* chunked := lift (chunked_requests requests) in
        let* token := lift (get_token account_id) in
        let headers : gmap string string :=
          <["Accept" := "application/json"]>
            (<["Content-Type" := "application/json"]>
               {[ "Authorization" := String.append "Bearer " token ]}) in
        batch_loop (Z.to_nat (max_retries + 1))
          {| call_method := "POST"; call_url := String.append BASE_URL "/$batch";
             call_headers := headers; call_params := None;
             call_json := Some (batch_payload chunked); call_content := None |}
          max_retries 0
  end.

(** *** [request_paginated] *)

(** [limit and items_returned >= limit] *)
Definition limit_reached (limit : option Z) (items_returned : Z) : bool :=
  match limit with
  | Some l => negb (l =? 0) && (l <=? items_returned)
  | None => false
  end.

(** How a [for] loop that yields ends: by the [return] of the limit check,
    or by running off the end of its sequence. *)
Inductive walk :=
| Stopped
| Walked (items_returned : Z).

(** Why a generator finished. *)
Inductive finish :=
| LimitReached
| NoResult
| NoCursor
| CursorPresent
| NoMoreResults.

(** The [for item in result["value"]] loop, lines 213-217. *)
Fixpoint yield_items (limit : option Z) (items : list pyval) (items_returned : Z) : M walk :=
  match items with
  | [] => ret (Walked items_returned)
  | item :: rest =>
      if limit_reached limit items_returned then ret Stopped
      else
        let* _ := emit (EvYield item) in
        yield_items limit rest (items_returned + 1)
  end.

(** Lines 204-207: the next page, by the cursor when there is one. *)
Definition fetch_page (path : string) (account_id : option string)
    (params : option loc) (next_link : pyval) : M pyval :=
  if truthy next_link then
    let* p := lift (replace next_link BASE_URL EmptyString) in
    request "GET" p account_id None None None 3
  else request "GET" path account_id params None None 3.

(** Lines 209-221, what follows the request in one pass through the
    [while True] loop: [inl] when the generator finishes, [inr] with the
    new count and cursor when the loop goes round again. *)
Definition page_cycle (limit : option Z) (result : pyval) (items_returned : Z)
    : M (finish + Z * pyval) :=
  if negb (truthy result) then ret (inl NoResult)
  else
    let* has_value := lift (contains "value" result) in
    let* w :=
      (if has_value then
         let* v := lift (getitem result "value") in
         let* items := lift (iter v) in
         yield_items limit items items_returned
       else ret (Walked items_returned)) in
    match w with
    | Stopped => ret (inl LimitReached)
    | Walked items_returned' =>
        let* next_link := lift (get result "@odata.nextLink" PNone) in
        if negb (truthy next_link) then ret (inl NoCursor)
        else ret (inr (items_returned', next_link))
    end.

Fixpoint paginate_loop (fuel : nat) (path : string) (account_id : option string)
    (params : option loc) (limit : option Z) (items_returned : Z) (next_link : pyval)
    : M finish :=
  match fuel with
  | O => out_of_fuel
  | S fuel' =>
      let* result := fetch_page path account_id params next_link in
      let* next := page_cycle limit result items_returned in
      match next with
      | inl why => ret why
      | inr (items_returned', next_link') =>
          paginate_loop fuel' path account_id params limit items_returned' next_link'
      end
  end.

(** The generator run to its end; [fuel] bounds the number of pages. *)
Definition request_paginated (fuel : nat) (path : string) (account_id : option string)
    (params : option loc) (limit : option Z) : M finish :=
  paginate_loop fuel path account_id params limit 0 PNone.

(** *** [_do_chunked_upload] *)

(** [chunk_headers], lines 274-278. *)
Definition chunk_headers (headers : gmap string string)
    (chunk_start chunk_end file_size : Z) (chunk : list Byte.byte) : gmap string string :=
  <["Content-Range" :=
      String.append "bytes "
        (String.append (str_of_int chunk_start)
           (String.append "-"
              (String.append (str_of_int (chunk_end - 1))
                 (String.append "/" (str_of_int file_size)))))]>
    (<["Content-Length" := str_of_int (Z.of_nat (length chunk))]> headers).

(** The PUT of the chunk that starts at [i]. *)
Definition chunk_call (upload_url : string) (data : list Byte.byte)
    (headers : gmap string string) (file_size i : Z) : Call :=
  let chunk_start := i in
  let chunk_end := Z.min (i + UPLOAD_CHUNK_SIZE) file_size in
  let chunk := slice data chunk_start chunk_end in
  {| call_method := "PUT"; call_url := upload_url;
     call_headers := chunk_headers headers chunk_start chunk_end file_size chunk;
     call_params := None; call_json := None; call_content := Some chunk |}.

Definition chunk_attempt (c : Call) (retry_count : Z) : M (step pyval) :=
  catch_status
    (let* response := client_send c in
     let* slept := throttled response 3 retry_count in
     if slept then ret (Again (retry_count + 1))
     else
       let* _ := raise_for_status response in
       if (status_code response =? 200) || (status_code response =? 201) then
         let* v := response_json response in ret (Done v)
       else ret Break)
    (on_status_error 3 retry_count).

(** The [while retry_count <= 3] loop of one chunk: [Some v] when it
    returned [v], [None] when it was left. *)
Fixpoint chunk_loop (fuel : nat) (c : Call) (retry_count : Z) : M (option pyval) :=
  if retry_count <=? 3 then
    match fuel with
    | O => out_of_fuel
    | S fuel' =>
        let* s := chunk_attempt c retry_count in
        match s with
        | Again retry_count' => chunk_loop fuel' c retry_count'
        | Break => ret None
        | Done v => ret (Some v)
        end
    end
  else ret None.

Fixpoint upload_chunks (upload_url : string) (data : list Byte.byte)
    (headers : gmap string string) (file_size : Z) (starts : list Z) : M pyval :=
  match starts with
  | [] => raise (ValueError "Upload completed but no final response received")
  | i :: rest =>
      let* r := chunk_loop 4 (chunk_call upload_url data headers file_size i) 0 in
      match r with
      | Some v => ret v
      | None => upload_chunks upload_url data headers file_size rest
      end
  end.

Definition _do_chunked_upload (upload_url : string) (data : list Byte.byte)
    (headers : gmap string string) : M pyval :=
  let file_size := Z.of_nat (length data) in
  upload_chunks upload_url data headers file_size (range0 file_size UPLOAD_CHUNK_SIZE).

(** *** [search_query] *)

Definition search_payload (query : string) (entity_types : list string)
    (size from : Z) (fields : option (list string)) : pyval :=
  let req : dict :=
    <["from" := PInt from]>
      (<["size" := PInt size]>
         (<["query" := PDict {[ "queryString" := PStr query ]}]>
            {[ "entityTypes" := PList (PStr <$> entity_types) ]})) in
  let req : dict :=
    match fields with
    | Some (f :: fs) => <["fields" := PList (PStr <$> f :: fs)]> req
    | _ => req
    end in
  PDict {[ "requests" := PList [PDict req] ]}.

(** The [for hit in container["hits"]] loop, lines 418-422. *)
Fixpoint yield_hits (limit : Z) (hits : list pyval) (items_returned : Z) : M walk :=
  match hits with
  | [] => ret (Walked items_returned)
  | hit :: rest =>
      if limit_reached (Some limit) items_returned then ret Stopped
      else
        let* resource := lift (getitem hit "resource") in
        let* _ := emit (EvYield resource) in
        yield_hits limit rest (items_returned + 1)
  end.

(** The [for container in response["hitsContainers"]] loop, lines 416-422. *)
Fixpoint walk_containers (limit : Z) (containers : list pyval) (items_returned : Z) : M walk :=
  match containers with
  | [] => ret (Walked items_returned)
  | container :: rest =>
      let* has_hits := lift (contains "hits" container) in
      let* w :=
        (if has_hits then
           let* h := lift (getitem container "hits") in
           let* hits := lift (iter h) in
           yield_hits limit hits items_returned
         else ret (Walked items_returned)) in
      match w with
      | Stopped => ret Stopped
      | Walked items_returned' => walk_containers limit rest items_returned'
      end
  end.

(** The [for response in result["value"]] loop, lines 414-422. *)
Fixpoint walk_responses (limit : Z) (responses : list pyval) (items_returned : Z) : M walk :=
  match responses with
  | [] => ret (Walked items_returned)
  | response :: rest =>
      let* has_containers := lift (contains "hitsContainers" response) in
      let* w :=
        (if has_containers then
           let* c := lift (getitem response "hitsContainers") in
           let* containers := lift (iter c) in
           walk_containers limit containers items_returned
         else ret (Walked items_returned)) in
      match w with
      | Stopped => ret Stopped
      | Walked items_returned' => walk_responses limit rest items_returned'
      end
  end.

(** The inner loop of lines 429-432: it is left at the first container
    that reports more results. *)
Fixpoint any_more_results (containers : list pyval) : exn + bool :=
  match containers with
  | [] => inr false
  | container :: rest =>
      match get container "moreResultsAvailable" PNone with
      | inl e => inl e
      | inr more => if truthy more then inr true else any_more_results rest
      end
  end.

(** The outer loop of lines 428-432, which goes on after the inner
    [break]. *)
Fixpoint has_more_results (responses : list pyval) (has_more : bool) : exn + bool :=
  match responses with
  | [] => inr has_more
  | response :: rest =>
      match get response "hitsContainers" (PList []) with
      | inl e => inl e
      | inr c =>
          match iter c with
          | inl e => inl e
          | inr containers =>
              match any_more_results containers with
              | inl e => inl e
              | inr more => has_more_results rest (has_more || more)
              end
          end
      end
  end.

(** What follows the request in one pass through the [while True] loop,
    lines 411-435: [inl] when the generator finishes, [inr] with the new
    count when the loop goes round again. *)
Definition search_cycle (limit : Z) (result : pyval) (items_returned : Z)
    : M (finish + Z) :=
  if negb (truthy result) then ret (inl NoResult)
  else
    let* has_value := lift (contains "value" result) in
    if negb has_value then ret (inl NoResult)
    else
      let* v := lift (getitem result "value") in
      let* responses := lift (iter v) in
      let* w := walk_responses limit responses items_returned in
      match w with
      | Stopped => ret (inl LimitReached)
      | Walked items_returned' =>
          let* cursor := lift (contains "@odata.nextLink" result) in
          if cursor then ret (inl CursorPresent)
          else
            let* v' := lift (get result "value" (PList [])) in
            let* responses' := lift (iter v') in
            let* has_more := lift (has_more_results responses' false) in
            if negb has_more then ret (inl NoMoreResults)
            else ret (inr items_returned')
      end.

Fixpoint search_loop (fuel : nat) (query : string) (entity_types : list string)
    (account_id : option string) (limit : Z) (fields : option (list string))
    (size from items_returned : Z) : M finish :=
  match fuel with
  | O => out_of_fuel
  | S fuel' =>
      let* result :=
        request "POST" "/search/query" account_id None
          (Some (search_payload query entity_types size from fields)) None 3 in
      let* next := search_cycle limit result items_returned in
      match next with
      | inl why => ret why
      | inr items_returned' =>
          search_loop fuel' query entity_types account_id limit fields
            size (from + size) items_returned'
      end
  end.

(** The generator run to its end; [fuel] bounds the number of requests. *)
Definition search_query (fuel : nat) (query : string) (entity_types : list string)
    (account_id : option string) (limit : Z) (fields : option (list string)) : M finish :=
  search_loop fuel query entity_types account_id limit fields (Z.min limit 25) 0 0.

(** *** [download_raw] *)

(** One pass through the loop of lines 230-256. *)
Definition download_attempt (c : Call) (max_retries retry_count : Z) : M (step Body) :=
  catch_status
    (let* response := client_send c in
     let* slept := throttled response max_retries retry_count in
     if slept then ret (Again (retry_count + 1))
     else if (500 <=? status_code response) && (retry_count <? max_retries) then
       let* _ := sleep (2 ^ retry_count * 1) in ret (Again (retry_count + 1))
     else
       let* _ := raise_for_status response in
       ret (Done (body response)))
    (on_status_error max_retries retry_count).

Fixpoint download_loop (fuel : nat) (c : Call) (max_retries retry_count : Z) : M Body :=
  if retry_count <=? max_retries then
    match fuel with
    | O => out_of_fuel
    | S fuel' =>
        let* s := download_attempt c max_retries retry_count in
        match s with
        | Again retry_count' => download_loop fuel' c max_retries retry_count'
        | Break => raise (ValueError "Failed to download file after all retries")
        | Done content => ret content
        end
    end
  else raise (ValueError "Failed to download file after all retries").

(** It returns [response.content], which a [Response] holds as its [body]. *)
Definition download_raw (path : string) (account_id : option string)
    (max_retries : Z) : M Body :=
  let* token := lift (get_token account_id) in
  download_loop (Z.to_nat (max_retries + 1))
    {| call_method := "GET"; call_url := String.append BASE_URL path;
       call_headers := {[ "Authorization" := String.append "Bearer " token ]};
       call_params := None; call_json := None; call_content := None |}
    max_retries 0.

(** *** [create_upload_session] and [upload_large_file] *)

(** [{"item": item_properties or {}}] *)
Definition session_payload (item_properties : option dict) : pyval :=
  PDict {[ "item" :=
             PDict (match item_properties with
                    | Some d => if bool_decide (d = ∅) then ∅ else d
                    | None => ∅
                    end) ]}.

Definition create_upload_session (path : string) (account_id : option string)
    (item_properties : option dict) : M pyval :=
  let* result :=
    request "POST" (String.append path "/createUploadSession") account_id None
      (Some (session_payload item_properties)) None 3 in
  if negb (truthy result) then raise (ValueError "Failed to create upload session")
  else ret result.

(** [_do_chunked_upload(upload_url, data, headers)] for the [upload_url] a
    session holds: the client takes a string for a URL and raises
    [TypeError] for any other value, at its first PUT. *)
Definition chunked_upload_to (upload_url : pyval) (data : list Byte.byte)
    (headers : gmap string string) : M pyval :=
  match upload_url with
  | PStr url => _do_chunked_upload url data headers
  | _ =>
      match data with
      | [] => raise (ValueError "Upload completed but no final response received")
      | _ => raise TypeError
      end
  end.

(** Lines 336-340 and 377-381: from the session to the chunks. *)
Definition upload_through (session : pyval) (data : list Byte.byte)
    (account_id : option string) : M pyval :=
  let* upload_url := lift (getitem session "uploadUrl") in
  let* token := lift (get_token account_id) in
  chunked_upload_to upload_url data
    {[ "Authorization" := String.append "Bearer " token ]}.

Definition upload_large_file (path : string) (data : list Byte.byte)
    (account_id : option string) (item_properties : option dict) : M pyval :=
  let file_size := Z.of_nat (length data) in
  if file_size <=? UPLOAD_CHUNK_SIZE then
    let* result :=
      request "PUT" (String.append path "/content") account_id None None (Some data) 3 in
    if negb (truthy result) then raise (ValueError "Failed to upload file")
    else ret result
  else
    let* session := create_upload_session path account_id item_properties in
    upload_through session data account_id.

(** *** [create_mail_upload_session] and [upload_large_mail_attachment] *)

Definition create_mail_upload_session (message_id : string) (attachment_item : dict)
    (account_id : option string) : M pyval :=
  let* result :=
    request "POST"
      (String.append "/me/messages/"
         (String.append message_id "/attachments/createUploadSession"))
      account_id None
      (Some (PDict {[ "AttachmentItem" := PDict attachment_item ]})) None 3 in
  if negb (truthy result) then
    raise (ValueError "Failed to create mail attachment upload session")
  else ret result.

(** [attachment_item], lines 370-375. *)
Definition attachment_item (name : string) (data : list Byte.byte)
    (content_type : string) : dict :=
  <["contentType" := PStr content_type]>
    (<["size" := PInt (Z.of_nat (length data))]>
       (<["name" := PStr name]> {[ "attachmentType" := PStr "file" ]})).

Definition upload_large_mail_attachment (message_id name : string)
    (data : list Byte.byte) (account_id : option string) (content_type : string)
    : M pyval :=
  let* session :=
    create_mail_upload_session message_id (attachment_item name data content_type)
      account_id in
  upload_through session data account_id.

(** ** Vocabulary of the statements *)

(** The world after more events. *)
Definition extend (w : World) (es : list event) : World :=
  {| heap := heap w; trace := trace w ++ es |}.

(** The statuses the retry loops treat as transient. *)
Definition retryable (status : Z) : bool := (status =? 429) || (500 <=? status).

(** What [request] returns for a successful response. *)
Definition body_value (r : Response) : pyval :=
  match body r with JsonBody v => v | _ => PNone end.

Definition success_reply (rp : Reply) : bool :=
  match rp with Responded r => is_success (status_code r) | Failed => false end.

(** The events of one run of a retry loop for the call [c], started when
    the trace was [t]: retried replies, each followed by a sleep, and then
    the reply that ended it. *)
Inductive fetched (c : Call) : list event -> list event -> outcome pyval -> Prop :=
| fetched_retry t r d new o :
    server t c = Responded r ->
    retryable (status_code r) = true ->
    0 <= d ->
    fetched c (t ++ [EvHttp c (Responded r); EvSleep d]) new o ->
    fetched c t (EvHttp c (Responded r) :: EvSleep d :: new) o
| fetched_done t r :
    server t c = Responded r ->
    is_success (status_code r) = true ->
    body r <> Malformed ->
    fetched c t [EvHttp c (Responded r)] (Returned (body_value r))
| fetched_raised t e :
    fetched c t [EvHttp c (server t c)] (Raised e).

(** One pass through the loop of [request]. *)
Inductive attempted (c : Call) (max_retries retry_count : Z) (w : World)
  : outcome (step pyval) * World -> Prop :=
| attempted_again r d :
    server (trace w) c = Responded r ->
    retryable (status_code r) = true ->
    retry_count < max_retries ->
    0 <= d ->
    attempted c max_retries retry_count w
      (Returned (Again (retry_count + 1)), extend w [EvHttp c (Responded r); EvSleep d])
| attempted_done r :
    server (trace w) c = Responded r ->
    is_success (status_code r) = true ->
    body r <> Malformed ->
    attempted c max_retries retry_count w
      (Returned (Done (body_value r)), extend w [EvHttp c (Responded r)])
| attempted_raised e :
    attempted c max_retries retry_count w
      (Raised e, extend w [EvHttp c (server (trace w) c)]).

(** The results [request] handed back during a trace: the bodies of the
    successful responses, oldest first. *)
Definition pages (t : list event) : list pyval :=
  omap (fun rp => match rp with
                  | Responded r =>
                      if is_success (status_code r) then Some (body_value r) else None
                  | Failed => None
                  end) (replies t).

(** The items [request_paginated] finds on a page. *)
Definition page_items (page : pyval) : list pyval :=
  match contains "value" page with
  | inr true =>
      match getitem page "value" with
      | inr v => match iter v with inr items => items | inl _ => [] end
      | inl _ => []
      end
  | _ => []
  end.

(** A page after which [request_paginated] fetches another one. *)
Definition leads_on (page : pyval) : bool :=
  truthy page &&
  match get page "@odata.nextLink" PNone with
  | inr next_link => truthy next_link
  | inl _ => false
  end.

(** How many of [items] the loop of [yield_items] yields. *)
Fixpoint yield_count (limit : option Z) (items : list pyval) (items_returned : Z) : nat :=
  match items with
  | [] => 0
  | _ :: rest =>
      if limit_reached limit items_returned then 0
      else S (yield_count limit rest (items_returned + 1))
  end.

(** A successful response whose body has the ['@odata.nextLink'] key. *)
Definition carries_cursor (e : event) : bool :=
  match e with
  | EvHttp _ (Responded r) =>
      is_success (status_code r) &&
      match contains "@odata.nextLink" (body_value r) with
      | inr present => present
      | inl _ => false
      end
  | _ => false
  end.

Definition is_yield (e : event) : bool :=
  match e with EvYield _ => true | _ => false end.

(** Only yields follow a response that carries a cursor. *)
Fixpoint cursor_final (t : list event) : Prop :=
  match t with
  | [] => True
  | e :: t' =>
      (carries_cursor e = true -> Forall (fun e' => is_yield e' = true) t')
      /\ cursor_final t'
  end.

Definition no_cursor (t : list event) : Prop :=
  Forall (fun e => carries_cursor e = false) t.

(** A computation that only yields: it adds no call and no sleep to the
    trace, leaves the heap alone, and ends. *)
Definition only_yields {A} (m : M A) : Prop :=
  forall w o w', m w = (o, w') ->
    exists ys, w' = extend w (EvYield <$> ys) /\ o <> OutOfFuel.

(** The byte ranges [(chunk_start, chunk_end)] the loop of
    [_do_chunked_upload] goes through. *)
Definition chunk_ranges (file_size : Z) : list (Z * Z) :=
  (fun i => (i, Z.min (i + UPLOAD_CHUNK_SIZE) file_size))
    <$> range0 file_size UPLOAD_CHUNK_SIZE.

(** Ranges that are not empty, each starting where the one before ended,
    from [lo] up to [hi]. *)
Fixpoint chained (lo hi : Z) (ranges : list (Z * Z)) : Prop :=
  match ranges with
  | [] => lo = hi
  | (a, b) :: ranges' => a = lo /\ a < b /\ chained b hi ranges'
  end.

(** The calls of a schedule: the call of each start, once and then once
    more for every retry. *)
Definition attempts (call_of : Z -> Call) (sched : list (Z * nat)) : list Call :=
  concat ((fun p => replicate (S p.2) (call_of p.1)) <$> sched).

(** The answer to a chunk after which more is expected: a success, but
    neither 200 nor 201. *)
Definition acknowledged (rp : Reply) : Prop :=
  exists r, rp = Responded r /\ is_success (status_code r) = true
            /\ status_code r <> 200 /\ status_code r <> 201.

(** The ids a batch was sent with, and the ids its result has entries
    for. *)
Definition submitted_ids (requests : list dict) : list pyval :=
  omap (fun req : dict => req !! "id") requests.

Definition response_ids (result : pyval) : list pyval :=
  match getitem result "responses" with
  | inr (PList entries) =>
      omap (fun entry => match entry with PDict d => d !! "id" | _ => None end) entries
  | _ => []
  end.

(** The wait of lines 59 and 64-65 after the response [r] on retry number
    [retry_count]: the [Retry-After] of a 429, capped at 60 and 5 when the
    header is absent; a power of two after any other transient status. *)
Definition backoff (r : Response) (retry_count : Z) : Z :=
  if status_code r =? 429 then
    Z.min (match retry_after r with RA_int seconds => seconds | _ => 5 end) 60
  else 2 ^ retry_count.

(** The events of the retried responses [rs] of the call [c], the first of
    them on retry number [retry_count]: each response and then its wait. *)
Fixpoint retries (c : Call) (retry_count : Z) (rs : list Response) : list event :=
  match rs with
  | [] => []
  | r :: rs' =>
      EvHttp c (Responded r) :: EvSleep (backoff r retry_count)
        :: retries c (retry_count + 1) rs'
  end.

(** What [request] makes of a response that it does not retry. *)
Definition settled (r : Response) : outcome pyval :=
  if is_success (status_code r) then
    match body r with
    | NoContent => Returned PNone
    | JsonBody v => Returned v
    | Malformed => Raised JSONDecodeError
    end
  else Raised (HTTPStatusError (status_code r)).



(** The result of a pass through a retry loop that ends the loop with [o]. *)
Definition done_with {A} (o : outcome A) : outcome (step A) :=
  match o with
  | Returned a => Returned (Done a)
  | Raised e => Raised e
  | OutOfFuel => OutOfFuel
  end.

(** The reply [rp] ends a retry loop with the outcome [o].  [settle] is what
    the loop makes of a response it does not retry, and [exhausted] says that
    no retry was left.  A transient response ends the loop with its own
    status error when no retry is left, and a 429 can end it with the
    [ValueError] of [int] or of [time.sleep]. *)
Definition decides {A} (settle : Response -> outcome A) (exhausted : Prop)
    (rp : Reply) (o : outcome A) : Prop :=
  match rp with
  | Failed => o = Raised TransportError
  | Responded r =>
      if retryable (status_code r) then
        (o = Raised (HTTPStatusError (status_code r)) /\ exhausted)
        \/ (status_code r = 429 /\ exists msg, o = Raised (ValueError msg))
      else o = settle r
  end.



(** A loop that yields under the limit [l], started at the count [n]: it
    adds yields and nothing else, the count never passes [l], the [return]
    of the limit check is taken at [l], and the count is handed on. *)
Definition under_limit (l n : Z) (m : M walk) : Prop :=
  forall w o w', m w = (o, w') ->
    exists ys,
      w' = extend w (EvYield <$> ys)
      /\ n + Z.of_nat (length ys) <= l
      /\ (o = Returned Stopped -> n + Z.of_nat (length ys) = l)
      /\ forall n', o = Returned (Walked n') -> n' = n + Z.of_nat (length ys).

(** A call that [request] makes without [params]: the method, the path
    under [BASE_URL], the JSON body, the content and the [Content-Type]. *)
Definition plain_call (method path : string) (json : option pyval)
    (data : option (list Byte.byte)) (c : Call) : Prop :=
  call_method c = method
  /\ call_url c = String.append BASE_URL path
  /\ call_params c = None
  /\ call_json c = json
  /\ call_content c = data
  /\ call_headers c !! "Content-Type"
     = (if String.eqb method "GET" then None
        else Some (if match json with Some j => truthy j | None => false end
                   then "application/json" else "application/octet-stream")).

(** How a [request] followed by [if not result: raise ValueError(msg)]
    ends, seen from the events [new] it added: it returns only the JSON
    body of a final success, and that body is truthy; a final success that
    [request] turns into a falsy result raises the [ValueError]; and a
    final success with a truthy JSON body is returned. *)
Definition checked_result (msg : string) (new : list event) (o : outcome pyval) : Prop :=
  (forall v, o = Returned v ->
     truthy v = true
     /\ exists r, last (replies new) = Some (Responded r)
                  /\ is_success (status_code r) = true /\ body r = JsonBody v)
  /\ (forall r, last (replies new) = Some (Responded r) ->
        is_success (status_code r) = true ->
        body r <> Malformed ->
        truthy (body_value r) = false ->
        o = Raised (ValueError msg))
  /\ (forall r v, last (replies new) = Some (Responded r) ->
        is_success (status_code r) = true ->
        body r = JsonBody v ->
        truthy v = true ->
        o = Returned v).


(** What the loops of lines 414-421 go through: the resources of the
    hits in their order, up to the first step that raises, and the error of
    that step. *)
Definition hits_run : Type := list pyval * option exn.

Definition hits_then (a b : hits_run) : hits_run :=
  match a.2 with
  | Some _ => a
  | None => ((a.1 ++ b.1)%list, b.2)
  end.

Fixpoint hits_all {A} (f : A -> hits_run) (l : list A) : hits_run :=
  match l with
  | [] => ([], None)
  | x :: rest => hits_then (f x) (hits_all f rest)
  end.

Definition hit_resource (hit : pyval) : hits_run :=
  match getitem hit "resource" with
  | inl e => ([], Some e)
  | inr resource => ([resource], None)
  end.

Definition container_hits (container : pyval) : hits_run :=
  match contains "hits" container with
  | inl e => ([], Some e)
  | inr false => ([], None)
  | inr true =>
      match getitem container "hits" with
      | inl e => ([], Some e)
      | inr h =>
          match iter h with
          | inl e => ([], Some e)
          | inr hits => hits_all hit_resource hits
          end
      end
  end.

Definition response_hits (response : pyval) : hits_run :=
  match contains "hitsContainers" response with
  | inl e => ([], Some e)
  | inr false => ([], None)
  | inr true =>
      match getitem response "hitsContainers" with
      | inl e => ([], Some e)
      | inr c =>
          match iter c with
          | inl e => ([], Some e)
          | inr containers => hits_all container_hits containers
          end
      end
  end.

(** The hits of a search result; a result that line 411 turns away has
    none. *)
Definition result_hits (result : pyval) : hits_run :=
  if negb (truthy result) then ([], None)
  else
    match contains "value" result with
    | inl e => ([], Some e)
    | inr false => ([], None)
    | inr true =>
        match getitem result "value" with
        | inl e => ([], Some e)
        | inr v =>
            match iter v with
            | inl e => ([], Some e)
            | inr responses => hits_all response_hits responses
            end
        end
    end.

(** A loop that goes through the hits [h]: it yields a leading part of
    them and nothing else; it yields all of them unless the limit stops
    it, and it raises exactly the error that ends [h]. *)
Definition walks (h : hits_run) (m : M walk) : Prop :=
  forall w o w', m w = (o, w') ->
    exists ys,
      w' = extend w (EvYield <$> ys)
      /\ ys `prefix_of` h.1
      /\ match o with
         | Returned Stopped => True
         | Returned (Walked _) => ys = h.1 /\ h.2 = None
         | Raised e => ys = h.1 /\ h.2 = Some e
         | OutOfFuel => False
         end.

(** How a run of [search_query] that received the result [result] with a
    cursor ends, [ys] being what it yielded afterwards. *)
Definition ends_after_hits (result : pyval) (ys : list pyval) (o : outcome finish) : Prop :=
  ys `prefix_of` (result_hits result).1
  /\ match o with
     | Returned LimitReached => True
     | Returned CursorPresent | Returned NoResult =>
         ys = (result_hits result).1 /\ (result_hits result).2 = None
     | Raised e => ys = (result_hits result).1 /\ (result_hits result).2 = Some e
     | _ => False
     end.

(** ** Concrete services and inputs *)

(** A token provider that always has a token. *)
Definition token_for_all : option string -> exn + string := fun _ => inr "token".

(** A service that answers its [n]-th call with the [n]-th reply of a
    script, and fails once the script is over. *)
Definition scripted (script : list Reply) : list event -> Call -> Reply :=
  fun t _ => nth (length (replies t)) script Failed.

Definition respond (status : Z) (b : Body) : Reply :=
  Responded {| status_code := status; retry_after := RA_absent; body := b |}.

Definition fresh : World := {| heap := ∅; trace := [] |}.

(** [{"id": id, "method": "GET", "url": "/me"}] *)
Definition get_me (id : string) : dict :=
  <["url" := PStr "/me"]> (<["method" := PStr "GET"]> {[ "id" := PStr id ]}).

Definition five_requests : list dict :=
  [get_me "1"; get_me "2"; get_me "3"; get_me "4"; get_me "5"].

(** Two requests, the second of which the caller made depend on the first. *)
Definition dependent_pair : list dict :=
  [get_me "1"; <["dependsOn" := PList [PStr "1"]]> (get_me "2")].

(** A batch response without any entry. *)
Definition no_responses : pyval := PDict {[ "responses" := PList [] ]}.

(** A first page of two items with a cursor, a second page of five. *)
Definition page_one : pyval :=
  PDict (<["@odata.nextLink" := PStr (String.append BASE_URL "/me/messages?$skip=2")]>
           {[ "value" := PList [PInt 1; PInt 2] ]}).

Definition page_two : pyval :=
  PDict {[ "value" := PList [PInt 3; PInt 4; PInt 5; PInt 6; PInt 7] ]}.

Definition two_pages : list event -> Call -> Reply :=
  scripted [respond 200 (JsonBody page_one); respond 200 (JsonBody page_two)].

(** A search response with two hits, a container that reports more
    results, and a cursor. *)
Definition hits_with_cursor : pyval :=
  PDict (<["@odata.nextLink" := PStr "next"]>
           {[ "value" :=
                PList [PDict {[ "hitsContainers" :=
                  PList [PDict (<["moreResultsAvailable" := PBool true]>
                           {[ "hits" :=
                                PList [PDict {[ "resource" := PStr "a" ]};
                                       PDict {[ "resource" := PStr "b" ]}] ]})] ]}] ]}).

(** The caller's [params] for a search, at address [0] of the heap. *)
Definition search_params : dict := {[ "$search" := PStr "budget" ]}.

Definition with_search_params : World :=
  {| heap := {[ 0%nat := search_params ]}; trace := [] |}.

(** A service that is down: 503 four times over. *)
Definition down : list event -> Call -> Reply :=
  scripted [respond 503 NoContent; respond 503 NoContent;
            respond 503 NoContent; respond 503 NoContent].

(** A service that answers a batch with a result that has no entries. *)
Definition forgetful : list event -> Call -> Reply :=
  scripted [respond 200 (JsonBody no_responses)].

(** A service that accepts every chunk and never sends a final answer. *)
Definition accepting : list event -> Call -> Reply :=
  fun _ _ => respond 202 NoContent.

(** One byte more than a chunk. *)
Definition chunk_and_a_byte : list Byte.byte :=
  replicate (Z.to_nat (UPLOAD_CHUNK_SIZE + 1)) Byte.x00.

(** A service that answers a 429 asking for 7 seconds, then a 500, then a
    success with a body. *)
Definition recovering : list event -> Call -> Reply :=
  scripted [Responded {| status_code := 429; retry_after := RA_int 7; body := NoContent |};
            respond 500 NoContent;
            respond 200 (JsonBody (PDict {[ "id" := PStr "1" ]}))].

(** A service that always answers 503. *)
Definition always_down : list event -> Call -> Reply :=
  fun _ _ => respond 503 NoContent.

(** Five requests without an ["id"]. *)
Definition anonymous_requests : list dict := replicate 5 (∅ : dict).

(** A service that confirms an upload at once. *)
Definition confirming : list event -> Call -> Reply :=
  scripted [respond 201 (JsonBody (PDict {[ "id" := PStr "file" ]}))].

(** A service that opens an upload session and then accepts the chunks. *)
Definition session_url : string := "https://upload.example/session".

Definition opening : list event -> Call -> Reply :=
  fun t c =>
    match replies t with
    | [] => respond 200 (JsonBody (PDict {[ "uploadUrl" := PStr session_url ]}))
    | _ => respond 202 NoContent
    end.

(** A search result with one hit and a container that reports more
    results, and a search result with one hit and nothing more. *)
Definition hits_and_more : pyval :=
  PDict {[ "value" :=
             PList [PDict {[ "hitsContainers" :=
               PList [PDict (<["moreResultsAvailable" := PBool true]>
                        {[ "hits" := PList [PDict {[ "resource" := PStr "a" ]}] ]})] ]}] ]}.

Definition hits_and_no_more : pyval :=
  PDict {[ "value" :=
             PList [PDict {[ "hitsContainers" :=
               PList [PDict {[ "hits" := PList [PDict {[ "resource" := PStr "b" ]}] ]}] ]}] ]}.

(** A service that answers a first search with more to come, a second one
    after a 503, and then has no more. *)
Definition two_searches : list event -> Call -> Reply :=
  scripted [respond 200 (JsonBody hits_and_more); respond 503 NoContent;
            respond 200 (JsonBody hits_and_no_more)].

(** The caller's [params] for a filtered listing whose [$select] is a
    number, at address [0] of the heap. *)
Definition filter_params : dict :=
  <["$select" := PInt 5]> {[ "$filter" := PStr "contains(subject,'x')" ]}.

Definition with_filter_params : World :=
  {| heap := {[ 0%nat := filter_params ]}; trace := [] |}.

(** An account for which no token can be had. *)
Definition token_unavailable : option string -> exn + string :=
  fun _ => inl (ValueError "no account").

(** ** Facts about the monad and the trace *)

Lemma extend_extend w es es' : extend (extend w es) es' = extend w (es ++ es').
Proof. unfold extend; cbn. by rewrite <- app_assoc. Qed.

Lemma extend_nil w : extend w [] = w.
Proof. destruct w; unfold extend; cbn. by rewrite app_nil_r. Qed.

Lemma retryable_not_success s : retryable s = true -> is_success s = false.
Proof. unfold retryable, is_success. lia. Qed.

Lemma sleep_nonneg d w : 0 <= d -> sleep d w = (Returned tt, extend w [EvSleep d]).
Proof. intros Hd. unfold sleep. destruct (d <? 0) eqn:E; [lia | done]. Qed.

Lemma throttled_cases r mr rc w :
  (exists d, throttled r mr rc w = (Returned true, extend w [EvSleep d])
             /\ status_code r = 429 /\ rc < mr /\ 0 <= d)
  \/ (throttled r mr rc w = (Returned false, w) /\ (status_code r <> 429 \/ mr <= rc))
  \/ (exists msg, throttled r mr rc w = (Raised (ValueError msg), w) /\ status_code r = 429).
Proof.
  unfold throttled, bind, lift, int_retry_after, sleep, raise, ret, emit.
  destruct (status_code r =? 429) eqn:E429; [| right; left; split; [done | lia]].
  destruct (retry_after r); cbn; try (right; right; eexists; split; [done | lia]).
  all: destruct (rc <? mr) eqn:Erc; [| right; left; split; [done | lia]].
  all: match goal with |- context [if ?b then _ else _] => destruct b eqn:? end; cbn.
  all: first [ right; right; eexists; split; [done | lia]
             | left; eexists; split; [done | lia] ].
Qed.

(** *** The retry loop of [request] *)

Lemma request_attempt_attempted c mr rc w :
  attempted c mr rc w (request_attempt c mr rc w).
Proof.
  unfold request_attempt, catch_status, bind at 1, client_send.
  destruct (server (trace w) c) as [r|] eqn:Hs.
  2:{ rewrite <- Hs. apply attempted_raised. }
  fold (extend w [EvHttp c (Responded r)]). unfold bind at 1.
  destruct (throttled_cases r mr rc (extend w [EvHttp c (Responded r)]))
    as [(d & -> & H429 & Hlt & Hd) | [(-> & Hno) | (e & -> & H429)]]; cbn.
  - rewrite extend_extend. apply attempted_again; auto. unfold retryable. lia.
  - destruct ((500 <=? status_code r) && (rc <? mr)) eqn:E5.
    + assert (0 <= 2 ^ rc * 1) by (pose proof (Z.pow_nonneg 2 rc); lia).
      unfold bind. rewrite sleep_nonneg by done. cbn.
      rewrite extend_extend. apply attempted_again; auto; unfold retryable; lia.
    + unfold bind, raise_for_status.
      destruct (is_success (status_code r)) eqn:Eok; cbn.
      * unfold has_content, response_json.
        destruct (body r) eqn:Hb; cbn.
        -- replace PNone with (body_value r) by (unfold body_value; by rewrite Hb).
           apply attempted_done; auto. by rewrite Hb.
        -- replace v with (body_value r) by (unfold body_value; by rewrite Hb).
           apply attempted_done; auto. by rewrite Hb.
        -- rewrite <- Hs. apply attempted_raised.
      * unfold on_status_error.
        replace ((rc <? mr) && (500 <=? status_code r)) with false by lia.
        rewrite <- Hs. apply attempted_raised.
  - rewrite <- Hs. apply attempted_raised.
Qed.

Lemma request_loop_fetched fuel c mr rc w o w' :
  (Z.to_nat (mr + 1 - rc) <= fuel)%nat ->
  rc <= mr ->
  request_loop fuel c mr rc w = (o, w') ->
  exists new,
    w' = extend w new /\ fetched c (trace w) new o
    /\ Z.of_nat (length (sleeps new)) <= mr - rc.
Proof.
  revert rc w. induction fuel as [|fuel IH]; intros rc w Hfuel Hrc Hrun; [lia|].
  cbn in Hrun. replace (rc <=? mr) with true in Hrun by lia.
  unfold bind in Hrun.
  destruct (request_attempt_attempted c mr rc w) as [r d Hs Hr Hlt Hd | r Hs Hok Hb | e];
    cbn in Hrun.
  - apply IH in Hrun as (new & -> & Hf & Hn); [| lia | lia].
    exists (EvHttp c (Responded r) :: EvSleep d :: new).
    rewrite extend_extend. split; [done|]. split.
    + by apply fetched_retry.
    + unfold sleeps in *. cbn. lia.
  - inversion Hrun; subst. eexists; split; [done|]. split; [by apply fetched_done | cbn; lia].
  - inversion Hrun; subst. eexists; split; [done|]. split; [apply fetched_raised | cbn; lia].
Qed.

Lemma fetched_yields c t new o : fetched c t new o -> yields new = [].
Proof. induction 1; done. Qed.

Lemma fetched_calls c t new o : fetched c t new o -> Forall (eq c) (calls new).
Proof. induction 1; unfold calls in *; cbn; repeat constructor; done. Qed.

Lemma fetched_nonempty c t new o : fetched c t new o -> calls new <> [].
Proof. induction 1; done. Qed.

Lemma fetched_not_out_of_fuel c t new : ~ fetched c t new OutOfFuel.
Proof. intros H. remember OutOfFuel as o. induction H; try done; auto. Qed.

(** Every reply but the last was retried; the last one decides the outcome. *)
Lemma fetched_replies c t new o :
  fetched c t new o ->
  exists rs rp,
    replies new = ((Responded <$> rs) ++ [rp])%list
    /\ Forall (fun r => retryable (status_code r) = true) rs
    /\ forall v, o = Returned v ->
         exists r, rp = Responded r /\ is_success (status_code r) = true
                   /\ body r <> Malformed /\ body_value r = v.
Proof.
  induction 1 as [t r d new o Hs Hr Hd _ (rs & rp & Hrs & Hall & Hret) | t r Hs Hok Hb | t e].
  - exists (r :: rs), rp. unfold replies in *. cbn. rewrite Hrs.
    split; [done|]. split; [by constructor | done].
  - exists [], (Responded r). split; [done|]. split; [constructor|].
    intros v [= <-]. by exists r.
  - exists [], (server t c). split; [done|]. split; [constructor | done].
Qed.

(** *** [request] as a whole *)

Lemma prepare_request_trace method path account_id params json data w o w1 :
  prepare_request method path account_id params json data w = (o, w1) ->
  trace w1 = trace w /\ o <> OutOfFuel.
Proof.
  unfold prepare_request, bind, lift, read_params, ret, raise, setdefault_count.
  destruct (get_token account_id); cbn; [by intros [= <- <-]|].
  destruct (request_headers _ _ _ _); cbn; [by intros [= <- <-]|].
  destruct (wants_eventual _) as [|[]]; cbn; [by intros [= <- <-]| |by intros [= <- <-]].
  destruct params as [l|]; cbn; [|by intros [= <- <-]].
  destruct (default ∅ (heap w !! l) !! "$count"); cbn; by intros [= <- <-].
Qed.

Lemma request_run method path account_id params json data mr w o w' :
  request method path account_id params json data mr w = (o, w') ->
  (exists e, o = Raised e /\ trace w' = trace w
             /\ prepare_request method path account_id params json data w = (Raised e, w'))
  \/ exists c w1,
       prepare_request method path account_id params json data w = (Returned c, w1)
       /\ ((mr < 0 /\ o = Returned PNone /\ w' = w1)
           \/ (0 <= mr /\ exists new,
                 w' = extend w1 new /\ fetched c (trace w) new o
                 /\ Z.of_nat (length (sleeps new)) <= mr)).
Proof.
  unfold request, bind.
  destruct (prepare_request _ _ _ _ _ _ w) as [[c|e|] w1] eqn:Hp;
    pose proof (prepare_request_trace _ _ _ _ _ _ _ _ _ Hp) as [Ht Hne]; [| |done].
  - intros Hrun. right. exists c, w1. split; [done|].
    destruct (Z_lt_le_dec mr 0) as [Hneg|Hpos].
    + left. replace (Z.to_nat (mr + 1)) with 0%nat in Hrun by lia.
      cbn in Hrun. replace (0 <=? mr) with false in Hrun by lia.
      by inversion Hrun.
    + right. split; [done|].
      apply request_loop_fetched in Hrun as (new & -> & Hf & Hn); [| lia | lia].
      exists new. rewrite <- Ht. split; [done|]. split; [done | lia].
  - intros [= <- <-]. left. by exists e.
Qed.

(** A budget below zero: the loop is not entered, and line 83 returns
    [None] with nothing sent. *)
Lemma request_negative_budget method path account_id params json data max_retries w c w1 :
  max_retries < 0 ->
  prepare_request method path account_id params json data w = (Returned c, w1) ->
  request method path account_id params json data max_retries w = (Returned PNone, w1).
Proof.
  intros Hneg Hp. unfold request, bind. rewrite Hp.
  replace (Z.to_nat (max_retries + 1)) with 0%nat by lia.
  cbn. by replace (0 <=? max_retries) with false by lia.
Qed.

(** C3. Every call to [request] ends; it sleeps at most [max_retries]
    times; when the last response it received has a transient status (429
    or 5xx) it raises; and when it returns [None], either the last
    response was a success without content, or the budget was below zero
    and nothing was sent at all. *)
Theorem request_retry_budget method path account_id params json data max_retries w o w' :
  request method path account_id params json data max_retries w = (o, w') ->
  exists new,
    trace w' = (trace w ++ new)%list
    /\ o <> OutOfFuel
    /\ (length (sleeps new) <= Z.to_nat max_retries)%nat
    /\ (forall r, last (replies new) = Some (Responded r) ->
          retryable (status_code r) = true -> exists e, o = Raised e)
    /\ (o = Returned PNone ->
          (max_retries < 0 /\ new = [])
          \/ exists r, last (replies new) = Some (Responded r)
                       /\ is_success (status_code r) = true
                       /\ (body r = NoContent \/ body r = JsonBody PNone)).
Proof.
  intros Hrun.
  apply request_run in Hrun
    as [(e & -> & Ht & _)
       | (c & w1 & Hp & [(Hneg & -> & ->) | (Hmr & new & -> & Hf & Hn)])].
  - exists []. rewrite app_nil_r. repeat split; try done. cbn; lia.
  - apply prepare_request_trace in Hp as [Ht _].
    exists []. rewrite app_nil_r. repeat split; try done; [cbn; lia|]. intros _. by left.
  - apply prepare_request_trace in Hp as [Ht _].
    exists new. cbn. rewrite Ht. split; [done|].
    destruct (fetched_replies _ _ _ _ Hf) as (rs & rp & Hrs & _ & Hret).
    assert (Hlast : last (replies new) = Some rp) by (rewrite Hrs; apply last_snoc).
    repeat split.
    + intros ->. by eapply fetched_not_out_of_fuel.
    + lia.
    + intros r Hr Hretry. rewrite Hlast in Hr. injection Hr as ->.
      destruct o as [v|e|]; [| by exists e | by eapply fetched_not_out_of_fuel in Hf].
      destruct (Hret v eq_refl) as (r' & [= <-] & Hok & _).
      apply retryable_not_success in Hretry. congruence.
    + intros ->. right. destruct (Hret PNone eq_refl) as (r & -> & Hok & Hb & Hv).
      exists r. repeat split; try done.
      unfold body_value in Hv. destruct (body r); [by left | right; by subst | done].
Qed.

(** *** The write to the caller's [params] *)

Lemma wants_eventual_trigger (d : dict) :
  (is_Some (d !! "$search")
   \/ exists f, d !! "$filter" = Some (PStr f)
        /\ (str_contains "contains(" f = true \/ str_contains "/any(" f = true)) ->
  wants_eventual (Some d) = inr true.
Proof.
  intros Htrig. unfold wants_eventual.
  destruct (bool_decide (d = ∅)) eqn:Hempty.
  { apply bool_decide_eq_true in Hempty as ->.
    destruct Htrig as [[v Hv] | (f & Hf & _)]; by simplify_map_eq. }
  destruct (bool_decide (is_Some (d !! "$search"))) eqn:Hsearch; [done|].
  apply bool_decide_eq_false in Hsearch.
  destruct Htrig as [Hs | (f & -> & Hf)]; [done|]. cbn.
  destruct (str_contains "contains(" f); [done|].
  destruct Hf as [Hf | ->]; done.
Qed.

Lemma prepare_request_eventual method path account_id l (d : dict) json data w token headers :
  heap w !! l = Some d ->
  wants_eventual (Some d) = inr true ->
  d !! "$count" = None ->
  get_token account_id = inr token ->
  request_headers token method (Some d) json = inr headers ->
  prepare_request method path account_id (Some l) json data w =
    (Returned {| call_method := method; call_url := String.append BASE_URL path;
                 call_headers := <["ConsistencyLevel" := "eventual"]> headers;
                 call_params := Some (<["$count" := PStr "true"]> d);
                 call_json := json; call_content := data |},
     {| heap := <[l := <["$count" := PStr "true"]> d]> (heap w); trace := trace w |}).
Proof.
  intros Hl He Hc Ht Hh.
  unfold prepare_request, bind, lift, read_params, ret, setdefault_count.
  rewrite Ht. cbn [fmap option_fmap option_map]. rewrite Hl.
  change (default ∅ (Some d)) with d. rewrite Hh, He. cbn [heap trace]. rewrite Hl.
  change (default ∅ (Some d)) with d. rewrite Hc.
  cbn [heap trace]. by rewrite lookup_insert_eq.
Qed.

(** C9. When the caller's [params] hold a [$search] key, or a [$filter]
    string containing [contains(] or [/any(], and no [$count] key, a call
    to [request] that gets past its header lines leaves the caller's own
    dictionary with [$count] set to ["true"]: the heap cell is overwritten,
    and the calls sent carry that same dictionary. *)
Theorem request_sets_count_in_place method path account_id l (d : dict) json data
    max_retries w token headers o w' :
  heap w !! l = Some d ->
  (is_Some (d !! "$search")
   \/ exists f, d !! "$filter" = Some (PStr f)
        /\ (str_contains "contains(" f = true \/ str_contains "/any(" f = true)) ->
  d !! "$count" = None ->
  get_token account_id = inr token ->
  request_headers token method (Some d) json = inr headers ->
  request method path account_id (Some l) json data max_retries w = (o, w') ->
  heap w' = <[l := <["$count" := PStr "true"]> d]> (heap w)
  /\ exists new,
       trace w' = (trace w ++ new)%list
       /\ Forall (fun c => call_params c = Some (<["$count" := PStr "true"]> d)) (calls new).
Proof.
  intros Hl Htrig Hc Ht Hh Hrun.
  pose proof (prepare_request_eventual method path account_id l d json data w token headers
                Hl (wants_eventual_trigger d Htrig) Hc Ht Hh) as Hp.
  apply request_run in Hrun
    as [(e & -> & _ & Hp') | (c & w1 & Hp' & [(_ & _ & ->) | (_ & new & -> & Hf & _)])];
    rewrite Hp in Hp'; try done; injection Hp' as <- <-.
  - split; [done|]. exists []. by rewrite app_nil_r.
  - split; [done|]. exists new. split; [done|].
    eapply Forall_impl; [by eapply fetched_calls|]. by intros c <-.
Qed.

(** *** The retry loop of [batch_request] *)

Lemma batch_attempt_attempted c mr rc w :
  attempted c mr rc w (batch_attempt c mr rc w).
Proof.
  unfold batch_attempt, catch_status, bind at 1, client_send.
  destruct (server (trace w) c) as [r|] eqn:Hs.
  2:{ rewrite <- Hs. apply attempted_raised. }
  fold (extend w [EvHttp c (Responded r)]). unfold bind at 1.
  destruct (throttled_cases r mr rc (extend w [EvHttp c (Responded r)]))
    as [(d & -> & H429 & Hlt & Hd) | [(-> & Hno) | (e & -> & H429)]]; cbn.
  - rewrite extend_extend. apply attempted_again; auto. unfold retryable. lia.
  - destruct ((500 <=? status_code r) && (rc <? mr)) eqn:E5.
    + assert (0 <= 2 ^ rc * 1) by (pose proof (Z.pow_nonneg 2 rc); lia).
      unfold bind. rewrite sleep_nonneg by done. cbn.
      rewrite extend_extend. apply attempted_again; auto; unfold retryable; lia.
    + unfold bind, raise_for_status.
      destruct (is_success (status_code r)) eqn:Eok; cbn.
      * unfold response_json.
        destruct (body r) eqn:Hb; cbn; try (rewrite <- Hs; apply attempted_raised).
        replace v with (body_value r) by (unfold body_value; by rewrite Hb).
        apply attempted_done; auto. by rewrite Hb.
      * unfold on_status_error.
        replace ((rc <? mr) && (500 <=? status_code r)) with false by lia.
        rewrite <- Hs. apply attempted_raised.
  - rewrite <- Hs. apply attempted_raised.
Qed.

(** A pass that returns, returns the JSON body of a successful response. *)
Lemma batch_attempt_done c mr rc w v w' :
  batch_attempt c mr rc w = (Returned (Done v), w') ->
  exists r,
    w' = extend w [EvHttp c (Responded r)]
    /\ is_success (status_code r) = true /\ body r = JsonBody v.
Proof.
  unfold batch_attempt, catch_status, bind at 1, client_send.
  destruct (server (trace w) c) as [r|] eqn:Hs; [|done].
  fold (extend w [EvHttp c (Responded r)]). unfold bind at 1.
  destruct (throttled_cases r mr rc (extend w [EvHttp c (Responded r)]))
    as [(d & -> & H429 & Hlt & Hd) | [(-> & Hno) | (e & -> & H429)]]; cbn; try done.
  destruct ((500 <=? status_code r) && (rc <? mr)) eqn:E5.
  - unfold bind. rewrite sleep_nonneg by (pose proof (Z.pow_nonneg 2 rc); lia). done.
  - unfold bind, raise_for_status.
    destruct (is_success (status_code r)) eqn:Eok; cbn.
    + unfold response_json. destruct (body r) eqn:Hb; cbn; try done.
      intros [= <- <-]. by exists r.
    + unfold on_status_error.
      destruct ((rc <? mr) && (500 <=? status_code r)); [|done].
      unfold bind. rewrite sleep_nonneg by (pose proof (Z.pow_nonneg 2 rc); lia). done.
Qed.

Lemma batch_loop_fetched fuel c mr rc w o w' :
  (Z.to_nat (mr + 1 - rc) <= fuel)%nat ->
  rc <= mr ->
  batch_loop fuel c mr rc w = (o, w') ->
  exists new, w' = extend w new /\ fetched c (trace w) new o.
Proof.
  revert rc w. induction fuel as [|fuel IH]; intros rc w Hfuel Hrc Hrun; [lia|].
  cbn in Hrun. replace (rc <=? mr) with true in Hrun by lia.
  unfold bind in Hrun.
  destruct (batch_attempt_attempted c mr rc w) as [r d Hs Hr Hlt Hd | r Hs Hok Hb | e];
    cbn in Hrun.
  - apply IH in Hrun as (new & -> & Hf); [| lia | lia].
    exists (EvHttp c (Responded r) :: EvSleep d :: new).
    rewrite extend_extend. split; [done|]. by apply fetched_retry.
  - inversion Hrun; subst. eexists; split; [done|]. by apply fetched_done.
  - inversion Hrun; subst. eexists; split; [done|]. apply fetched_raised.
Qed.

Lemma batch_loop_calls fuel c mr rc w o w' :
  batch_loop fuel c mr rc w = (o, w') ->
  exists new, w' = extend w new /\ Forall (eq c) (calls new).
Proof.
  revert rc w. induction fuel as [|fuel IH]; intros rc w Hrun; cbn in Hrun.
  { exists []. rewrite extend_nil.
    destruct (rc <=? mr); inversion Hrun; by subst. }
  destruct (rc <=? mr); [| exists []; rewrite extend_nil; inversion Hrun; by subst].
  unfold bind in Hrun.
  destruct (batch_attempt_attempted c mr rc w) as [r d Hs Hr Hlt Hd | r Hs Hok Hb | e];
    cbn in Hrun.
  - apply IH in Hrun as (new & -> & Hf).
    exists (EvHttp c (Responded r) :: EvSleep d :: new).
    rewrite extend_extend. split; [done|]. by constructor.
  - inversion Hrun; subst. eexists; split; [done|]. by repeat constructor.
  - inversion Hrun; subst. eexists; split; [done|]. by repeat constructor.
Qed.

Lemma batch_loop_returned fuel c mr rc w v w' :
  batch_loop fuel c mr rc w = (Returned v, w') ->
  exists new r,
    w' = extend w new /\ last (replies new) = Some (Responded r)
    /\ is_success (status_code r) = true /\ body r = JsonBody v.
Proof.
  revert rc w. induction fuel as [|fuel IH]; intros rc w Hrun; cbn in Hrun.
  { destruct (rc <=? mr); inversion Hrun. }
  destruct (rc <=? mr); [| inversion Hrun].
  unfold bind in Hrun.
  destruct (batch_attempt c mr rc w) as [[[rc'| |v']|e|] w1] eqn:Ha; try done.
  - pose proof (batch_attempt_attempted c mr rc w) as Hatt. rewrite Ha in Hatt.
    inversion Hatt as [r d Hs Hr Hlt Hd| |]; subst.
    apply IH in Hrun as (new & r' & -> & Hlast & Hok & Hb).
    exists (EvHttp c (Responded r) :: EvSleep d :: new), r'.
    rewrite extend_extend. split; [done|]. split; [|done].
    unfold replies in *. cbn. destruct (omap _ new); [done|]. done.
  - injection Hrun as <- <-.
    apply batch_attempt_done in Ha as (r & -> & Hok & Hb).
    by exists [EvHttp c (Responded r)], r.
Qed.

(** *** [batch_request] as a whole *)

Lemma batch_request_calls requests account_id mr w o w' :
  batch_request requests account_id mr w = (o, w') ->
  exists new,
    w' = extend w new
    /\ forall c, c ∈ calls new ->
         exists chunked,
           chunked_requests requests = inr chunked
           /\ call_json c = Some (batch_payload chunked).
Proof.
  unfold batch_request.
  destruct requests as [|req requests].
  { intros [= <- <-]. exists []. rewrite extend_nil. split; [done|].
    intros c Hc. by apply elem_of_nil in Hc. }
  destruct (20 <? _).
  { intros [= <- <-]. exists []. rewrite extend_nil. split; [done|].
    intros c Hc. by apply elem_of_nil in Hc. }
  unfold bind at 1, lift.
  destruct (chunked_requests (req :: requests)) as [e|chunked]; cbn.
  { intros [= <- <-]. exists []. rewrite extend_nil. split; [done|].
    intros c Hc. by apply elem_of_nil in Hc. }
  unfold bind at 1.
  destruct (get_token account_id) as [e|token]; cbn.
  { intros [= <- <-]. exists []. rewrite extend_nil. split; [done|].
    intros c Hc. by apply elem_of_nil in Hc. }
  intros Hrun. apply batch_loop_calls in Hrun as (new & -> & Hall).
  exists new. split; [done|]. intros c Hc.
  rewrite Forall_forall in Hall. apply Hall in Hc as <-.
  by exists chunked.
Qed.

Lemma batch_request_sends requests account_id mr w o w' chunked token :
  requests <> [] ->
  Z.of_nat (length requests) <= 20 ->
  chunked_requests requests = inr chunked ->
  get_token account_id = inr token ->
  0 <= mr ->
  batch_request requests account_id mr w = (o, w') ->
  exists new, w' = extend w new /\ calls new <> [] /\ o <> OutOfFuel.
Proof.
  intros Hne Hlen Hch Htok Hmr. unfold batch_request.
  destruct requests as [|req requests]; [done|].
  replace (20 <? _) with false by lia.
  rewrite Hch, Htok. cbn. intros Hrun.
  apply batch_loop_fetched in Hrun as (new & -> & Hf); [| lia | lia].
  exists new. split; [done|]. split; [by eapply fetched_nonempty|].
  intros ->. by eapply fetched_not_out_of_fuel.
Qed.

(** *** The dependency chain *)

Lemma index_previous {A} (l : list A) (j : nat) (x : A) :
  l !! j = Some x -> index l (Z.of_nat (S j) - 1) = inr x.
Proof.
  intros Hx. pose proof (lookup_lt_Some _ _ _ Hx) as Hlt.
  unfold index. replace (Z.of_nat (S j) - 1) with (Z.of_nat j) by lia.
  replace (Z.of_nat j <? 0) with false by lia.
  replace ((0 <=? Z.of_nat j) && (Z.of_nat j <? Z.of_nat (length l))) with true by lia.
  by rewrite Nat2Z.id, Hx.
Qed.

(** After the first item, both branches of the loop body write the same
    single link. *)
Lemma chain_item_later requests (j : nat) req :
  chain_item requests (Z.of_nat (S j)) req
  = depend_on_previous requests (Z.of_nat (S j)) req.
Proof.
  unfold chain_item.
  destruct (Z.of_nat (S j) mod 4 =? 0) eqn:Hmod.
  - replace (4 <=? Z.of_nat (S j)) with true; [done|].
    symmetry. apply Z.leb_le. apply Z.eqb_eq in Hmod.
    pose proof (Z.div_mod (Z.of_nat (S j)) 4). lia.
  - destruct (depend_on_previous _ _ _); [done|].
    by rewrite andb_false_r.
Qed.

Lemma chain_item_first requests req : chain_item requests 0 req = inr req.
Proof. done. Qed.

Lemma chain_from_later requests (i : nat) rest chunked :
  chain_from requests (Z.of_nat (S i)) rest = inr chunked ->
  (forall k req, rest !! k = Some req -> requests !! (S i + k)%nat = Some req) ->
  length chunked = length rest
  /\ forall k req, rest !! k = Some req ->
       exists prev id,
         requests !! (i + k)%nat = Some prev /\ prev !! "id" = Some id
         /\ chunked !! k = Some (<["dependsOn" := PList [id]]> req).
Proof.
  revert i chunked. induction rest as [|req0 rest IH]; intros i chunked Hch Hsub.
  { injection Hch as <-. split; [done|]. intros k req Hk. by rewrite lookup_nil in Hk. }
  cbn [chain_from] in Hch. rewrite chain_item_later in Hch.
  unfold depend_on_previous in Hch.
  destruct (requests !! i) as [prev|] eqn:Hprev.
  2:{ apply lookup_ge_None in Hprev.
      pose proof (Hsub 0%nat req0 eq_refl) as H0. apply lookup_lt_Some in H0. lia. }
  rewrite (index_previous _ _ _ Hprev) in Hch. cbn in Hch.
  destruct (prev !! "id") as [id|] eqn:Hid; cbn in Hch; [|done].
  replace (Z.of_nat (S i) + 1) with (Z.of_nat (S (S i))) in Hch by lia.
  destruct (chain_from requests (Z.of_nat (S (S i))) rest) as [|chunked'] eqn:Hrest; [done|].
  injection Hch as <-.
  apply IH in Hrest as [Hlen Hitems].
  2:{ intros k req Hk. specialize (Hsub (S k) req Hk).
      by replace (S (S i) + k)%nat with (S i + S k)%nat by lia. }
  split; [cbn; by rewrite Hlen|].
  intros [|k] req Hk.
  - injection Hk as ->. exists prev, id. by rewrite Nat.add_0_r.
  - destruct (Hitems k req Hk) as (prev' & id' & Hp & Hi & Hc).
    exists prev', id'. by replace (i + S k)%nat with (S i + k)%nat by lia.
Qed.

Lemma chunked_requests_chain requests chunked :
  4 < Z.of_nat (length requests) ->
  chunked_requests requests = inr chunked ->
  length chunked = length requests
  /\ chunked !! 0%nat = requests !! 0%nat
  /\ forall i req, requests !! (S i) = Some req ->
       exists prev id,
         requests !! i = Some prev /\ prev !! "id" = Some id
         /\ chunked !! (S i) = Some (<["dependsOn" := PList [id]]> req).
Proof.
  intros Hlen. unfold chunked_requests. replace (_ <=? 4) with false by lia.
  destruct requests as [|req0 rest]; [cbn in Hlen; lia|].
  cbn [chain_from]. rewrite chain_item_first.
  change (0 + 1) with (Z.of_nat 1).
  destruct (chain_from (req0 :: rest) (Z.of_nat 1) rest) as [|chunked'] eqn:Hrest; [done|].
  intros [= <-].
  apply chain_from_later in Hrest as [Hl Hitems]; [|done].
  split; [cbn; by rewrite Hl|]. split; [done|].
  intros i req Hi. cbn in Hi. by apply Hitems in Hi.
Qed.

Lemma chain_from_total requests rest (i : nat) :
  Forall (fun req : dict => is_Some (req !! "id")) requests ->
  (forall k req, rest !! k = Some req -> requests !! (S i + k)%nat = Some req) ->
  exists chunked, chain_from requests (Z.of_nat (S i)) rest = inr chunked.
Proof.
  intros Hids. revert i. induction rest as [|req0 rest IH]; intros i Hsub.
  { by exists []. }
  cbn [chain_from]. rewrite chain_item_later. unfold depend_on_previous.
  destruct (requests !! i) as [prev|] eqn:Hprev.
  2:{ apply lookup_ge_None in Hprev.
      pose proof (Hsub 0%nat req0 eq_refl) as H0. apply lookup_lt_Some in H0. lia. }
  rewrite (index_previous _ _ _ Hprev). cbn.
  rewrite Forall_lookup in Hids. destruct (Hids _ _ Hprev) as [id ->].
  replace (Z.of_nat (S i) + 1) with (Z.of_nat (S (S i))) by lia.
  destruct (IH (S i)) as [chunked' ->]; [|by eexists].
  intros k req Hk. specialize (Hsub (S k) req Hk).
  by replace (S (S i) + k)%nat with (S i + S k)%nat by lia.
Qed.

Lemma chunked_requests_total requests :
  Forall (fun req : dict => is_Some (req !! "id")) requests ->
  exists chunked, chunked_requests requests = inr chunked.
Proof.
  intros Hids. unfold chunked_requests. destruct (_ <=? 4); [by eexists|].
  destruct requests as [|req0 rest]; [by exists []|].
  cbn [chain_from]. rewrite chain_item_first. change (0 + 1) with (Z.of_nat 1).
  destruct (chain_from_total (req0 :: rest) rest 0 Hids) as [chunked' ->]; [done|].
  by eexists.
Qed.

(** C4. An empty list is answered with an empty ['responses'] array, and a
    list of more than 20 items with a [ValueError]; in both cases the world
    is left as it was: nothing is sent. *)
Theorem batch_request_preconditions account_id max_retries w :
  batch_request [] account_id max_retries w
    = (Returned (PDict {[ "responses" := PList [] ]}), w)
  /\ forall requests,
       20 < Z.of_nat (length requests) ->
       batch_request requests account_id max_retries w
         = (Raised (ValueError "Batch requests cannot exceed 20 items"), w).
Proof.
  split; [done|]. intros requests Hlen. unfold batch_request.
  destruct requests as [|req requests]; [cbn in Hlen; lia|].
  by replace (20 <? _) with true by lia.
Qed.

(** C1. For a list of [n] requests with [4 < n <= 20], the JSON body of
    every call that [batch_request] sends is a dictionary whose one entry,
    ["requests"], is a list of [n] items: the first item is the caller's,
    and the item at each index [i > 0] is the caller's with [dependsOn] set
    to the one-element list holding the ["id"] of the request at index
    [i - 1], one chain of [n - 1] links.  When every request has an ["id"],
    a token is at hand and the budget is not negative, such a call is
    sent. *)
Theorem batch_request_chain requests account_id max_retries w o w' :
  4 < Z.of_nat (length requests) <= 20 ->
  batch_request requests account_id max_retries w = (o, w') ->
  exists new,
    trace w' = (trace w ++ new)%list
    /\ (forall c, c ∈ calls new ->
          exists chunked : list dict,
            call_json c = Some (PDict {[ "requests" := PList (PDict <$> chunked) ]})
            /\ length chunked = length requests
            /\ chunked !! 0%nat = requests !! 0%nat
            /\ forall i req, requests !! (S i) = Some req ->
                 exists prev id,
                   requests !! i = Some prev /\ prev !! "id" = Some id
                   /\ chunked !! (S i) = Some (<["dependsOn" := PList [id]]> req))
    /\ (Forall (fun req : dict => is_Some (req !! "id")) requests ->
        (exists token, get_token account_id = inr token) -> 0 <= max_retries ->
        calls new <> []).
Proof.
  intros Hlen Hrun.
  destruct (batch_request_calls _ _ _ _ _ _ Hrun) as (new & -> & Hcalls).
  exists new. split; [done|]. split.
  - intros c Hc. destruct (Hcalls c Hc) as (chunked & Hch & Hjson).
    exists chunked. split; [exact Hjson|].
    apply chunked_requests_chain; [lia | done].
  - intros Hids (token & Htok) Hmr.
    destruct (chunked_requests_total requests Hids) as [chunked Hch].
    assert (requests <> []) as Hne by (intros ->; cbn in Hlen; lia).
    destruct (batch_request_sends _ _ _ _ _ _ _ _ Hne (proj2 Hlen) Hch Htok Hmr Hrun)
      as (new' & Hw & Hnew & _).
    apply (f_equal trace) in Hw. cbn in Hw. by apply app_inv_head in Hw as ->.
Qed.

(** C6, as the code has it.  For a list of at most 4 requests the JSON
    body of every call that [batch_request] sends is a dictionary whose one
    entry, ["requests"], is the caller's list itself: no link is added, and
    an item has a [dependsOn] field exactly when the caller gave it one.
    For a non-empty list, with a token at hand and a budget that is not
    negative, such a call is sent. *)
Theorem batch_request_small_unchanged requests account_id max_retries w o w' :
  Z.of_nat (length requests) <= 4 ->
  batch_request requests account_id max_retries w = (o, w') ->
  exists new,
    trace w' = (trace w ++ new)%list
    /\ Forall (fun c =>
                 call_json c = Some (PDict {[ "requests" := PList (PDict <$> requests) ]}))
         (calls new)
    /\ (requests <> [] ->
        (exists token, get_token account_id = inr token) -> 0 <= max_retries ->
        calls new <> []).
Proof.
  intros Hlen Hrun.
  assert (chunked_requests requests = inr requests) as Hch.
  { unfold chunked_requests. by replace (_ <=? 4) with true by lia. }
  destruct (batch_request_calls _ _ _ _ _ _ Hrun) as (new & -> & Hcalls).
  exists new. split; [done|]. split.
  - apply Forall_forall. intros c Hc.
    destruct (Hcalls c Hc) as (chunked & Hch' & Hjson).
    rewrite Hch in Hch'. injection Hch' as <-. exact Hjson.
  - intros Hne (token & Htok) Hmr.
    destruct (batch_request_sends _ _ _ _ _ _ _ _ Hne ltac:(lia) Hch Htok Hmr Hrun)
      as (new' & Hw & Hnew & _).
    apply (f_equal trace) in Hw. cbn in Hw. by apply app_inv_head in Hw as ->.
Qed.

(** C5, as the code has it.  Whatever [batch_request] returns for a
    non-empty list is the JSON body of the last response it received, a
    successful one, handed on as it is: its entries are not compared with
    the ids that were sent. *)
Theorem batch_request_returns_body requests account_id max_retries w v w' :
  requests <> [] ->
  batch_request requests account_id max_retries w = (Returned v, w') ->
  exists new r,
    trace w' = (trace w ++ new)%list
    /\ last (replies new) = Some (Responded r)
    /\ is_success (status_code r) = true
    /\ body r = JsonBody v.
Proof.
  intros Hne. unfold batch_request.
  destruct requests as [|req requests]; [done|].
  destruct (20 <? _); [done|].
  unfold bind at 1, lift.
  destruct (chunked_requests (req :: requests)) as [e|chunked]; cbn; [done|].
  unfold bind at 1.
  destruct (get_token account_id) as [e|token]; cbn; [done|].
  intros Hrun. apply batch_loop_returned in Hrun as (new & r & -> & Hlast & Hok & Hb).
  by exists new, r.
Qed.

(** *** Traces of [request] with the default budget *)

Lemma calls_app t t' : calls (t ++ t') = (calls t ++ calls t')%list.
Proof. unfold calls. apply omap_app. Qed.

Lemma replies_app t t' : replies (t ++ t') = (replies t ++ replies t')%list.
Proof. unfold replies. apply omap_app. Qed.

Lemma yields_app t t' : yields (t ++ t') = (yields t ++ yields t')%list.
Proof. unfold yields. apply omap_app. Qed.

Lemma pages_app t t' : pages (t ++ t') = (pages t ++ pages t')%list.
Proof. unfold pages. rewrite replies_app. apply omap_app. Qed.

Lemma yields_yield items : yields (EvYield <$> items) = items.
Proof. induction items as [|x items IH]; [done|]. unfold yields in *. cbn. by rewrite IH. Qed.

Lemma replies_yield items : replies (EvYield <$> items) = [].
Proof. induction items as [|x items IH]; [done|]. unfold replies in *. by cbn. Qed.

Lemma pages_yield items : pages (EvYield <$> items) = [].
Proof. unfold pages. by rewrite replies_yield. Qed.

(** The pages of one fetch: the body it returned, and nothing else. *)
Lemma fetched_pages c t new v : fetched c t new (Returned v) -> pages new = [v].
Proof.
  intros Hf. remember (Returned v) as o eqn:Ho.
  induction Hf as [t r d new o Hs Hr Hd Hf IH | t r Hs Hok Hb | t e]; [| |done].
  - unfold pages, replies in *. cbn.
    rewrite (retryable_not_success _ Hr). by apply IH.
  - injection Ho as <-. unfold pages, replies. cbn. by rewrite Hok.
Qed.

(** What a run of [request] with a budget that is not negative adds to the
    trace. *)
Lemma request_events method path account_id params json data mr w o w' :
  0 <= mr ->
  request method path account_id params json data mr w = (o, w') ->
  exists new,
    trace w' = (trace w ++ new)%list
    /\ o <> OutOfFuel
    /\ ((new = [] /\ exists e, o = Raised e) \/ exists c, fetched c (trace w) new o).
Proof.
  intros Hmr Hrun.
  apply request_run in Hrun
    as [(e & -> & Ht & _) | (c & w1 & Hp & [(Hneg & _) | (_ & new & -> & Hf & _)])].
  - exists []. rewrite app_nil_r. split; [done|]. split; [done|]. left. eauto.
  - lia.
  - apply prepare_request_trace in Hp as [Ht _].
    exists new. cbn. rewrite Ht. split; [done|]. split; [|eauto].
    intros ->. by eapply fetched_not_out_of_fuel.
Qed.

(** *** The loop that yields the items of a page *)

Lemma yield_items_run limit items n w :
  yield_items limit items n w
  = (Returned (if (yield_count limit items n =? length items)%nat
               then Walked (n + Z.of_nat (length items)) else Stopped),
     extend w (EvYield <$> take (yield_count limit items n) items)).
Proof.
  revert n w. induction items as [|item items IH]; intros n w.
  { cbn. unfold ret. by rewrite extend_nil, Z.add_0_r. }
  cbn [yield_items yield_count].
  destruct (limit_reached limit n).
  { cbn. unfold ret. by rewrite extend_nil. }
  unfold bind, emit. fold (extend w [EvYield item]).
  rewrite IH, extend_extend. cbn [length take fmap list_fmap app].
  change (S (yield_count limit items (n + 1)) =? S (length items))%nat
    with (yield_count limit items (n + 1) =? length items)%nat.
  destruct (_ =? _)%nat; [|done].
  do 3 f_equal. lia.
Qed.

Lemma yield_count_le limit items n : (yield_count limit items n <= length items)%nat.
Proof.
  revert n. induction items as [|item items IH]; intros n; cbn; [lia|].
  destruct (limit_reached limit n); [lia|]. specialize (IH (n + 1)). lia.
Qed.

Lemma yield_count_unlimited limit items n :
  (forall k, limit_reached limit k = false) ->
  yield_count limit items n = length items.
Proof.
  intros Hlim. revert n. induction items as [|item items IH]; intros n; cbn; [done|].
  by rewrite Hlim, IH.
Qed.

Lemma yield_count_limited l items n :
  0 < l -> n <= l ->
  n + Z.of_nat (yield_count (Some l) items n) <= l
  /\ ((yield_count (Some l) items n < length items)%nat ->
      n + Z.of_nat (yield_count (Some l) items n) = l).
Proof.
  intros Hl. revert n. induction items as [|item items IH]; intros n Hn; cbn [yield_count length].
  { split; lia. }
  unfold limit_reached.
  destruct (negb (l =? 0) && (l <=? n)) eqn:Hreached.
  { split; lia. }
  destruct (IH (n + 1)) as [Hle Heq]; [lia|]. split; lia.
Qed.

(** *** [request_paginated] *)

Lemma fetch_page_events path account_id params next_link w o w' :
  fetch_page path account_id params next_link w = (o, w') ->
  exists new,
    trace w' = (trace w ++ new)%list
    /\ o <> OutOfFuel
    /\ yields new = []
    /\ (forall v, o = Returned v -> pages new = [v]).
Proof.
  unfold fetch_page. intros Hrun.
  assert (exists method p ps, request method p account_id ps None None 3 w = (o, w')
                              \/ (w' = w /\ exists e, o = Raised e)) as (m & p & ps & Hreq).
  { destruct (truthy next_link).
    - unfold bind, lift in Hrun. destruct (replace next_link BASE_URL EmptyString) as [e|p]; cbn in Hrun.
      + exists "GET", path, params. right. injection Hrun as <- <-. eauto.
      + exists "GET", p, None. by left.
    - exists "GET", path, params. by left. }
  destruct Hreq as [Hreq | (-> & e & ->)].
  - apply request_events in Hreq as (new & Ht & Hne & Hnew); [|lia].
    exists new. split; [done|]. split; [done|].
    destruct Hnew as [(-> & e & ->) | (c & Hf)]; [done|].
    split; [by eapply fetched_yields|].
    intros v ->. by eapply fetched_pages.
  - exists []. by rewrite app_nil_r.
Qed.

(** One page under a limit [l > 0]: the count never passes [l], and the
    [return] of the limit check is taken exactly at [l]. *)
Lemma page_cycle_limited l result n w o w' :
  0 < l -> n <= l ->
  page_cycle (Some l) result n w = (o, w') ->
  exists ys,
    w' = extend w (EvYield <$> ys)
    /\ n + Z.of_nat (length ys) <= l
    /\ (o = Returned (inl LimitReached) -> n + Z.of_nat (length ys) = l)
    /\ (forall n' next, o = Returned (inr (n', next)) -> n' = n + Z.of_nat (length ys)).
Proof.
  intros Hl Hn. unfold page_cycle.
  destruct (truthy result); cbn.
  2:{ intros [= <- <-]. exists []. rewrite extend_nil. repeat split; try done; cbn; lia. }
  unfold bind at 1, lift.
  destruct (contains "value" result) as [e|has_value]; cbn.
  { intros [= <- <-]. exists []. rewrite extend_nil. repeat split; try done; cbn; lia. }
  assert (forall w0 ys, n + Z.of_nat (length ys) <= l ->
            forall k, k = n + Z.of_nat (length ys) ->
            (let* next_link := lift (get result "@odata.nextLink" PNone) in
             if negb (truthy next_link) then ret (inl NoCursor)
             else ret (inr (k, next_link))) (extend w0 (EvYield <$> ys)) = (o, w') ->
            w0 = w ->
            exists ys,
              w' = extend w (EvYield <$> ys)
              /\ n + Z.of_nat (length ys) <= l
              /\ (o = Returned (inl LimitReached) -> n + Z.of_nat (length ys) = l)
              /\ (forall n' next, o = Returned (inr (n', next)) ->
                    n' = n + Z.of_nat (length ys))) as Htail.
  { intros w0 ys Hys k -> Hrun ->. unfold bind, lift in Hrun.
    destruct (get result "@odata.nextLink" PNone) as [e|next]; cbn in Hrun.
    - injection Hrun as <- <-. exists ys. repeat split; done.
    - destruct (truthy next); cbn in Hrun; injection Hrun as <- <-; exists ys;
        repeat split; try done. by intros n' next' [= <- <-]. }
  destruct has_value.
  - unfold bind at 1 2.
    destruct (getitem result "value") as [e|v]; cbn.
    { intros [= <- <-]. exists []. rewrite extend_nil. repeat split; try done; cbn; lia. }
    unfold bind at 1.
    destruct (iter v) as [e|items]; cbn.
    { intros [= <- <-]. exists []. rewrite extend_nil. repeat split; try done; cbn; lia. }
    rewrite yield_items_run.
    destruct (yield_count_limited l items n Hl Hn) as [Hle Heq].
    pose proof (yield_count_le (Some l) items n) as Hcount.
    destruct (_ =? _)%nat eqn:Hall.
    + apply Nat.eqb_eq in Hall. intros Hrun.
      eapply (Htail w (take (yield_count (Some l) items n) items)); [| |exact Hrun|done];
        rewrite length_take; lia.
    + apply Nat.eqb_neq in Hall. intros [= <- <-].
      exists (take (yield_count (Some l) items n) items).
      rewrite length_take. repeat split; try done; lia.
  - unfold bind at 1. cbn. intros Hrun.
    eapply (Htail w []); [| |rewrite extend_nil; exact Hrun|done]; cbn; lia.
Qed.

Lemma paginate_loop_limited fuel path account_id params l n next_link w o w' :
  0 < l -> n <= l ->
  paginate_loop fuel path account_id params (Some l) n next_link w = (o, w') ->
  exists new,
    trace w' = (trace w ++ new)%list
    /\ n + Z.of_nat (length (yields new)) <= l
    /\ (o = Returned LimitReached -> n + Z.of_nat (length (yields new)) = l).
Proof.
  intros Hl. revert n next_link w.
  induction fuel as [|fuel IH]; intros n next_link w Hn Hrun.
  { injection Hrun as <- <-. exists []. rewrite app_nil_r. repeat split; try done; cbn; lia. }
  cbn [paginate_loop] in Hrun. unfold bind at 1 in Hrun.
  destruct (fetch_page path account_id params next_link w) as [o1 w1] eqn:Hfetch.
  apply fetch_page_events in Hfetch as (new1 & Ht1 & Hne1 & Hy1 & _).
  destruct o1 as [result|e|]; [| |done].
  2:{ injection Hrun as <- <-. exists new1. rewrite Hy1. repeat split; try done; cbn; lia. }
  unfold bind at 1 in Hrun.
  destruct (page_cycle (Some l) result n w1) as [o2 w2] eqn:Hcycle.
  apply page_cycle_limited in Hcycle as (ys & -> & Hle & Hstop & Hnext); [|done..].
  assert (yields (new1 ++ (EvYield <$> ys)) = ys) as Hys.
  { by rewrite yields_app, Hy1, yields_yield. }
  destruct o2 as [[why|[n' next']]|e|].
  - injection Hrun as <- <-. exists (new1 ++ (EvYield <$> ys))%list.
    cbn. rewrite Ht1, Hys, <- app_assoc. repeat split; try done.
    intros [= ->]. by apply Hstop.
  - apply IH in Hrun as (new2 & Ht2 & Hle2 & Hstop2).
    2:{ rewrite (Hnext n' next' eq_refl). lia. }
    exists (new1 ++ (EvYield <$> ys) ++ new2)%list.
    rewrite Ht2. cbn. rewrite Ht1, <- !app_assoc. split; [done|].
    rewrite app_assoc, yields_app, Hys, length_app.
    rewrite (Hnext n' next' eq_refl) in Hle2, Hstop2. split; [lia|].
    intros Ho. specialize (Hstop2 Ho). lia.
  - injection Hrun as <- <-. exists (new1 ++ (EvYield <$> ys))%list.
    cbn. rewrite Ht1, Hys, <- app_assoc. repeat split; done.
  - injection Hrun as <- <-. exists (new1 ++ (EvYield <$> ys))%list.
    cbn. rewrite Ht1, Hys, <- app_assoc. repeat split; done.
Qed.

(** Two limits that agree on every limit check give the same run. *)
Lemma yield_items_same_checks limit limit' items n w :
  (forall k, limit_reached limit k = limit_reached limit' k) ->
  yield_items limit items n w = yield_items limit' items n w.
Proof.
  intros Hsame. revert n w. induction items as [|item items IH]; intros n w; [done|].
  cbn. rewrite Hsame. destruct (limit_reached limit' n); [done|].
  unfold bind. cbn. apply IH.
Qed.

Lemma bind_congr {A B} (m m' : M A) (k k' : A -> M B) w :
  m w = m' w -> (forall a w1, k a w1 = k' a w1) -> bind m k w = bind m' k' w.
Proof.
  intros Hm Hk. unfold bind. rewrite Hm.
  destruct (m' w) as [[a|e|] w1]; [apply Hk | done | done].
Qed.

Lemma page_cycle_same_checks limit limit' result n w :
  (forall k, limit_reached limit k = limit_reached limit' k) ->
  page_cycle limit result n w = page_cycle limit' result n w.
Proof.
  intros Hsame. unfold page_cycle. destruct (truthy result); cbn; [|done].
  apply bind_congr; [done|]. intros has_value w1.
  apply bind_congr; [|done].
  destruct has_value; [|done].
  apply bind_congr; [done|]. intros v w2.
  apply bind_congr; [done|]. intros items w3.
  by apply yield_items_same_checks.
Qed.

Lemma paginate_loop_same_checks fuel path account_id params limit limit' n next_link w :
  (forall k, limit_reached limit k = limit_reached limit' k) ->
  paginate_loop fuel path account_id params limit n next_link w
  = paginate_loop fuel path account_id params limit' n next_link w.
Proof.
  intros Hsame. revert n next_link w.
  induction fuel as [|fuel IH]; intros n next_link w; [done|].
  cbn [paginate_loop].
  apply bind_congr; [done|]. intros result w1.
  apply bind_congr; [by apply page_cycle_same_checks|]. intros [why|[n' next']] w2; [done|].
  apply IH.
Qed.

Lemma falsy_page result :
  truthy result = false -> page_items result = [] /\ leads_on result = false.
Proof.
  intros Hfalsy. unfold leads_on. rewrite Hfalsy. split; [|done].
  unfold page_items.
  destruct result as [|b|z|m e|s|l|d]; cbn in *; try done.
  - apply negb_false_iff, String.eqb_eq in Hfalsy as ->. done.
  - destruct l; done.
  - apply negb_false_iff, bool_decide_eq_true in Hfalsy as ->.
    rewrite lookup_empty. done.
Qed.

(** One page when no limit check is ever taken: all its items are yielded. *)
Lemma page_cycle_unlimited limit result n w x w' :
  (forall k, limit_reached limit k = false) ->
  page_cycle limit result n w = (Returned x, w') ->
  w' = extend w (EvYield <$> page_items result)
  /\ match x with
     | inl why => why <> LimitReached /\ leads_on result = false
     | inr _ => leads_on result = true
     end.
Proof.
  intros Hlim. unfold page_cycle.
  destruct (truthy result) eqn:Htruthy; cbn.
  2:{ intros [= <- <-]. destruct (falsy_page result Htruthy) as [-> Hl].
      cbn. by rewrite extend_nil. }
  unfold page_items, leads_on. rewrite Htruthy. cbn.
  unfold bind at 1, lift.
  destruct (contains "value" result) as [e|has_value]; cbn; [done|].
  assert (forall items k,
            (let* next_link := lift (get result "@odata.nextLink" PNone) in
             if negb (truthy next_link) then ret (inl NoCursor)
             else ret (inr (k, next_link))) (extend w (EvYield <$> items)) = (Returned x, w') ->
            w' = extend w (EvYield <$> items)
            /\ match x with
               | inl why =>
                   why <> LimitReached
                   /\ match get result "@odata.nextLink" PNone with
                      | inr next_link => truthy next_link
                      | inl _ => false
                      end = false
               | inr _ =>
                   match get result "@odata.nextLink" PNone with
                   | inr next_link => truthy next_link
                   | inl _ => false
                   end = true
               end) as Htail.
  { intros items k. unfold bind, lift.
    destruct (get result "@odata.nextLink" PNone) as [e|next]; cbn; [done|].
    destruct (truthy next); cbn; by intros [= <- <-]. }
  destruct has_value.
  - unfold bind at 1 2.
    destruct (getitem result "value") as [e|v]; cbn; [done|].
    unfold bind at 1.
    destruct (iter v) as [e|items]; cbn; [done|].
    rewrite yield_items_run, (yield_count_unlimited limit items n Hlim).
    rewrite Nat.eqb_refl, firstn_all. apply Htail.
  - unfold bind at 1. cbn. intros Hrun. apply (Htail [] n). by rewrite extend_nil.
Qed.

Lemma paginate_loop_unlimited fuel path account_id params limit n next_link w why w' :
  (forall k, limit_reached limit k = false) ->
  paginate_loop fuel path account_id params limit n next_link w = (Returned why, w') ->
  exists new ps p,
    trace w' = (trace w ++ new)%list
    /\ why <> LimitReached
    /\ pages new = (ps ++ [p])%list
    /\ Forall (fun page => leads_on page = true) ps
    /\ leads_on p = false
    /\ yields new = concat (page_items <$> pages new).
Proof.
  intros Hlim. revert n next_link w.
  induction fuel as [|fuel IH]; intros n next_link w Hrun; [done|].
  cbn [paginate_loop] in Hrun. unfold bind at 1 in Hrun.
  destruct (fetch_page path account_id params next_link w) as [o1 w1] eqn:Hfetch.
  apply fetch_page_events in Hfetch as (new1 & Ht1 & Hne1 & Hy1 & Hp1).
  destruct o1 as [result|e|]; [|done..].
  specialize (Hp1 result eq_refl).
  unfold bind at 1 in Hrun.
  destruct (page_cycle limit result n w1) as [[x|e|] w2] eqn:Hcycle; [|done..].
  apply page_cycle_unlimited in Hcycle as [-> Hx]; [|done].
  destruct x as [why'|[n' next']].
  - injection Hrun as <- <-. destruct Hx as [Hwhy Hlast].
    exists (new1 ++ (EvYield <$> page_items result))%list, [], result.
    cbn. rewrite Ht1, <- app_assoc. split; [done|]. split; [done|].
    rewrite pages_app, pages_yield, app_nil_r, Hp1. split; [done|].
    split; [constructor|]. split; [done|].
    rewrite yields_app, Hy1, yields_yield. cbn. by rewrite app_nil_r.
  - apply IH in Hrun as (new2 & ps & p & Ht2 & Hwhy & Hp2 & Hps & Hlast & Hy2).
    exists (new1 ++ (EvYield <$> page_items result) ++ new2)%list, (result :: ps), p.
    rewrite Ht2. cbn. rewrite Ht1, <- !app_assoc. split; [done|]. split; [done|].
    rewrite !pages_app, pages_yield, Hp1. cbn. rewrite Hp2. split; [done|].
    split; [by constructor|]. split; [done|].
    rewrite !yields_app, Hy1, yields_yield, Hy2, Hp2. done.
Qed.

(** *** [search_query] *)

Lemma only_yields_ret {A} (a : A) : only_yields (ret a).
Proof. intros w o w' [= <- <-]. exists []. by rewrite extend_nil. Qed.

Lemma only_yields_lift {A} (r : exn + A) : only_yields (lift r).
Proof. destruct r; intros w o w' [= <- <-]; exists []; by rewrite extend_nil. Qed.

Lemma only_yields_emit item : only_yields (emit (EvYield item)).
Proof. intros w o w' [= <- <-]. by exists [item]. Qed.

Lemma only_yields_bind {A B} (m : M A) (k : A -> M B) :
  only_yields m -> (forall a, only_yields (k a)) -> only_yields (bind m k).
Proof.
  intros Hm Hk w o w'. unfold bind.
  destruct (m w) as [o1 w1] eqn:Hm1.
  apply Hm in Hm1 as (ys & -> & Hne).
  destruct o1 as [a|e|]; [| |done].
  - intros Hk1. apply Hk in Hk1 as (ys' & -> & Hne').
    exists (ys ++ ys')%list. by rewrite extend_extend, fmap_app.
  - intros [= <- <-]. by exists ys.
Qed.

Lemma yield_hits_only_yields limit hits n : only_yields (yield_hits limit hits n).
Proof.
  revert n. induction hits as [|hit hits IH]; intros n; cbn [yield_hits].
  { apply only_yields_ret. }
  destruct (limit_reached (Some limit) n); [apply only_yields_ret|].
  apply only_yields_bind; [apply only_yields_lift|]. intros resource.
  apply only_yields_bind; [apply only_yields_emit|]. intros _. apply IH.
Qed.

Lemma walk_containers_only_yields limit containers n :
  only_yields (walk_containers limit containers n).
Proof.
  revert n. induction containers as [|container containers IH]; intros n; cbn.
  { apply only_yields_ret. }
  apply only_yields_bind; [apply only_yields_lift|]. intros has_hits.
  apply only_yields_bind.
  - destruct has_hits; [|apply only_yields_ret].
    apply only_yields_bind; [apply only_yields_lift|]. intros h.
    apply only_yields_bind; [apply only_yields_lift|]. intros hits.
    apply yield_hits_only_yields.
  - intros [|n']; [apply only_yields_ret | apply IH].
Qed.

Lemma walk_responses_only_yields limit responses n :
  only_yields (walk_responses limit responses n).
Proof.
  revert n. induction responses as [|response responses IH]; intros n; cbn.
  { apply only_yields_ret. }
  apply only_yields_bind; [apply only_yields_lift|]. intros has_containers.
  apply only_yields_bind.
  - destruct has_containers; [|apply only_yields_ret].
    apply only_yields_bind; [apply only_yields_lift|]. intros c.
    apply only_yields_bind; [apply only_yields_lift|]. intros containers.
    apply walk_containers_only_yields.
  - intros [|n']; [apply only_yields_ret | apply IH].
Qed.

Lemma search_cycle_only_yields limit result n : only_yields (search_cycle limit result n).
Proof.
  unfold search_cycle. destruct (negb (truthy result)); [apply only_yields_ret|].
  apply only_yields_bind; [apply only_yields_lift|]. intros has_value.
  destruct (negb has_value); [apply only_yields_ret|].
  apply only_yields_bind; [apply only_yields_lift|]. intros v.
  apply only_yields_bind; [apply only_yields_lift|]. intros responses.
  apply only_yields_bind; [apply walk_responses_only_yields|].
  intros [|n']; [apply only_yields_ret|].
  apply only_yields_bind; [apply only_yields_lift|]. intros cursor.
  destruct cursor; [apply only_yields_ret|].
  apply only_yields_bind; [apply only_yields_lift|]. intros v'.
  apply only_yields_bind; [apply only_yields_lift|]. intros responses'.
  apply only_yields_bind; [apply only_yields_lift|]. intros has_more.
  destruct (negb has_more); apply only_yields_ret.
Qed.

(** A result that carries the cursor key ends the generator, whatever its
    hit containers report. *)
Lemma search_cycle_cursor limit result n w o w' :
  contains "@odata.nextLink" result = inr true ->
  search_cycle limit result n w = (o, w') ->
  forall n', o <> Returned (inr n').
Proof.
  intros Hcursor. unfold search_cycle.
  destruct (negb (truthy result)); [by intros [= <- <-]|].
  unfold bind at 1. destruct (lift (contains "value" result) w) as [[has_value|e|] w1];
    [|by intros [= <- <-]..].
  destruct (negb has_value); [by intros [= <- <-]|].
  unfold bind at 1. destruct (lift (getitem result "value") w1) as [[v|e|] w2];
    [|by intros [= <- <-]..].
  unfold bind at 1. destruct (lift (iter v) w2) as [[responses|e|] w3];
    [|by intros [= <- <-]..].
  unfold bind at 1. destruct (walk_responses limit responses n w3) as [[[|n1]|e|] w4];
    [by intros [= <- <-]| |by intros [= <- <-]..].
  rewrite Hcursor. unfold bind, lift, ret. by intros [= <- <-].
Qed.

(** With a limit of [0] the [return] of the limit check is never taken. *)
Lemma never_stops_bind {A} (m : M A) (k : A -> M walk) w w' :
  (forall a w1, k a w1 <> (Returned Stopped, w')) ->
  bind m k w <> (Returned Stopped, w').
Proof.
  intros Hk. unfold bind. destruct (m w) as [[a|e|] w1]; [apply Hk | done | done].
Qed.

Lemma never_stops_bind_walk (m : M walk) (k : walk -> M walk) w w' :
  (forall w0 w1, m w0 <> (Returned Stopped, w1)) ->
  (forall n w1, k (Walked n) w1 <> (Returned Stopped, w')) ->
  bind m k w <> (Returned Stopped, w').
Proof.
  intros Hm Hk. unfold bind. destruct (m w) as [[[|n]|e|] w1] eqn:Hmw;
    [by apply Hm in Hmw | apply Hk | done | done].
Qed.

Lemma yield_hits_no_limit hits n w w' :
  yield_hits 0 hits n w <> (Returned Stopped, w').
Proof.
  revert n w. induction hits as [|hit hits IH]; intros n w; cbn; [done|].
  apply never_stops_bind. intros resource w1.
  apply never_stops_bind. intros _ w2. apply IH.
Qed.

Lemma walk_containers_no_limit containers n w w' :
  walk_containers 0 containers n w <> (Returned Stopped, w').
Proof.
  revert n w. induction containers as [|container containers IH]; intros n w; cbn; [done|].
  apply never_stops_bind. intros has_hits w1.
  apply never_stops_bind_walk; [|intros n' w2; apply IH].
  intros w0 w2. destruct has_hits; [|done].
  apply never_stops_bind. intros h w3.
  apply never_stops_bind. intros hits w4.
  apply yield_hits_no_limit.
Qed.

Lemma walk_responses_no_limit responses n w w' :
  walk_responses 0 responses n w <> (Returned Stopped, w').
Proof.
  revert n w. induction responses as [|response responses IH]; intros n w; cbn; [done|].
  apply never_stops_bind. intros has_containers w1.
  apply never_stops_bind_walk; [|intros n' w2; apply IH].
  intros w0 w2. destruct has_containers; [|done].
  apply never_stops_bind. intros c w3.
  apply never_stops_bind. intros containers w4.
  apply walk_containers_no_limit.
Qed.

Lemma search_cycle_no_limit result n w w' :
  search_cycle 0 result n w <> (Returned (inl LimitReached), w').
Proof.
  unfold search_cycle.
  destruct (negb (truthy result)); [done|].
  unfold bind at 1. destruct (lift (contains "value" result) w) as [[has_value|e|] w1]; [|done..].
  destruct (negb has_value); [done|].
  unfold bind at 1. destruct (lift (getitem result "value") w1) as [[v|e|] w2]; [|done..].
  unfold bind at 1. destruct (lift (iter v) w2) as [[responses|e|] w3]; [|done..].
  unfold bind at 1.
  destruct (walk_responses 0 responses n w3) as [[[|n1]|e|] w4] eqn:Hwalk; [|clear Hwalk|done..].
  { by apply walk_responses_no_limit in Hwalk. }
  unfold bind at 1.
  destruct (lift (contains "@odata.nextLink" result) w4) as [[[]|e|] w5]; [done| |done..].
  unfold bind at 1. destruct (lift (get result "value" (PList [])) w5) as [[v'|e|] w6]; [|done..].
  unfold bind at 1. destruct (lift (iter v') w6) as [[responses'|e|] w7]; [|done..].
  unfold bind at 1.
  destruct (lift (has_more_results responses' false) w7) as [[[]|e|] w8]; done.
Qed.

(** *** Responses that carry a cursor *)

Lemma yields_are_yields items : Forall (fun e => is_yield e = true) (EvYield <$> items).
Proof. apply Forall_fmap, Forall_true. done. Qed.

Lemma yields_no_cursor items : no_cursor (EvYield <$> items).
Proof. apply Forall_fmap, Forall_true. done. Qed.

Lemma no_cursor_final t : no_cursor t -> cursor_final t.
Proof.
  induction 1 as [|e t He _ IH]; [done|]. cbn. split; [|done]. by rewrite He.
Qed.

Lemma cursor_final_app_l t t' : no_cursor t -> cursor_final t' -> cursor_final (t ++ t').
Proof.
  intros Hno Hfin. induction Hno as [|e t He _ IH]; [done|].
  cbn. split; [|done]. by rewrite He.
Qed.

Lemma cursor_final_app_r t t' :
  cursor_final t -> Forall (fun e => is_yield e = true) t' -> cursor_final (t ++ t').
Proof.
  intros Hfin Hys. induction t as [|e t IH]; cbn.
  - apply no_cursor_final. eapply Forall_impl; [exact Hys|]. by intros [].
  - destruct Hfin as [He Hfin]. split; [|by apply IH].
    intros Hc. apply Forall_app. by split; [apply He|].
Qed.

Lemma cursor_final_split pre e post :
  cursor_final (pre ++ e :: post) -> carries_cursor e = true ->
  Forall (fun e' => is_yield e' = true) post.
Proof.
  induction pre as [|e0 pre IH]; cbn; intros [He Hfin] Hc; [by apply He | by apply IH].
Qed.

Lemma fetched_cursor_final c t new o : fetched c t new o -> cursor_final new.
Proof.
  induction 1 as [t r d new o Hs Hr Hd _ IH | t r Hs Hok Hb | t e]; cbn.
  - rewrite (retryable_not_success _ Hr). cbn. done.
  - done.
  - done.
Qed.

Lemma fetched_no_cursor c t new v :
  fetched c t new (Returned v) ->
  contains "@odata.nextLink" v <> inr true ->
  no_cursor new.
Proof.
  intros Hf Hv. remember (Returned v) as o eqn:Ho.
  induction Hf as [t r d new o Hs Hr Hd _ IH | t r Hs Hok Hb | t e]; [| |done].
  - constructor; [|constructor; [done | by apply IH]].
    cbn. by rewrite (retryable_not_success _ Hr).
  - injection Ho as <-. constructor; [|constructor].
    cbn. rewrite Hok. cbn.
    destruct (contains "@odata.nextLink" (body_value r)) as [|[]]; done.
Qed.

Lemma search_loop_run fuel query entity_types account_id limit fields size from n w o w' :
  search_loop fuel query entity_types account_id limit fields size from n w = (o, w') ->
  exists new,
    trace w' = (trace w ++ new)%list
    /\ cursor_final new
    /\ (o = OutOfFuel -> no_cursor new)
    /\ (limit = 0 -> o <> Returned LimitReached).
Proof.
  revert from n w. induction fuel as [|fuel IH]; intros from n w Hrun.
  { injection Hrun as <- <-. exists []. rewrite app_nil_r. repeat split; try done. constructor. }
  cbn [search_loop] in Hrun. unfold bind at 1 in Hrun.
  destruct (request _ _ _ _ _ _ _ w) as [o1 w1] eqn:Hreq.
  apply request_events in Hreq as (new1 & Ht1 & Hne1 & Hnew1); [|lia].
  assert (cursor_final new1) as Hfin1.
  { destruct Hnew1 as [(-> & _) | (c & Hf)]; [done | by eapply fetched_cursor_final]. }
  destruct o1 as [result|e|]; [| |done].
  2:{ injection Hrun as <- <-. exists new1. repeat split; done. }
  destruct Hnew1 as [(_ & e & [=]) | (c & Hf)].
  unfold bind at 1 in Hrun.
  destruct (search_cycle limit result n w1) as [o2 w2] eqn:Hcycle.
  destruct (search_cycle_only_yields _ _ _ _ _ _ Hcycle) as (ys & -> & Hne2).
  assert (cursor_final (new1 ++ (EvYield <$> ys))) as Hfin.
  { apply cursor_final_app_r; [done | apply yields_are_yields]. }
  destruct o2 as [[why|n']|e|]; [| | |done].
  - injection Hrun as <- <-. exists (new1 ++ (EvYield <$> ys))%list.
    cbn. rewrite Ht1, <- app_assoc. repeat split; try done.
    intros -> [= ->]. by apply search_cycle_no_limit in Hcycle.
  - assert (no_cursor (new1 ++ (EvYield <$> ys))) as Hno.
    { apply Forall_app. split; [|apply yields_no_cursor].
      eapply fetched_no_cursor; [exact Hf|].
      intros Hcursor. by eapply search_cycle_cursor in Hcycle. }
    apply IH in Hrun as (new2 & Ht2 & Hfin2 & Hout2 & Hlim2).
    exists ((new1 ++ (EvYield <$> ys)) ++ new2)%list.
    rewrite Ht2. cbn. rewrite Ht1, <- !app_assoc. split; [done|].
    rewrite app_assoc. split; [by apply cursor_final_app_l|].
    split; [|done]. intros Ho. apply Forall_app. split; [done | by apply Hout2].
  - injection Hrun as <- <-. exists (new1 ++ (EvYield <$> ys))%list.
    cbn. rewrite Ht1, <- app_assoc. repeat split; done.
Qed.


(** *** A source of two pages *)

Lemma request_loop_success c fuel w r v :
  server (trace w) c = Responded r ->
  is_success (status_code r) = true ->
  body r = JsonBody v ->
  request_loop (S fuel) c 3 0 w = (Returned v, extend w [EvHttp c (Responded r)]).
Proof.
  intros Hs Hok Hb. cbn [request_loop]. change (0 <=? 3) with true. cbn match.
  unfold bind at 1, request_attempt, catch_status, bind at 1, client_send.
  rewrite Hs. fold (extend w [EvHttp c (Responded r)]).
  unfold is_success in Hok.
  unfold bind at 1, throttled. replace (status_code r =? 429) with false by lia.
  unfold ret at 1. cbn match.
  replace ((500 <=? status_code r) && (0 <? 3)) with false by lia.
  unfold bind, raise_for_status, is_success, has_content, response_json, ret.
  replace ((200 <=? status_code r) && (status_code r <=? 299)) with true by lia.
  by rewrite Hb.
Qed.

Lemma prepare_request_token method path account_id params json data w c w1 :
  prepare_request method path account_id params json data w = (Returned c, w1) ->
  exists token, get_token account_id = inr token.
Proof.
  unfold prepare_request, bind at 1, lift.
  destruct (get_token account_id) as [e|token]; [done | by exists token].
Qed.

Lemma prepare_request_bare path account_id token w :
  get_token account_id = inr token ->
  exists c, prepare_request "GET" path account_id None None None w = (Returned c, w).
Proof.
  intros Ht. unfold prepare_request, bind, lift. rewrite Ht. cbn. by eexists.
Qed.

Lemma request_prepared_success method path account_id params json data w c w1 r v :
  prepare_request method path account_id params json data w = (Returned c, w1) ->
  server (trace w) c = Responded r ->
  is_success (status_code r) = true ->
  body r = JsonBody v ->
  request method path account_id params json data 3 w
  = (Returned v, extend w1 [EvHttp c (Responded r)]).
Proof.
  intros Hp Hs Hok Hb. unfold request, bind. rewrite Hp.
  apply request_loop_success; [|done..].
  apply prepare_request_trace in Hp as [-> _]. done.
Qed.

Lemma truthy_dict_with (d : dict) key v : d !! key = Some v -> truthy (PDict d) = true.
Proof.
  intros Hk. cbn. apply negb_true_iff, bool_decide_eq_false.
  intros ->. by rewrite lookup_empty in Hk.
Qed.

(** A page whose items run into the limit. *)
Lemma page_cycle_stop limit (d : dict) items n w :
  d !! "value" = Some (PList items) ->
  (yield_count limit items n < length items)%nat ->
  page_cycle limit (PDict d) n w
  = (Returned (inl LimitReached),
     extend w (EvYield <$> take (yield_count limit items n) items)).
Proof.
  intros Hv Hcount. unfold page_cycle.
  rewrite (truthy_dict_with d _ _ Hv). cbn [negb].
  assert (contains "value" (PDict d) = inr true) as ->.
  { cbn. by rewrite Hv, bool_decide_eq_true_2. }
  assert (getitem (PDict d) "value" = inr (PList items)) as -> by (cbn; by rewrite Hv).
  unfold bind, lift, ret. cbn [iter]. cbv beta iota.
  rewrite yield_items_run.
  apply Nat.lt_neq, Nat.eqb_neq in Hcount. by rewrite Hcount.
Qed.

(** A page whose items all pass, and that has a cursor. *)
Lemma page_cycle_next limit (d : dict) items n w next_link :
  d !! "value" = Some (PList items) ->
  yield_count limit items n = length items ->
  d !! "@odata.nextLink" = Some next_link ->
  truthy next_link = true ->
  page_cycle limit (PDict d) n w
  = (Returned (inr (n + Z.of_nat (length items), next_link)),
     extend w (EvYield <$> items)).
Proof.
  intros Hv Hcount Hl Hnext. unfold page_cycle.
  rewrite (truthy_dict_with d _ _ Hv). cbn [negb].
  assert (contains "value" (PDict d) = inr true) as ->.
  { cbn. by rewrite Hv, bool_decide_eq_true_2. }
  assert (getitem (PDict d) "value" = inr (PList items)) as -> by (cbn; by rewrite Hv).
  assert (get (PDict d) "@odata.nextLink" PNone = inr next_link) as -> by (cbn; by rewrite Hl).
  unfold bind, lift, ret. cbn [iter]. cbv beta iota.
  rewrite yield_items_run, Hcount, Nat.eqb_refl, firstn_all. cbv beta iota.
  by rewrite Hnext.
Qed.

(** C7. With a limit of 3, a first page of two items and a cursor, and a
    second page of five items, [request_paginated] yields the two items of
    the first page and the first item of the second, after two calls, and
    ends on the limit check.  For every positive limit and every run, the
    number of items yielded never passes the limit, and the run that ends
    on the limit check has yielded exactly that many. *)
Theorem request_paginated_limit :
  (forall path account_id params w c1 w1 r1 r2 (d1 d2 : dict) a b link i1 i2 i3 i4 i5 fuel,
     prepare_request "GET" path account_id params None None w = (Returned c1, w1) ->
     server (trace w) c1 = Responded r1 ->
     is_success (status_code r1) = true ->
     body r1 = JsonBody (PDict d1) ->
     d1 !! "value" = Some (PList [a; b]) ->
     d1 !! "@odata.nextLink" = Some (PStr link) ->
     link <> EmptyString ->
     (forall c2, server (trace w ++ [EvHttp c1 (Responded r1); EvYield a; EvYield b]) c2
                 = Responded r2) ->
     is_success (status_code r2) = true ->
     body r2 = JsonBody (PDict d2) ->
     d2 !! "value" = Some (PList [i1; i2; i3; i4; i5]) ->
     (2 <= fuel)%nat ->
     exists c2,
       request_paginated fuel path account_id params (Some 3) w
       = (Returned LimitReached,
          extend w1 [EvHttp c1 (Responded r1); EvYield a; EvYield b;
                     EvHttp c2 (Responded r2); EvYield i1]))
  /\ (forall fuel path account_id params l w o w',
        0 < l ->
        request_paginated fuel path account_id params (Some l) w = (o, w') ->
        exists new,
          trace w' = (trace w ++ new)%list
          /\ Z.of_nat (length (yields new)) <= l
          /\ (o = Returned LimitReached -> Z.of_nat (length (yields new)) = l)).
Proof.
  split.
  - intros path account_id params w c1 w1 r1 r2 d1 d2 a b link i1 i2 i3 i4 i5 fuel
      Hp Hs1 Hok1 Hb1 Hv1 Hl1 Hlink Hs2 Hok2 Hb2 Hv2 Hfuel.
    destruct fuel as [|[|fuel]]; [lia..|].
    destruct (prepare_request_token _ _ _ _ _ _ _ _ _ Hp) as [token Htok].
    pose proof (prepare_request_trace _ _ _ _ _ _ _ _ _ Hp) as [Ht1 _].
    assert (truthy (PStr link) = true) as Htruthy.
    { cbn. apply negb_true_iff. by apply String.eqb_neq. }
    set (w2 := extend w1 [EvHttp c1 (Responded r1); EvYield a; EvYield b]).
    destruct (prepare_request_bare (str_replace BASE_URL EmptyString link) account_id token w2 Htok)
      as [c2 Hp2].
    assert (server (trace w2) c2 = Responded r2) as Hs2'.
    { unfold w2. cbn. rewrite Ht1. apply Hs2. }
    exists c2. unfold request_paginated. cbn [paginate_loop].
    unfold bind at 1, fetch_page. cbn [truthy].
    rewrite (request_prepared_success _ _ _ _ _ _ _ _ _ _ _ Hp Hs1 Hok1 Hb1).
    unfold bind at 1.
    rewrite (page_cycle_next (Some 3) d1 [a; b] 0 _ (PStr link) Hv1 eq_refl Hl1 Htruthy).
    rewrite extend_extend. cbn [fmap list_fmap app length]. fold w2.
    unfold bind at 1, fetch_page. rewrite Htruthy.
    unfold bind at 1, lift, replace, ret at 1.
    rewrite (request_prepared_success _ _ _ _ _ _ _ _ _ _ _ Hp2 Hs2' Hok2 Hb2).
    unfold bind at 1.
    rewrite (page_cycle_stop (Some 3) d2 [i1; i2; i3; i4; i5] _ _ Hv2)
      by (vm_compute; lia).
    match goal with
    | |- context [yield_count ?lim ?items ?n] => change (yield_count lim items n) with 1%nat
    end.
    unfold w2. rewrite !extend_extend. done.
  - intros fuel path account_id params l w o w' Hl Hrun.
    apply paginate_loop_limited in Hrun as (new & Ht & Hle & Hstop); [|lia..].
    exists new. split; [done|]. split; [lia|]. intros Ho. specialize (Hstop Ho). lia.
Qed.

(** C10. A limit of [0] is no limit.  [request_paginated] with a limit of
    [0] runs exactly as it does without a limit; when it ends, it has not
    ended on the limit check, every page but the last had a cursor, the
    last had none (or was empty), and every item of every page was yielded.
    [search_query] with a limit of [0] never ends on the limit check, which
    is false at every count. *)
Theorem limit_zero_is_no_limit :
  (forall fuel path account_id params w,
     request_paginated fuel path account_id params (Some 0) w
     = request_paginated fuel path account_id params None w)
  /\ (forall fuel path account_id params w why w',
        request_paginated fuel path account_id params (Some 0) w = (Returned why, w') ->
        exists new ps p,
          trace w' = (trace w ++ new)%list
          /\ why <> LimitReached
          /\ pages new = (ps ++ [p])%list
          /\ Forall (fun page => leads_on page = true) ps
          /\ leads_on p = false
          /\ yields new = concat (page_items <$> pages new))
  /\ (forall fuel query entity_types account_id fields w o w',
        search_query fuel query entity_types account_id 0 fields w = (o, w') ->
        o <> Returned LimitReached)
  /\ (forall items_returned, limit_reached (Some 0) items_returned = false).
Proof.
  split; [|split; [|split]].
  - intros. by apply paginate_loop_same_checks.
  - intros fuel path account_id params w why w' Hrun.
    by apply paginate_loop_unlimited in Hrun.
  - intros fuel query entity_types account_id fields w o w' Hrun.
    apply search_loop_run in Hrun as (new & _ & _ & _ & Hlim). by apply Hlim.
  - done.
Qed.

(** *** The retry loop of one chunk *)

Lemma chunk_attempt_cases c rc w o w1 :
  chunk_attempt c rc w = (o, w1) ->
  (exists d, rc < 3 /\ o = Returned (Again (rc + 1))
             /\ w1 = extend w [EvHttp c (server (trace w) c); EvSleep d])
  \/ (w1 = extend w [EvHttp c (server (trace w) c)]
      /\ o <> OutOfFuel /\ forall rc', o <> Returned (Again rc')).
Proof.
  unfold chunk_attempt, catch_status, bind at 1, client_send.
  destruct (server (trace w) c) as [r|] eqn:Hs.
  2:{ cbn. intros [= <- <-]. by right. }
  fold (extend w [EvHttp c (Responded r)]). unfold bind at 1.
  destruct (throttled_cases r 3 rc (extend w [EvHttp c (Responded r)]))
    as [(d & -> & H429 & Hlt & Hd) | [(-> & Hno) | (e & -> & H429)]]; cbn.
  - intros [= <- <-]. left. exists d. by rewrite extend_extend.
  - unfold bind, raise_for_status.
    destruct (is_success (status_code r)) eqn:Eok; cbn.
    + destruct ((status_code r =? 200) || (status_code r =? 201)).
      * unfold response_json. destruct (body r); cbn; intros [= <- <-]; by right.
      * intros [= <- <-]. by right.
    + unfold on_status_error.
      destruct ((rc <? 3) && (500 <=? status_code r)) eqn:E5.
      * assert (0 <= 2 ^ rc * 1) by (pose proof (Z.pow_nonneg 2 rc); lia).
        unfold bind. rewrite sleep_nonneg by done. cbn.
        intros [= <- <-]. left. eexists. rewrite extend_extend. split; [lia | done].
      * intros [= <- <-]. by right.
  - intros [= <- <-]. by right.
Qed.

(** A response that is a success, but neither 200 nor 201, leaves the loop
    of its chunk. *)
Lemma chunk_attempt_acknowledged c rc w r :
  server (trace w) c = Responded r ->
  is_success (status_code r) = true ->
  status_code r <> 200 -> status_code r <> 201 ->
  chunk_attempt c rc w = (Returned Break, extend w [EvHttp c (Responded r)]).
Proof.
  intros Hs Hok H200 H201.
  unfold chunk_attempt, catch_status, bind at 1, client_send. rewrite Hs.
  fold (extend w [EvHttp c (Responded r)]).
  unfold bind at 1, throttled. unfold is_success in Hok.
  replace (status_code r =? 429) with false by lia. unfold ret at 1. cbn match.
  unfold bind, raise_for_status, is_success, ret.
  replace ((200 <=? status_code r) && (status_code r <=? 299)) with true by lia.
  by replace ((status_code r =? 200) || (status_code r =? 201)) with false by lia.
Qed.

Lemma chunk_loop_run fuel c rc w o w' :
  (Z.to_nat (4 - rc) <= fuel)%nat ->
  0 <= rc <= 3 ->
  chunk_loop fuel c rc w = (o, w') ->
  exists new (retries : nat),
    w' = extend w new
    /\ calls new = replicate (S retries) c
    /\ Z.of_nat retries <= 3 - rc
    /\ o <> OutOfFuel.
Proof.
  revert rc w. induction fuel as [|fuel IH]; intros rc w Hfuel Hrc Hrun; [lia|].
  cbn [chunk_loop] in Hrun. replace (rc <=? 3) with true in Hrun by lia.
  unfold bind in Hrun.
  destruct (chunk_attempt c rc w) as [o1 w1] eqn:Ha.
  apply chunk_attempt_cases in Ha as [(d & Hlt & -> & ->) | (-> & Hne & Hagain)].
  - apply IH in Hrun as (new & retries & -> & Hcalls & Hretries & Hout); [| lia | lia].
    exists (EvHttp c (server (trace w) c) :: EvSleep d :: new), (S retries).
    rewrite extend_extend. split; [done|]. split; [|split; [lia | done]].
    unfold calls in *. cbn. by rewrite Hcalls.
  - exists [EvHttp c (server (trace w) c)], 0%nat.
    destruct o1 as [[rc'| |v]|e|]; [by specialize (Hagain rc')| | | |done];
      injection Hrun as <- <-;
      (split; [done|]); (split; [done|]); (split; [lia | done]).
Qed.

(** *** The chunks of an upload *)

(** The answer to a chunk that is not the last one leaves the loop of the
    chunk after one call. *)
Lemma chunk_loop_acknowledged c w :
  acknowledged (server (trace w) c) ->
  chunk_loop 4 c 0 w = (Returned None, extend w [EvHttp c (server (trace w) c)]).
Proof.
  intros (r & Hs & Hok & H200 & H201).
  cbn [chunk_loop]. change (0 <=? 3) with true. cbn match.
  unfold bind. rewrite (chunk_attempt_acknowledged c 0 w r Hs Hok H200 H201).
  by rewrite Hs.
Qed.

(** The calls of an upload follow a schedule over a leading part of the
    starts; when the calls before those of the last chunk are acknowledged,
    the schedule reaches every start. *)
Lemma upload_chunks_run upload_url data headers file_size starts w o w' :
  upload_chunks upload_url data headers file_size starts w = (o, w') ->
  exists new sched,
    w' = extend w new
    /\ sched.*1 `prefix_of` starts
    /\ Forall (fun p : Z * nat => (p.2 <= 3)%nat) sched
    /\ calls new = attempts (chunk_call upload_url data headers file_size) sched
    /\ o <> OutOfFuel
    /\ ((forall t c,
           (S (length (calls t)) < length (calls (trace w)) + length starts)%nat ->
           acknowledged (server t c)) ->
        sched.*1 = starts).
Proof.
  revert w. induction starts as [|i starts IH]; intros w; cbn [upload_chunks].
  { intros [= <- <-]. exists [], []. rewrite extend_nil. repeat split; done. }
  set (c := chunk_call upload_url data headers file_size i).
  unfold bind.
  destruct (chunk_loop 4 c 0 w) as [o1 w1] eqn:Hloop.
  pose proof Hloop as Hloop'.
  apply chunk_loop_run in Hloop as (new1 & retries & -> & Hcalls & Hretries & Hout);
    [| lia | lia].
  assert (Hone : calls new1
                 = attempts (chunk_call upload_url data headers file_size) [(i, retries)]).
  { unfold attempts. cbn [fmap list_fmap concat fst snd]. by rewrite app_nil_r. }
  assert (Hpre : [(i, retries)].*1 `prefix_of` i :: starts).
  { cbn. apply prefix_cons, prefix_nil. }
  assert (Hle : Forall (fun p : Z * nat => (p.2 <= 3)%nat) [(i, retries)]).
  { constructor; [cbn; lia | constructor]. }
  assert (Hlast : (forall t c,
                     (S (length (calls t)) < length (calls (trace w)) + length (i :: starts))%nat ->
                     acknowledged (server t c)) ->
                  o1 <> Returned None -> [(i, retries)].*1 = i :: starts).
  { intros Hack Ho1. destruct starts as [|i' starts']; [done|]. exfalso.
    rewrite chunk_loop_acknowledged in Hloop' by (apply Hack; cbn; lia).
    by injection Hloop' as <- _. }
  destruct o1 as [[v|]|e|]; [| | |done].
  - intros [= <- <-]. exists new1, [(i, retries)]. repeat split; try done.
    intros Hack. by apply Hlast.
  - intros Hrest. apply IH in Hrest as (new2 & sched & -> & Hpre2 & Hle2 & Hcalls2 & Hout2 & Hall2).
    exists (new1 ++ new2)%list, ((i, retries) :: sched).
    rewrite extend_extend. split; [done|]. split; [cbn; by apply prefix_cons|].
    split; [constructor; [cbn; lia | done]|].
    split; [rewrite calls_app, Hcalls, Hcalls2; unfold attempts; by cbn|].
    split; [done|].
    intros Hack. cbn. f_equal.
    destruct starts as [|i' starts']; [by apply prefix_nil_inv in Hpre2|].
    apply Hall2. intros t c' Hlt. apply Hack. cbn [length].
    rewrite chunk_loop_acknowledged in Hloop' by (apply Hack; cbn; lia).
    injection Hloop' as Hw. apply app_inv_head in Hw as <-.
    cbn in Hlt. rewrite calls_app, length_app in Hlt. cbn in Hlt. lia.
  - intros [= <- <-]. exists new1, [(i, retries)]. repeat split; try done.
    intros Hack. by apply Hlast.
Qed.

(** *** The ranges of the chunks *)

Section Ranges.

Variables stop step : Z.
Hypothesis step_pos : 0 < step.
Hypothesis stop_pos : 0 < stop.

Lemma range0_count :
  (range0_len stop step - 1) * step < stop <= range0_len stop step * step
  /\ 0 < range0_len stop step.
Proof.
  unfold range0_len.
  pose proof (Z.mul_div_le (stop + step - 1) step step_pos).
  pose proof (Z.mul_succ_div_gt (stop + step - 1) step step_pos).
  assert (0 < (stop + step - 1) / step) by (apply Z.div_str_pos; lia).
  nia.
Qed.

Lemma range0_lookup (k : nat) i :
  range0 stop step !! k = Some i
  <-> i = Z.of_nat k * step /\ Z.of_nat k < range0_len stop step.
Proof.
  unfold range0. rewrite list_lookup_fmap.
  pose proof range0_count as [_ Hcount].
  destruct (decide (k < Z.to_nat (range0_len stop step))%nat) as [Hk|Hk].
  - rewrite lookup_seq_lt by done. cbn. split; [intros [= <-]; lia | by intros [-> _]].
  - rewrite lookup_seq_ge by lia. cbn. split; [done | lia].
Qed.

Lemma range0_length : Z.of_nat (length (range0 stop step)) = range0_len stop step.
Proof.
  unfold range0. rewrite length_fmap, length_seq.
  pose proof range0_count. lia.
Qed.

Lemma chained_from (j cnt : nat) :
  Z.of_nat j + Z.of_nat cnt = range0_len stop step ->
  chained (Z.min (Z.of_nat j * step) stop) stop
    ((fun i => (i, Z.min (i + step) stop))
       <$> ((fun k : nat => Z.of_nat k * step) <$> seq j cnt)).
Proof.
  pose proof range0_count as [[Hlo Hhi] _].
  revert j. induction cnt as [|cnt IH]; intros j Hj; cbn.
  - nia.
  - split; [nia|]. split; [nia|].
    replace (Z.of_nat j * step + step) with (Z.of_nat (S j) * step) by lia.
    apply IH. lia.
Qed.

Lemma range0_chained :
  chained 0 stop ((fun i => (i, Z.min (i + step) stop)) <$> range0 stop step).
Proof.
  pose proof range0_count as [_ Hcount].
  pose proof (chained_from 0 (Z.to_nat (range0_len stop step))) as H.
  replace (Z.min (Z.of_nat 0 * step) stop) with 0 in H by lia.
  apply H. lia.
Qed.

End Ranges.

Lemma slice_length {A} (data : list A) lo hi :
  0 <= lo <= hi -> hi <= Z.of_nat (length data) ->
  Z.of_nat (length (slice data lo hi)) = hi - lo.
Proof. intros Hlo Hhi. unfold slice. rewrite length_take, length_drop. lia. Qed.

Lemma chunk_ranges_lookup file_size (k : nat) a b :
  0 < file_size ->
  chunk_ranges file_size !! k = Some (a, b) ->
  a = Z.of_nat k * UPLOAD_CHUNK_SIZE
  /\ b = Z.min (a + UPLOAD_CHUNK_SIZE) file_size
  /\ 0 <= a < b /\ b <= file_size
  /\ ((S k < length (chunk_ranges file_size))%nat -> b - a = UPLOAD_CHUNK_SIZE).
Proof.
  intros Hsize. unfold chunk_ranges. rewrite list_lookup_fmap, length_fmap.
  destruct (range0 file_size UPLOAD_CHUNK_SIZE !! k) as [i|] eqn:Hi; [|done].
  intros [= <- <-].
  assert (0 < UPLOAD_CHUNK_SIZE) as Hstep by done.
  apply (range0_lookup file_size UPLOAD_CHUNK_SIZE Hstep Hsize) in Hi as [-> Hk].
  pose proof (range0_count file_size UPLOAD_CHUNK_SIZE Hstep Hsize) as [[Hlo Hhi] Hcount].
  pose proof (range0_length file_size UPLOAD_CHUNK_SIZE Hstep Hsize) as Hlen.
  split; [done|]. split; [done|]. split; [nia|]. split; [lia|]. intros Hnext. nia.
Qed.

(** C2. For a payload of [file_size] bytes, more than the chunk size of
    4,915,200: the ranges the loop goes through start at 0, are not empty,
    each start where the one before ended, and end at [file_size]; every
    range but the last is 4,915,200 bytes long; the PUT of a range [(a, b)]
    carries the bytes [data[a:b]], ['Content-Range: bytes a-(b-1)/file_size']
    and a ['Content-Length'] of [b - a], the length of the chunk.  The
    calls sent in a run are the PUTs of a leading part of these ranges, in
    order, each sent once and at most three times more; when every
    response is a success other than 200 and 201, it is every range,
    once. *)
Theorem chunked_upload_ranges upload_url data headers w o w' :
  UPLOAD_CHUNK_SIZE < Z.of_nat (length data) ->
  _do_chunked_upload upload_url data headers w = (o, w') ->
  let file_size := Z.of_nat (length data) in
  let put := chunk_call upload_url data headers file_size in
  UPLOAD_CHUNK_SIZE = 4915200
  /\ chained 0 file_size (chunk_ranges file_size)
  /\ (forall (k : nat) a b,
        chunk_ranges file_size !! k = Some (a, b) ->
        (S k < length (chunk_ranges file_size))%nat ->
        b - a = UPLOAD_CHUNK_SIZE)
  /\ (forall a b,
        (a, b) ∈ chunk_ranges file_size ->
        call_method (put a) = "PUT"
        /\ call_url (put a) = upload_url
        /\ call_content (put a) = Some (slice data a b)
        /\ Z.of_nat (length (slice data a b)) = b - a
        /\ call_headers (put a) !! "Content-Range"
           = Some (String.append "bytes "
                     (String.append (str_of_int a)
                        (String.append "-"
                           (String.append (str_of_int (b - 1))
                              (String.append "/" (str_of_int file_size))))))
        /\ call_headers (put a) !! "Content-Length" = Some (str_of_int (b - a)))
  /\ exists new sched,
       trace w' = (trace w ++ new)%list
       /\ sched.*1 `prefix_of` (chunk_ranges file_size).*1
       /\ Forall (fun p : Z * nat => (p.2 <= 3)%nat) sched
       /\ calls new = attempts put sched
       /\ ((forall t c,
              (S (length (calls t))
               < length (calls (trace w)) + length (chunk_ranges file_size))%nat ->
              acknowledged (server t c)) ->
           sched.*1 = (chunk_ranges file_size).*1).
Proof.
  intros Hsize Hrun file_size put.
  assert (0 < file_size) as Hpos by (unfold UPLOAD_CHUNK_SIZE in Hsize; lia).
  assert ((chunk_ranges file_size).*1 = range0 file_size UPLOAD_CHUNK_SIZE) as Hstarts.
  { unfold chunk_ranges. rewrite <- list_fmap_compose. apply list_fmap_id. }
  split; [done|]. split; [by apply range0_chained|].
  split.
  { intros k a b Hk. by apply chunk_ranges_lookup in Hk as (_ & _ & _ & _ & Hlen). }
  split.
  { intros a b Hab. apply list_elem_of_lookup in Hab as [k Hk].
    apply chunk_ranges_lookup in Hk as (Ha & Hb & Hbounds & Hle & _); [|done].
    assert (Z.of_nat (length (slice data a b)) = b - a) as Hlen
      by (apply slice_length; [lia | done]).
    unfold put, chunk_call. cbn [call_method call_url call_content call_headers].
    rewrite <- Hb. repeat split; try done.
    - unfold chunk_headers. by rewrite lookup_insert_eq.
    - unfold chunk_headers. rewrite lookup_insert_ne by done.
      by rewrite lookup_insert_eq, Hlen. }
  unfold _do_chunked_upload in Hrun. fold file_size in Hrun.
  apply upload_chunks_run in Hrun as (new & sched & -> & Hpre & Hle & Hcalls & _ & Hall).
  exists new, sched. rewrite Hstarts. repeat split; try done.
  intros Hack. apply Hall. intros t c Hlt. apply Hack.
  by rewrite <- (length_fmap fst), Hstarts.
Qed.

(** *** The retry loops, reply by reply *)

(** The part that the loops of [request], [batch_request] and
    [download_raw] share, lines 47-67, before whatever they do with a response
    they keep. *)
Lemma attempt_head {A} (tail : Response -> M (step A)) c mr rc w o w' :
  catch_status
    (let* response := client_send c in
     let* slept := throttled response mr rc in
     if slept then ret (Again (rc + 1))
     else if (500 <=? status_code response) && (rc <? mr) then
       let* _ := sleep (2 ^ rc * 1) in ret (Again (rc + 1))
     else tail response)
    (on_status_error mr rc) w = (o, w') ->
  (server (trace w) c = Failed /\ o = Raised TransportError
   /\ w' = extend w [EvHttp c Failed])
  \/ exists r,
       server (trace w) c = Responded r
       /\ ((retryable (status_code r) = true /\ rc < mr
            /\ o = Returned (Again (rc + 1))
            /\ w' = extend w [EvHttp c (Responded r); EvSleep (backoff r rc)])
           \/ (status_code r = 429 /\ (exists msg, o = Raised (ValueError msg))
               /\ w' = extend w [EvHttp c (Responded r)])
           \/ ((retryable (status_code r) = false \/ mr <= rc)
               /\ catch_status (tail r) (on_status_error mr rc)
                    (extend w [EvHttp c (Responded r)]) = (o, w'))).
Proof.
  unfold catch_status at 1, bind at 1, client_send.
  destruct (server (trace w) c) as [r|] eqn:Hs.
  2:{ intros [= <- <-]. by left. }
  right. exists r. split; [done|].
  fold (extend w [EvHttp c (Responded r)]) in *.
  set (w1 := extend w [EvHttp c (Responded r)]) in *. revert H.
  unfold bind at 1, throttled.
  destruct (status_code r =? 429) eqn:E429.
  - unfold bind at 1, lift, int_retry_after.
    assert (retryable (status_code r) = true) as Hretry by (unfold retryable; lia).
    destruct (retry_after r) eqn:Hra; cbn.
    3:{ intros [= <- <-]. right. left. split; [lia|]. split; [by eexists | done]. }
    all: destruct (rc <? mr) eqn:Hrc; cbn.
    all: try (replace (500 <=? status_code r) with false by lia; cbn;
              intros Hrun; right; right; split; [right; lia | done]).
    all: unfold bind, sleep.
    all: match goal with |- context [if ?b then _ else _] => destruct b eqn:Hneg end; cbn.
    all: intros [= <- <-].
    all: try (right; left; split; [lia|]; split; [by eexists | done]).
    all: left; unfold backoff; rewrite E429, Hra.
    all: split; [done|]; split; [lia|]; split; [done|].
    all: unfold extend; cbn; by rewrite <- app_assoc.
  - cbn. destruct ((500 <=? status_code r) && (rc <? mr)) eqn:E5.
    + assert (0 <= 2 ^ rc * 1) by (pose proof (Z.pow_nonneg 2 rc); lia).
      unfold bind. rewrite sleep_nonneg by done. cbn. unfold w1. rewrite extend_extend.
      intros [= <- <-]. left. unfold backoff, retryable. rewrite E429, Z.mul_1_r.
      repeat split; try done; lia.
    + intros Hrun. right. right. split; [|done].
      unfold retryable. rewrite E429. cbn. lia.
Qed.

Lemma decides_impl {A} (settle : Response -> outcome A) (P Q : Prop) rp o :
  (P -> Q) -> decides settle P rp o -> decides settle Q rp o.
Proof.
  intros HPQ. unfold decides. destruct rp as [r|]; [|done].
  destruct (retryable (status_code r)); [|done].
  intros [[Ho HP] | H429]; [left; auto | by right].
Qed.

(** One pass through such a loop: it retries the response and waits, or
    the reply ends the loop. *)
Lemma attempt_step {A} (tail : Response -> M (step A)) (keep : Response -> outcome A)
    c mr rc w o w' :
  (forall r w1,
     tail r w1 = if is_success (status_code r) then (done_with (keep r), w1)
                 else (Raised (HTTPStatusError (status_code r)), w1)) ->
  (forall r s, keep r <> Raised (HTTPStatusError s)) ->
  catch_status
    (let* response := client_send c in
     let* slept := throttled response mr rc in
     if slept then ret (Again (rc + 1))
     else if (500 <=? status_code response) && (rc <? mr) then
       let* _ := sleep (2 ^ rc * 1) in ret (Again (rc + 1))
     else tail response)
    (on_status_error mr rc) w = (o, w') ->
  (exists r,
     server (trace w) c = Responded r
     /\ retryable (status_code r) = true /\ rc < mr
     /\ o = Returned (Again (rc + 1))
     /\ w' = extend w [EvHttp c (Responded r); EvSleep (backoff r rc)])
  \/ exists fin,
       o = done_with fin
       /\ w' = extend w [EvHttp c (server (trace w) c)]
       /\ decides
            (fun r => if is_success (status_code r) then keep r
                      else Raised (HTTPStatusError (status_code r)))
            (mr <= rc) (server (trace w) c) fin.
Proof.
  intros Htail Hkeep Hrun.
  apply attempt_head in Hrun
    as [(Hs & -> & ->)
       | (r & Hs & [(Hretry & Hlt & -> & ->)
                   | [(H429 & (msg & ->) & ->) | (Hfinal & Hrun)]])].
  - right. exists (Raised TransportError). rewrite Hs. done.
  - left. by exists r.
  - right. exists (Raised (ValueError msg)). rewrite Hs. split; [done|]. split; [done|].
    unfold decides, retryable. rewrite H429. cbn. right. split; [done | by exists msg].
  - right. rewrite Hs. unfold catch_status in Hrun. rewrite Htail in Hrun.
    unfold decides.
    destruct (is_success (status_code r)) eqn:Hok.
    + exists (keep r).
      assert (retryable (status_code r) = false) as ->
        by (unfold retryable, is_success in *; lia).
      destruct (keep r) as [a|e|] eqn:Hk; cbn in Hrun.
      * by injection Hrun as <- <-.
      * destruct e; try (by injection Hrun as <- <-). by destruct (Hkeep r status).
      * by injection Hrun as <- <-.
    + exists (Raised (HTTPStatusError (status_code r))).
      unfold on_status_error in Hrun.
      destruct (retryable (status_code r)) eqn:Hretry.
      * destruct Hfinal as [|Hex]; [done|].
        replace (rc <? mr) with false in Hrun by lia. cbn in Hrun.
        injection Hrun as <- <-. split; [done|]. split; [done|]. by left.
      * replace ((rc <? mr) && (500 <=? status_code r)) with false in Hrun
          by (unfold retryable in Hretry; lia).
        by injection Hrun as <- <-.
Qed.

Lemma request_attempt_step c mr rc w o w' :
  request_attempt c mr rc w = (o, w') ->
  (exists r,
     server (trace w) c = Responded r
     /\ retryable (status_code r) = true /\ rc < mr
     /\ o = Returned (Again (rc + 1))
     /\ w' = extend w [EvHttp c (Responded r); EvSleep (backoff r rc)])
  \/ exists fin,
       o = done_with fin
       /\ w' = extend w [EvHttp c (server (trace w) c)]
       /\ decides settled (mr <= rc) (server (trace w) c) fin.
Proof.
  unfold request_attempt.
  apply (attempt_step _
           (fun r => match body r with
                     | NoContent => Returned PNone
                     | JsonBody v => Returned v
                     | Malformed => Raised JSONDecodeError
                     end)).
  - intros r w1. unfold bind, raise_for_status, has_content, response_json.
    destruct (is_success (status_code r)); [|done]. cbn. by destruct (body r).
  - intros r s. by destruct (body r).
Qed.



(** A whole run of such a loop that is entered: the retried responses, each
    followed by its wait, and then the reply that decides.  Every reply is
    one of the service's. *)
Ltac loop_replies step_lemma :=
  let IH := fresh "IH" in
  let Hstep := fresh "Hstep" in
  intros fuel; induction fuel as [|fuel IH]; intros c mr rc w o w' Hfuel Hrc Hrun; [lia|];
  cbn in Hrun; replace (rc <=? mr) with true in Hrun by lia;
  unfold bind in Hrun;
  match type of Hrun with
  | context [?attempt c mr rc w] =>
      destruct (attempt c mr rc w) as [o1 w1] eqn:Hstep
  end;
  apply step_lemma in Hstep
    as [(r & Hs & Hretry & Hlt & -> & ->) | (fin & -> & -> & Hdec)];
  [ apply IH in Hrun as (rs & rp & -> & Hall & Hlen & Hdec & Hserved); [| lia | lia];
    exists (r :: rs), rp; rewrite extend_extend; cbn [retries length];
    split; [done|]; split; [by constructor|]; split; [lia|];
    split; [eapply decides_impl; [|exact Hdec]; lia|];
    intros P HP; destruct (Hserved P HP) as [HPs HPrp];
    split; [constructor; [rewrite <- Hs; apply HP | done] | done]
  | exists [], (server (trace w) c); cbn [retries length app];
    assert (o = fin /\ w' = extend w [EvHttp c (server (trace w) c)]) as [-> ->]
      by (destruct fin; cbn in Hrun; by injection Hrun as <- <-);
    split; [done|]; split; [constructor|]; split; [lia|];
    split; [eapply decides_impl; [|exact Hdec]; lia|];
    intros P HP; split; [constructor | apply HP] ].

Lemma request_loop_replies fuel c mr rc w o w' :
  (Z.to_nat (mr + 1 - rc) <= fuel)%nat -> rc <= mr ->
  request_loop fuel c mr rc w = (o, w') ->
  exists rs rp,
    w' = extend w (retries c rc rs ++ [EvHttp c rp])
    /\ Forall (fun r => retryable (status_code r) = true) rs
    /\ Z.of_nat (length rs) <= mr - rc
    /\ decides settled (Z.of_nat (length rs) = mr - rc) rp o
    /\ forall P : Reply -> Prop, (forall t, P (server t c)) ->
         Forall (fun r => P (Responded r)) rs /\ P rp.
Proof. revert fuel c mr rc w o w'. loop_replies request_attempt_step. Qed.



Lemma sleeps_app t t' : sleeps (t ++ t') = (sleeps t ++ sleeps t')%list.
Proof. unfold sleeps. apply omap_app. Qed.

Lemma calls_retries c rc rs : calls (retries c rc rs) = replicate (length rs) c.
Proof.
  revert rc. induction rs as [|r rs IH]; intros rc; [done|].
  unfold calls in *. cbn. by rewrite IH.
Qed.

Lemma replies_retries c rc rs : replies (retries c rc rs) = Responded <$> rs.
Proof.
  revert rc. induction rs as [|r rs IH]; intros rc; [done|].
  unfold replies in *. cbn. by rewrite IH.
Qed.

Lemma yields_retries c rc rs : yields (retries c rc rs) = [].
Proof.
  revert rc. induction rs as [|r rs IH]; intros rc; [done|].
  unfold yields in *. cbn. by rewrite IH.
Qed.

Lemma sleeps_retries_cons c rc r rs :
  sleeps (retries c rc (r :: rs)) = backoff r rc :: sleeps (retries c (rc + 1) rs).
Proof. done. Qed.


Lemma sleeps_retries_lookup c rc rs (k : nat) r :
  rs !! k = Some r ->
  sleeps (retries c rc rs) !! k = Some (backoff r (rc + Z.of_nat k)).
Proof.
  revert rc k. induction rs as [|r0 rs IH]; intros rc k; [done|].
  rewrite sleeps_retries_cons. destruct k as [|k]; cbn [lookup list_lookup].
  - intros [= ->]. by rewrite Z.add_0_r.
  - intros Hk. replace (rc + Z.of_nat (S k)) with (rc + 1 + Z.of_nat k) by lia.
    by apply IH.
Qed.


(** The trace parts of one retry loop, written [retries c rc rs ++ [EvHttp c rp]]. *)
Lemma calls_loop c rc rs rp :
  calls (retries c rc rs ++ [EvHttp c rp]) = replicate (S (length rs)) c.
Proof.
  rewrite calls_app, calls_retries.
  change (calls [EvHttp c rp]) with [c]. symmetry. apply replicate_S_end.
Qed.

Lemma replies_loop c rc rs rp :
  replies (retries c rc rs ++ [EvHttp c rp]) = ((Responded <$> rs) ++ [rp])%list.
Proof. by rewrite replies_app, replies_retries. Qed.

Lemma sleeps_loop c rc rs rp :
  sleeps (retries c rc rs ++ [EvHttp c rp]) = sleeps (retries c rc rs).
Proof. rewrite sleeps_app. unfold sleeps at 2. cbn. by rewrite app_nil_r. Qed.

(** [request] past its first lines, for a budget that is not negative. *)
Lemma request_replies method path account_id params json data mr w o w' :
  0 <= mr ->
  request method path account_id params json data mr w = (o, w') ->
  (exists e, o = Raised e
             /\ prepare_request method path account_id params json data w = (Raised e, w'))
  \/ exists c w1 rs rp,
       prepare_request method path account_id params json data w = (Returned c, w1)
       /\ w' = extend w1 (retries c 0 rs ++ [EvHttp c rp])
       /\ Forall (fun r => retryable (status_code r) = true) rs
       /\ Z.of_nat (length rs) <= mr
       /\ decides settled (Z.of_nat (length rs) = mr) rp o
       /\ forall P : Reply -> Prop, (forall t, P (server t c)) ->
            Forall (fun r => P (Responded r)) rs /\ P rp.
Proof.
  intros Hmr. unfold request, bind.
  destruct (prepare_request _ _ _ _ _ _ w) as [[c|e|] w1] eqn:Hp.
  - intros Hrun. right.
    apply request_loop_replies in Hrun as (rs & rp & -> & Hall & Hlen & Hdec & Hserved);
      [| lia | lia].
    exists c, w1, rs, rp. rewrite Z.sub_0_r in *. done.
  - intros [= <- <-]. left. by exists e.
  - by apply prepare_request_trace in Hp as [_ ?].
Qed.

(** X1. A run of [request] that gets past its header lines consists of the
    responses it retried, each followed by one wait, and of the reply that
    ended it.  Every retried response had status 429 or at least 500, there
    are at most [max_retries] of them, and the wait after the [k]-th (from
    0) is [2 ** k] seconds after a status of 500 or more, and the
    [Retry-After] header capped at 60, or 5 without the header, after a 429. *)
Theorem request_backoff_schedule method path account_id params json data max_retries w o w' :
  0 <= max_retries ->
  request method path account_id params json data max_retries w = (o, w') ->
  (trace w' = trace w /\ exists e, o = Raised e)
  \/ exists c rs rp,
       trace w' = (trace w ++ retries c 0 rs ++ [EvHttp c rp])%list
       /\ Forall (fun r => retryable (status_code r) = true) rs
       /\ (length rs <= Z.to_nat max_retries)%nat
       /\ calls (retries c 0 rs ++ [EvHttp c rp]) = replicate (S (length rs)) c
       /\ forall (k : nat) r,
            rs !! k = Some r ->
            sleeps (retries c 0 rs ++ [EvHttp c rp]) !! k
            = Some (if status_code r =? 429
                    then Z.min (match retry_after r with
                                | RA_int seconds => seconds
                                | _ => 5
                                end) 60
                    else 2 ^ Z.of_nat k).
Proof.
  intros Hmr Hrun.
  apply request_replies in Hrun
    as [(e & -> & Hp) | (c & w1 & rs & rp & Hp & -> & Hall & Hlen & _)]; [| |done].
  - left. apply prepare_request_trace in Hp as [-> _]. split; [done | by exists e].
  - right. apply prepare_request_trace in Hp as [Ht _].
    exists c, rs, rp. cbn. rewrite Ht. split; [done|]. split; [done|]. split; [lia|].
    split; [apply calls_loop|].
    intros k r Hk. rewrite sleeps_loop, (sleeps_retries_lookup _ _ _ _ _ Hk). done.
Qed.



(** *** What [request] does to the heap, and what it sends *)

Lemma prepare_request_heap method path account_id params json data w o w1 :
  prepare_request method path account_id params json data w = (o, w1) ->
  heap w1 = heap w
  \/ exists l,
       params = Some l
       /\ default ∅ (heap w !! l) !! "$count" = None
       /\ heap w1 = <[l := <["$count" := PStr "true"]> (default ∅ (heap w !! l))]> (heap w).
Proof.
  unfold prepare_request, bind, lift, read_params, ret, raise, setdefault_count.
  destruct (get_token account_id); cbn; [intros [= <- <-]; by left|].
  destruct (request_headers _ _ _ _); cbn; [intros [= <- <-]; by left|].
  destruct (wants_eventual _) as [|[]]; cbn;
    [intros [= <- <-]; by left | | intros [= <- <-]; by left].
  destruct params as [l|]; cbn; [|intros [= <- <-]; by left].
  destruct (default ∅ (heap w !! l) !! "$count") eqn:Hc; cbn; intros [= <- <-];
    [by left | right; by exists l].
Qed.

Lemma request_heap method path account_id params json data mr w o w' :
  request method path account_id params json data mr w = (o, w') ->
  exists o1 w1,
    prepare_request method path account_id params json data w = (o1, w1)
    /\ heap w' = heap w1.
Proof.
  intros Hrun.
  apply request_run in Hrun
    as [(e & -> & _ & Hp) | (c & w1 & Hp & [(_ & _ & ->) | (_ & new & -> & _)])];
    eauto.
Qed.

(** X4. [request] writes to nothing but the caller's [params]: every other
    dictionary of the heap is as it was, and in [params] no key other than
    [$count] changes.  A [$count] that the caller set is never overwritten;
    when there was none it is either still absent or set to ["true"]. *)
Theorem request_heap_frame method path account_id params json data max_retries w o w' :
  request method path account_id params json data max_retries w = (o, w') ->
  (forall l, params <> Some l -> heap w' !! l = heap w !! l)
  /\ forall l (d : dict),
       params = Some l -> heap w !! l = Some d ->
       exists d' : dict,
         heap w' !! l = Some d'
         /\ (forall key, key <> "$count" -> d' !! key = d !! key)
         /\ (d' !! "$count" = d !! "$count"
             \/ (d !! "$count" = None /\ d' !! "$count" = Some (PStr "true"))).
Proof.
  intros Hrun. apply request_heap in Hrun as (o1 & w1 & Hp & ->).
  apply prepare_request_heap in Hp as [-> | (l0 & -> & Hc & ->)].
  - split; [done|]. intros l d _ Hl. exists d. auto.
  - split.
    + intros l Hl. rewrite lookup_insert_ne; [done | congruence].
    + intros l d [= <-] Hl. rewrite Hl in *. cbn in Hc.
      exists (<["$count" := PStr "true"]> d). rewrite !lookup_insert_eq.
      split; [done|]. split; [|by right].
      intros key Hkey. by rewrite lookup_insert_ne.
Qed.

Lemma prepare_request_call method path account_id params json data w c w1 :
  prepare_request method path account_id params json data w = (Returned c, w1) ->
  call_method c = method
  /\ call_url c = String.append BASE_URL path
  /\ call_json c = json
  /\ call_content c = data
  /\ call_params c = (fun l => default ∅ (heap w1 !! l)) <$> params
  /\ exists token,
       get_token account_id = inr token
       /\ call_headers c !! "Authorization" = Some (String.append "Bearer " token)
       /\ call_headers c !! "Content-Type"
          = (if String.eqb method "GET" then None
             else Some (if match json with Some j => truthy j | None => false end
                        then "application/json" else "application/octet-stream"))
       /\ (String.eqb method "GET" = false -> call_headers c !! "Prefer" = None)
       /\ (params = None ->
           call_headers c !! "ConsistencyLevel" = None
           /\ call_headers c !! "Prefer" = None).
Proof.
  unfold prepare_request, bind, lift, read_params, ret, raise.
  destruct (get_token account_id) as [|token]; cbn; [done|].
  destruct (request_headers _ _ _ _) as [|headers] eqn:Hh; cbn; [done|].
  assert (headers !! "Authorization" = Some (String.append "Bearer " token)
          /\ headers !! "Content-Type"
             = (if String.eqb method "GET" then None
                else Some (if match json with Some j => truthy j | None => false end
                           then "application/json" else "application/octet-stream"))
          /\ (String.eqb method "GET" = false -> headers !! "Prefer" = None)
          /\ headers !! "ConsistencyLevel" = None
          /\ (params = None -> headers !! "Prefer" = None)) as (Ha & Hct & Hpf & Hcl & Hnp).
  { unfold request_headers in Hh.
    destruct (String.eqb method "GET").
    - destruct (bool_decide _) eqn:Hsearch.
      + injection Hh as <-. repeat split; try done.
        intros ->. apply bool_decide_eq_true in Hsearch as [v Hv]. by simplify_map_eq.
      + destruct (contains _ _) as [|[]] eqn:Hsel; [done| |]; injection Hh as <-;
          repeat split; try done.
        intros ->. cbn in Hsel. rewrite lookup_empty in Hsel. by cbn in Hsel.
    - injection Hh as <-. repeat split; done. }
  destruct (wants_eventual _) as [|eventual] eqn:He; cbn; [done|].
  assert (params = None -> eventual = false) as Hnone.
  { intros ->. cbn in He. by injection He as <-. }
  destruct eventual.
  - destruct params as [l|]; [|by specialize (Hnone eq_refl)]. unfold setdefault_count.
    destruct (default ∅ (heap w !! l) !! "$count"); cbn; intros [= <- <-]; cbn.
    all: repeat split; try done.
    all: exists token; rewrite !lookup_insert_ne by done; repeat split; done.
  - intros [= <- <-]. cbn. repeat split; try done.
    exists token. repeat split; auto.
Qed.

(** X5. Every call of one run of [request] is the same call: to
    [BASE_URL] followed by the path, with the method, JSON body and content
    given, with the caller's [params] as the run leaves them, and with the
    bearer token of the account in [Authorization].  A GET carries no
    [Content-Type]; any other method carries [application/json] when the
    JSON body is truthy and [application/octet-stream] otherwise, and never
    a [Prefer] header.  Without [params] there is neither a [Prefer] nor a
    [ConsistencyLevel] header. *)
Theorem request_call_fields method path account_id params json data max_retries w o w' :
  request method path account_id params json data max_retries w = (o, w') ->
  exists new c,
    trace w' = (trace w ++ new)%list
    /\ calls new = replicate (length (calls new)) c
    /\ (calls new <> [] ->
        call_method c = method
        /\ call_url c = String.append BASE_URL path
        /\ call_json c = json
        /\ call_content c = data
        /\ call_params c = (fun l => default ∅ (heap w' !! l)) <$> params
        /\ exists token,
             get_token account_id = inr token
             /\ call_headers c !! "Authorization" = Some (String.append "Bearer " token)
             /\ call_headers c !! "Content-Type"
                = (if String.eqb method "GET" then None
                   else Some (if match json with Some j => truthy j | None => false end
                              then "application/json" else "application/octet-stream"))
             /\ (String.eqb method "GET" = false -> call_headers c !! "Prefer" = None)
             /\ (params = None ->
                 call_headers c !! "ConsistencyLevel" = None
                 /\ call_headers c !! "Prefer" = None)).
Proof.
  intros Hrun.
  set (nothing := {| call_method := method; call_url := path; call_headers := ∅;
                     call_params := None; call_json := None; call_content := None |}).
  apply request_run in Hrun
    as [(e & -> & Ht & _) | (c & w1 & Hp & [(_ & _ & ->) | (_ & new & -> & Hf & _)])].
  - exists [], nothing. rewrite app_nil_r. done.
  - exists [], nothing. apply prepare_request_trace in Hp as [-> _].
    rewrite app_nil_r. done.
  - exists new, c. pose proof (prepare_request_trace _ _ _ _ _ _ _ _ _ Hp) as [Ht _].
    cbn. rewrite Ht. split; [done|]. split.
    + apply fetched_calls in Hf. clear -Hf.
      induction Hf as [|c' cs <- _ IH]; [done|]. cbn. by rewrite <- IH.
    + intros _. by apply prepare_request_call in Hp.
Qed.

(** *** [batch_request], reply by reply *)



(** X7. With a budget below zero [batch_request] sends nothing and raises
    [ValueError], where [request] returns [None]; the checks of its
    arguments and the fetch of the token come first. *)
Theorem batch_request_negative_budget requests account_id max_retries w chunked token :
  requests <> [] ->
  Z.of_nat (length requests) <= 20 ->
  chunked_requests requests = inr chunked ->
  get_token account_id = inr token ->
  max_retries < 0 ->
  batch_request requests account_id max_retries w
  = (Raised (ValueError "Batch request failed after all retries"), w).
Proof.
  intros Hne Hlen Hch Htok Hmr. unfold batch_request.
  destruct requests as [|req requests]; [done|].
  replace (20 <? _) with false by lia.
  unfold bind, lift. rewrite Hch, Htok. cbn.
  replace (Z.to_nat (max_retries + 1)) with 0%nat by lia.
  cbn. by replace (0 <=? max_retries) with false by lia.
Qed.

Lemma chain_from_error requests (i : nat) rest e :
  (S i + length rest = length requests)%nat ->
  chain_from requests (Z.of_nat (S i)) rest = inl e ->
  e = KeyError "id".
Proof.
  revert i. induction rest as [|req rest IH]; intros i Hlen; [done|].
  cbn [chain_from]. rewrite chain_item_later. unfold depend_on_previous.
  destruct (requests !! i) as [prev|] eqn:Hprev.
  2:{ apply lookup_ge_None in Hprev. cbn in Hlen. lia. }
  rewrite (index_previous _ _ _ Hprev). cbn.
  destruct (prev !! "id"); cbn; [|by intros [= <-]].
  replace (Z.of_nat (S i) + 1) with (Z.of_nat (S (S i))) by lia.
  destruct (chain_from requests (Z.of_nat (S (S i))) rest) as [e'|] eqn:Hrest; [|done].
  intros [= <-]. eapply IH; [|done]. cbn in Hlen. lia.
Qed.

(** X8. With more than four requests every request but the last needs an
    ["id"]: when one of them has none, [batch_request] raises
    [KeyError("id")] before it asks for a token or sends anything. *)
Theorem batch_request_missing_id requests account_id max_retries w (i : nat) (req : dict) :
  4 < Z.of_nat (length requests) <= 20 ->
  requests !! i = Some req ->
  (S i < length requests)%nat ->
  req !! "id" = None ->
  batch_request requests account_id max_retries w = (Raised (KeyError "id"), w).
Proof.
  intros Hlen Hi Hnext Hid. unfold batch_request.
  destruct requests as [|req0 rest] eqn:Hreqs; [cbn in Hlen; lia|]. rewrite <- Hreqs in *.
  replace (20 <? _) with false by lia.
  destruct (chunked_requests requests) as [e|chunked] eqn:Hch.
  - unfold bind, lift. cbn. do 2 f_equal.
    unfold chunked_requests in Hch. replace (_ <=? 4) with false in Hch by lia.
    rewrite Hreqs in Hch. cbn [chain_from] in Hch. rewrite chain_item_first in Hch.
    change (0 + 1) with (Z.of_nat 1) in Hch.
    destruct (chain_from (req0 :: rest) (Z.of_nat 1) rest) as [e'|] eqn:Hrest; [|done].
    injection Hch as <-. by apply (chain_from_error (req0 :: rest) 0 rest e').
  - apply chunked_requests_chain in Hch as (_ & _ & Hitems); [|lia].
    destruct (lookup_lt_is_Some_2 requests (S i) Hnext) as [next Hn].
    destruct (Hitems i next Hn) as (prev & id & Hprev & Hpid & _). congruence.
Qed.

(** *** [download_raw] *)


(** X10. With a budget below zero [download_raw] sends nothing and raises
    [ValueError], once it has the token. *)
Theorem download_raw_negative_budget path account_id max_retries w token :
  get_token account_id = inr token ->
  max_retries < 0 ->
  download_raw path account_id max_retries w
  = (Raised (ValueError "Failed to download file after all retries"), w).
Proof.
  intros Htok Hmr. unfold download_raw, bind, lift. rewrite Htok. cbn.
  replace (Z.to_nat (max_retries + 1)) with 0%nat by lia.
  cbn. by replace (0 <=? max_retries) with false by lia.
Qed.

(** *** The cursor of [request_paginated] *)

Lemma prefix_append p s : String.prefix p (String.append p s) = true.
Proof.
  induction p as [|a p IH].
  - destruct s; reflexivity.
  - simpl. destruct (ascii_dec a a); [exact IH | contradiction].
Qed.

Lemma replace_from_skip old new p rest :
  replace_from old new (String.length p) (String.append p rest)
  = replace_from old new 0 rest.
Proof.
  induction p as [|a p IH]; [done|].
  change (String.append (String a p) rest) with (String a (String.append p rest)).
  exact IH.
Qed.

Lemma replace_from_absent old new s :
  str_contains old s = false -> replace_from old new 0 s = s.
Proof.
  induction s as [|a s IH]; [done|].
  cbn [str_contains replace_from]. intros [Hp Hs]%orb_false_iff.
  rewrite Hp. f_equal. by apply IH.
Qed.

(** [(old + rest).replace(old, new)] when [rest] has no [old] in it. *)
Lemma str_replace_prefix old new rest :
  old <> EmptyString ->
  str_contains old rest = false ->
  str_replace old new (String.append old rest) = String.append new rest.
Proof.
  intros Hold Hrest. destruct old as [|a old']; [done|].
  unfold str_replace.
  pose proof (prefix_append (String a old') rest) as Hp.
  change (String.append (String a old') rest)
    with (String a (String.append old' rest)) in *.
  cbn [replace_from]. rewrite Hp.
  replace (String.length (String a old') - 1)%nat with (String.length old')
    by (cbn [String.length]; lia).
  by rewrite replace_from_skip, replace_from_absent.
Qed.

Lemma str_replace_absent old new s :
  str_contains old s = false -> str_replace old new s = s.
Proof.
  intros Hs. unfold str_replace. destruct old; [done|]. by apply replace_from_absent.
Qed.

(** A GET by [request] without [params], as [request_paginated] sends it
    for a cursor. *)
Lemma request_bare_get p account_id mr w o w' :
  request "GET" p account_id None None None mr w = (o, w') ->
  exists new,
    trace w' = (trace w ++ new)%list
    /\ heap w' = heap w
    /\ Forall (fun c =>
                 call_method c = "GET"
                 /\ call_url c = String.append BASE_URL p
                 /\ call_params c = None
                 /\ call_headers c !! "Prefer" = None
                 /\ call_headers c !! "ConsistencyLevel" = None) (calls new).
Proof.
  intros Hrun.
  pose proof (request_heap _ _ _ _ _ _ _ _ _ _ Hrun) as (o1 & w1 & Hp1 & Hheap).
  apply prepare_request_heap in Hp1 as [Hw1 | (l & ? & _)]; [|done].
  apply request_run in Hrun
    as [(e & -> & Ht & _) | (c & w2 & Hp & [(_ & _ & ->) | (_ & new & -> & Hf & _)])].
  - exists []. rewrite app_nil_r. split; [done|]. split; [congruence | constructor].
  - exists []. apply prepare_request_trace in Hp as [-> _]. rewrite app_nil_r.
    split; [done|]. split; [congruence | constructor].
  - exists new. pose proof (prepare_request_trace _ _ _ _ _ _ _ _ _ Hp) as [Ht _].
    cbn. rewrite Ht. split; [done|]. split; [cbn in Hheap; congruence|].
    eapply Forall_impl; [by eapply fetched_calls|]. intros c' <-.
    apply prepare_request_call in Hp
      as (Hm & Hu & _ & _ & Hps & token & _ & _ & _ & _ & Hnone).
    destruct (Hnone eq_refl) as [Hcl Hpf]. done.
Qed.

(** X11. A cursor that is [BASE_URL] followed by a rest without another
    [BASE_URL] in it is followed as it is: every call for the next page is a
    GET to the cursor itself.  The caller's [params] are not sent again,
    nor are the [Prefer] and [ConsistencyLevel] headers they may have
    brought on the first page, and the heap is left alone. *)
Theorem fetch_page_follows_cursor path account_id params rest w o w' :
  str_contains BASE_URL rest = false ->
  fetch_page path account_id params (PStr (String.append BASE_URL rest)) w = (o, w') ->
  exists new,
    trace w' = (trace w ++ new)%list
    /\ heap w' = heap w
    /\ Forall (fun c =>
                 call_method c = "GET"
                 /\ call_url c = String.append BASE_URL rest
                 /\ call_params c = None
                 /\ call_headers c !! "Prefer" = None
                 /\ call_headers c !! "ConsistencyLevel" = None) (calls new).
Proof.
  intros Hrest. unfold fetch_page.
  change (truthy (PStr (String.append BASE_URL rest))) with true. cbv iota.
  unfold bind at 1, lift, replace.
  rewrite str_replace_prefix by done. cbn [ret String.append].
  apply request_bare_get.
Qed.

(** X12. A cursor that is not empty and has no [BASE_URL] in it, such as a
    link into another version of the API, is not followed as it is: the GET
    goes to [BASE_URL] followed by the whole cursor. *)
Theorem fetch_page_foreign_cursor path account_id params link w o w' :
  link <> EmptyString ->
  str_contains BASE_URL link = false ->
  fetch_page path account_id params (PStr link) w = (o, w') ->
  exists new,
    trace w' = (trace w ++ new)%list
    /\ Forall (fun c => call_url c = String.append BASE_URL link) (calls new).
Proof.
  intros Hne Hlink. unfold fetch_page.
  replace (truthy (PStr link)) with true.
  2:{ cbn. destruct link; done. }
  unfold bind at 1, lift, replace.
  rewrite str_replace_absent by done. cbn [ret]. intros Hrun.
  apply request_bare_get in Hrun as (new & Ht & _ & Hcalls).
  exists new. split; [done|]. eapply Forall_impl; [exact Hcalls|]. by intros c (_ & ? & _).
Qed.

(** *** The items [request_paginated] yields *)

(** One page, for any limit: the items yielded are the first of the page,
    as many as the limit checks let through, and the loop goes on only
    after all of them. *)
Lemma page_cycle_yields limit result n w o w' :
  page_cycle limit result n w = (o, w') ->
  let k := yield_count limit (page_items result) n in
  w' = extend w (EvYield <$> take k (page_items result))
  /\ forall n' next,
       o = Returned (inr (n', next)) ->
       k = length (page_items result) /\ n' = n + Z.of_nat k.
Proof.
  unfold page_cycle.
  destruct (truthy result) eqn:Htruthy; cbn.
  2:{ intros [= <- <-]. destruct (falsy_page result Htruthy) as [-> _].
      cbn. by rewrite extend_nil. }
  unfold page_items. unfold bind at 1, lift.
  destruct (contains "value" result) as [e|has_value]; cbn.
  { intros [= <- <-]. by rewrite extend_nil. }
  assert (forall items n',
            (let* next_link := lift (get result "@odata.nextLink" PNone) in
             if negb (truthy next_link) then ret (inl NoCursor)
             else ret (inr (n', next_link))) (extend w (EvYield <$> items)) = (o, w') ->
            w' = extend w (EvYield <$> items)
            /\ forall n'' next, o = Returned (inr (n'', next)) -> n'' = n') as Htail.
  { intros items n'. unfold bind, lift.
    destruct (get result "@odata.nextLink" PNone) as [e|next]; cbn.
    - by intros [= <- <-].
    - destruct (truthy next); cbn; intros [= <- <-]; split; try done.
      by intros ? ? [= <- <-]. }
  destruct has_value.
  - unfold bind at 1 2.
    destruct (getitem result "value") as [e|v]; cbn.
    { intros [= <- <-]. by rewrite extend_nil. }
    unfold bind at 1.
    destruct (iter v) as [e|items]; cbn.
    { intros [= <- <-]. by rewrite extend_nil. }
    rewrite yield_items_run.
    destruct (_ =? _)%nat eqn:Hall.
    + apply Nat.eqb_eq in Hall. intros Hrun. apply Htail in Hrun as [-> Hnext].
      split; [done|]. intros n' next Ho. split; [done|].
      rewrite (Hnext _ _ Ho), Hall. done.
    + by intros [= <- <-].
  - unfold bind at 1. cbn. intros Hrun.
    pose proof (Htail [] n) as Htail0. cbn [fmap list_fmap] in Htail0.
    rewrite extend_nil in Htail0. apply Htail0 in Hrun as [Hw Hnext].
    rewrite extend_nil. split; [done|]. intros n' next Ho.
    rewrite (Hnext _ _ Ho). split; [done | lia].
Qed.

Lemma paginate_loop_prefix fuel path account_id params limit n next_link w o w' :
  paginate_loop fuel path account_id params limit n next_link w = (o, w') ->
  exists new,
    trace w' = (trace w ++ new)%list
    /\ yields new `prefix_of` concat (page_items <$> pages new).
Proof.
  revert n next_link w.
  induction fuel as [|fuel IH]; intros n next_link w Hrun.
  { injection Hrun as <- <-. exists []. rewrite app_nil_r. split; [done|]. by exists []. }
  cbn [paginate_loop] in Hrun. unfold bind at 1 in Hrun.
  destruct (fetch_page path account_id params next_link w) as [o1 w1] eqn:Hfetch.
  apply fetch_page_events in Hfetch as (new1 & Ht1 & Hne1 & Hy1 & Hp1).
  destruct o1 as [result|e|]; [| |done].
  2:{ injection Hrun as <- <-. exists new1. split; [done|]. rewrite Hy1. apply prefix_nil. }
  specialize (Hp1 result eq_refl).
  unfold bind at 1 in Hrun.
  destruct (page_cycle limit result n w1) as [o2 w2] eqn:Hcycle.
  apply page_cycle_yields in Hcycle as [-> Hnext].
  set (k := yield_count limit (page_items result) n) in *.
  assert (forall o3,
            (o3, extend w1 (EvYield <$> take k (page_items result))) = (o, w') ->
            exists new,
              trace w' = (trace w ++ new)%list
              /\ yields new `prefix_of` concat (page_items <$> pages new)) as Hstop.
  { intros o3 [= <- <-]. exists (new1 ++ (EvYield <$> take k (page_items result)))%list.
    cbn. rewrite Ht1, <- app_assoc. split; [done|].
    rewrite yields_app, pages_app, Hy1, yields_yield, pages_yield, Hp1. cbn.
    rewrite app_nil_r. apply prefix_take. }
  destruct o2 as [[why|[n' next']]|e|]; try (by eapply Hstop).
  destruct (Hnext n' next' eq_refl) as [Hall ->].
  apply IH in Hrun as (new2 & Ht2 & Hpre).
  exists (new1 ++ (EvYield <$> take k (page_items result)) ++ new2)%list.
  rewrite Ht2. cbn. rewrite Ht1, <- !app_assoc. split; [done|].
  rewrite !yields_app, !pages_app, Hy1, yields_yield, pages_yield, Hp1. cbn.
  rewrite Hall, firstn_all. by apply prefix_app.
Qed.

(** X13. Whatever the limit, [request_paginated] yields the items of the
    pages it fetched, in their order and without a gap: what it yields is a
    prefix of the items of the first page followed by those of the second,
    and so on. *)
Theorem request_paginated_yields_in_order fuel path account_id params limit w o w' :
  request_paginated fuel path account_id params limit w = (o, w') ->
  exists new,
    trace w' = (trace w ++ new)%list
    /\ yields new `prefix_of` concat (page_items <$> pages new).
Proof. apply paginate_loop_prefix. Qed.

Lemma yield_count_negative l items n :
  l < 0 -> 0 <= n -> yield_count (Some l) items n = 0%nat.
Proof.
  intros Hl Hn. destruct items as [|item items]; [done|].
  cbn. by replace (negb (l =? 0) && (l <=? n)) with true by lia.
Qed.

Lemma paginate_loop_negative fuel path account_id params l n next_link w o w' :
  l < 0 -> 0 <= n ->
  paginate_loop fuel path account_id params (Some l) n next_link w = (o, w') ->
  exists new, trace w' = (trace w ++ new)%list /\ yields new = [].
Proof.
  intros Hl. revert n next_link w.
  induction fuel as [|fuel IH]; intros n next_link w Hn Hrun.
  { injection Hrun as <- <-. exists []. by rewrite app_nil_r. }
  cbn [paginate_loop] in Hrun. unfold bind at 1 in Hrun.
  destruct (fetch_page path account_id params next_link w) as [o1 w1] eqn:Hfetch.
  apply fetch_page_events in Hfetch as (new1 & Ht1 & Hne1 & Hy1 & _).
  destruct o1 as [result|e|]; [| |done].
  2:{ injection Hrun as <- <-. by exists new1. }
  unfold bind at 1 in Hrun.
  destruct (page_cycle (Some l) result n w1) as [o2 w2] eqn:Hcycle.
  apply page_cycle_yields in Hcycle as [-> Hnext].
  rewrite yield_count_negative in * by done. cbn [take fmap list_fmap] in *.
  rewrite extend_nil in Hrun.
  destruct o2 as [[why|[n' next']]|e|]; try (injection Hrun as <- <-; by exists new1).
  destruct (Hnext n' next' eq_refl) as [_ ->].
  apply IH in Hrun as (new2 & Ht2 & Hy2); [|cbn; lia].
  exists (new1 ++ new2)%list. rewrite Ht2, Ht1, <- app_assoc. split; [done|].
  by rewrite yields_app, Hy1, Hy2.
Qed.

(** X14. A negative limit stops [request_paginated] before its first
    item: whatever the pages hold, nothing is yielded. *)
Theorem request_paginated_negative_limit fuel path account_id params limit w o w' :
  limit < 0 ->
  request_paginated fuel path account_id params (Some limit) w = (o, w') ->
  exists new, trace w' = (trace w ++ new)%list /\ yields new = [].
Proof. intros Hl. by apply paginate_loop_negative. Qed.

(** *** The hits [search_query] yields under a limit *)

Lemma under_limit_ret l n : n <= l -> under_limit l n (ret (Walked n)).
Proof.
  intros Hn w o w' [= <- <-]. exists []. rewrite extend_nil. cbn.
  repeat split; try done; try lia. intros n' [= <-]. lia.
Qed.

Lemma under_limit_lift {A} l n (r : exn + A) (k : A -> M walk) :
  n <= l -> (forall a, under_limit l n (k a)) -> under_limit l n (bind (lift r) k).
Proof.
  intros Hn Hk w o w'. unfold bind, lift. destruct r as [e|a]; cbn.
  - intros [= <- <-]. exists []. rewrite extend_nil. cbn. repeat split; try done; lia.
  - apply Hk.
Qed.

Lemma under_limit_bind l n (m : M walk) (k : walk -> M walk) :
  under_limit l n m ->
  k Stopped = ret Stopped ->
  (forall n1, n1 <= l -> under_limit l n1 (k (Walked n1))) ->
  under_limit l n (bind m k).
Proof.
  intros Hm Hstop Hk w o w'. unfold bind.
  destruct (m w) as [o1 w1] eqn:Hrun1.
  apply Hm in Hrun1 as (ys1 & -> & Hle1 & Hs1 & Hn1).
  destruct o1 as [[|n1]|e|].
  - rewrite Hstop. intros [= <- <-]. exists ys1. repeat split; try done; auto.
  - rewrite (Hn1 n1 eq_refl). intros Hrun2.
    apply Hk in Hrun2 as (ys2 & -> & Hle2 & Hs2 & Hn2); [|done].
    exists (ys1 ++ ys2)%list. rewrite extend_extend, fmap_app, length_app.
    split; [done|]. split; [lia|]. split.
    + intros Ho. specialize (Hs2 Ho). lia.
    + intros n' Ho. specialize (Hn2 n' Ho). lia.
  - intros [= <- <-]. exists ys1. repeat split; done.
  - intros [= <- <-]. exists ys1. repeat split; done.
Qed.

Lemma yield_hits_under l hits n :
  0 < l -> n <= l -> under_limit l n (yield_hits l hits n).
Proof.
  intros Hl. revert n. induction hits as [|hit hits IH]; intros n Hn; cbn [yield_hits].
  { by apply under_limit_ret. }
  unfold limit_reached.
  destruct (negb (l =? 0) && (l <=? n)) eqn:Hreached.
  { intros w o w' [= <- <-]. exists []. rewrite extend_nil. cbn.
    repeat split; try done; lia. }
  apply under_limit_lift; [done|]. intros resource w o w'.
  unfold bind, emit. fold (extend w [EvYield resource]). intros Hrun.
  apply IH in Hrun as (ys & -> & Hle & Hs & Hnext); [|lia].
  exists (resource :: ys). rewrite extend_extend. cbn [fmap list_fmap app length].
  split; [done|]. split; [lia|]. split.
  - intros Ho. specialize (Hs Ho). lia.
  - intros n' Ho. specialize (Hnext n' Ho). lia.
Qed.

Lemma walk_containers_under l containers n :
  0 < l -> n <= l -> under_limit l n (walk_containers l containers n).
Proof.
  intros Hl. revert n.
  induction containers as [|container containers IH]; intros n Hn; cbn [walk_containers].
  { by apply under_limit_ret. }
  apply under_limit_lift; [done|]. intros has_hits.
  apply under_limit_bind; [|done|by intros; apply IH].
  destruct has_hits; [|by apply under_limit_ret].
  apply under_limit_lift; [done|]. intros h.
  apply under_limit_lift; [done|]. intros hits.
  by apply yield_hits_under.
Qed.

Lemma walk_responses_under l responses n :
  0 < l -> n <= l -> under_limit l n (walk_responses l responses n).
Proof.
  intros Hl. revert n.
  induction responses as [|response responses IH]; intros n Hn; cbn [walk_responses].
  { by apply under_limit_ret. }
  apply under_limit_lift; [done|]. intros has_containers.
  apply under_limit_bind; [|done|by intros; apply IH].
  destruct has_containers; [|by apply under_limit_ret].
  apply under_limit_lift; [done|]. intros c.
  apply under_limit_lift; [done|]. intros containers.
  by apply walk_containers_under.
Qed.

Lemma search_cycle_under l result n w o w' :
  0 < l -> n <= l ->
  search_cycle l result n w = (o, w') ->
  exists ys,
    w' = extend w (EvYield <$> ys)
    /\ n + Z.of_nat (length ys) <= l
    /\ (o = Returned (inl LimitReached) -> n + Z.of_nat (length ys) = l)
    /\ forall n', o = Returned (inr n') -> n' = n + Z.of_nat (length ys).
Proof.
  intros Hl Hn. unfold search_cycle.
  assert (forall o0, (o0, w) = (o, w') ->
            o0 <> Returned (inl LimitReached) -> (forall n', o0 <> Returned (inr n')) ->
            exists ys,
              w' = extend w (EvYield <$> ys)
              /\ n + Z.of_nat (length ys) <= l
              /\ (o = Returned (inl LimitReached) -> n + Z.of_nat (length ys) = l)
              /\ forall n', o = Returned (inr n') -> n' = n + Z.of_nat (length ys)) as Hnone.
  { intros o0 [= <- <-] Hnl Hnr. exists []. rewrite extend_nil. cbn.
    repeat split; try done; try lia. intros n' Ho. by destruct (Hnr n'). }
  destruct (negb (truthy result)); [intros Hrun; by apply (Hnone _ Hrun)|].
  unfold bind at 1, lift.
  destruct (contains "value" result) as [e|has_value]; cbn; [intros Hrun; by apply (Hnone _ Hrun)|].
  destruct (negb has_value); [intros Hrun; by apply (Hnone _ Hrun)|].
  unfold bind at 1.
  destruct (getitem result "value") as [e|v]; cbn; [intros Hrun; by apply (Hnone _ Hrun)|].
  unfold bind at 1.
  destruct (iter v) as [e|responses]; cbn; [intros Hrun; by apply (Hnone _ Hrun)|].
  unfold bind at 1.
  destruct (walk_responses l responses n w) as [o1 w1] eqn:Hwalk.
  apply walk_responses_under in Hwalk as (ys & -> & Hle & Hs & Hnext); [|done..].
  assert (forall o0, (o0, extend w (EvYield <$> ys)) = (o, w') ->
            (o0 = Returned (inl LimitReached) -> n + Z.of_nat (length ys) = l) ->
            (forall n', o0 = Returned (inr n') -> n' = n + Z.of_nat (length ys)) ->
            exists ys,
              w' = extend w (EvYield <$> ys)
              /\ n + Z.of_nat (length ys) <= l
              /\ (o = Returned (inl LimitReached) -> n + Z.of_nat (length ys) = l)
              /\ forall n', o = Returned (inr n') -> n' = n + Z.of_nat (length ys)) as Hend.
  { intros o0 [= <- <-] Hnl Hnr. by exists ys. }
  destruct o1 as [[|n1]|e|];
    try (intros Hrun; apply (Hend _ Hrun); [first [done | intros _; by apply Hs] | done]).
  rewrite (Hnext n1 eq_refl).
  unfold bind at 1, lift.
  destruct (contains "@odata.nextLink" result) as [e|cursor]; cbn; [intros Hrun; by apply (Hend _ Hrun)|].
  destruct cursor; [intros Hrun; by apply (Hend _ Hrun)|].
  unfold bind at 1.
  destruct (get result "value" (PList [])) as [e|v']; cbn; [intros Hrun; by apply (Hend _ Hrun)|].
  unfold bind at 1.
  destruct (iter v') as [e|responses']; cbn; [intros Hrun; by apply (Hend _ Hrun)|].
  unfold bind at 1.
  destruct (has_more_results responses' false) as [e|has_more]; cbn; [intros Hrun; by apply (Hend _ Hrun)|].
  destruct (negb has_more); intros Hrun; apply (Hend _ Hrun); try done.
  by intros n' [= <-].
Qed.

Lemma search_loop_limited fuel query entity_types account_id l fields size from n w o w' :
  0 < l -> n <= l ->
  search_loop fuel query entity_types account_id l fields size from n w = (o, w') ->
  exists new,
    trace w' = (trace w ++ new)%list
    /\ n + Z.of_nat (length (yields new)) <= l
    /\ (o = Returned LimitReached -> n + Z.of_nat (length (yields new)) = l).
Proof.
  intros Hl. revert from n w. induction fuel as [|fuel IH]; intros from n w Hn Hrun.
  { injection Hrun as <- <-. exists []. rewrite app_nil_r. repeat split; try done; cbn; lia. }
  cbn [search_loop] in Hrun. unfold bind at 1 in Hrun.
  destruct (request _ _ _ _ _ _ _ w) as [o1 w1] eqn:Hreq.
  apply request_events in Hreq as (new1 & Ht1 & Hne1 & Hnew1); [|lia].
  assert (yields new1 = []) as Hy1.
  { destruct Hnew1 as [(-> & _) | (c & Hf)]; [done | by eapply fetched_yields]. }
  destruct o1 as [result|e|]; [| |done].
  2:{ injection Hrun as <- <-. exists new1. rewrite Hy1. repeat split; try done; cbn; lia. }
  unfold bind at 1 in Hrun.
  destruct (search_cycle l result n w1) as [o2 w2] eqn:Hcycle.
  apply search_cycle_under in Hcycle as (ys & -> & Hle & Hstop & Hnext); [|done..].
  assert (yields (new1 ++ (EvYield <$> ys)) = ys) as Hys.
  { by rewrite yields_app, Hy1, yields_yield. }
  destruct o2 as [[why|n']|e|].
  - injection Hrun as <- <-. exists (new1 ++ (EvYield <$> ys))%list.
    cbn. rewrite Ht1, Hys, <- app_assoc. repeat split; try done.
    intros [= ->]. by apply Hstop.
  - apply IH in Hrun as (new2 & Ht2 & Hle2 & Hstop2).
    2:{ rewrite (Hnext n' eq_refl). lia. }
    exists (new1 ++ (EvYield <$> ys) ++ new2)%list.
    rewrite Ht2. cbn. rewrite Ht1, <- !app_assoc. split; [done|].
    rewrite app_assoc, yields_app, Hys, length_app.
    rewrite (Hnext n' eq_refl) in Hle2, Hstop2. split; [lia|].
    intros Ho. specialize (Hstop2 Ho). lia.
  - injection Hrun as <- <-. exists (new1 ++ (EvYield <$> ys))%list.
    cbn. rewrite Ht1, Hys, <- app_assoc. repeat split; done.
  - injection Hrun as <- <-. exists (new1 ++ (EvYield <$> ys))%list.
    cbn. rewrite Ht1, Hys, <- app_assoc. repeat split; done.
Qed.

(** X15. With a limit above zero [search_query] never yields more than
    [limit] hits, over all its requests together, and when it ends by the
    [return] of the limit check it has yielded exactly [limit]. *)
Theorem search_query_limit fuel query entity_types account_id limit fields w o w' :
  0 < limit ->
  search_query fuel query entity_types account_id limit fields w = (o, w') ->
  exists new,
    trace w' = (trace w ++ new)%list
    /\ Z.of_nat (length (yields new)) <= limit
    /\ (o = Returned LimitReached -> Z.of_nat (length (yields new)) = limit).
Proof.
  intros Hl Hrun. unfold search_query in Hrun.
  apply search_loop_limited in Hrun as (new & Ht & Hle & Hstop); [|lia..].
  exists new. split; [done|]. split; [lia|]. intros Ho. specialize (Hstop Ho). lia.
Qed.

(** The calls of one [request] of [search_query] carry the payload of that
    request, and a request that returns has sent a call. *)
Lemma request_calls_json method path account_id params json data w o w' :
  request method path account_id params json data 3 w = (o, w') ->
  exists new,
    trace w' = (trace w ++ new)%list
    /\ yields new = []
    /\ Forall (fun c => call_method c = method
                        /\ call_url c = String.append BASE_URL path
                        /\ call_json c = json
                        /\ call_content c = data) (calls new)
    /\ (forall v, o = Returned v -> calls new <> []).
Proof.
  intros Hrun.
  apply request_run in Hrun
    as [(e & -> & Ht & _) | (c & w1 & Hp & [(Hneg & _) | (_ & new & -> & Hf & _)])].
  - exists []. rewrite app_nil_r. repeat split; done.
  - lia.
  - exists new. pose proof (prepare_request_trace _ _ _ _ _ _ _ _ _ Hp) as [Ht _].
    cbn. rewrite Ht. split; [done|]. split; [by eapply fetched_yields|].
    split; [|intros _ _; by eapply fetched_nonempty].
    eapply Forall_impl; [by eapply fetched_calls|]. intros c' <-.
    apply prepare_request_call in Hp as (? & ? & ? & ? & _). done.
Qed.

(** The payload of lines 392-404, entry by entry. *)
Lemma search_payload_entries query entity_types size from fields :
  exists req : dict,
    search_payload query entity_types size from fields
    = PDict {[ "requests" := PList [PDict req] ]}
    /\ req !! "entityTypes" = Some (PList (PStr <$> entity_types))
    /\ req !! "query" = Some (PDict {[ "queryString" := PStr query ]})
    /\ req !! "size" = Some (PInt size)
    /\ req !! "from" = Some (PInt from)
    /\ req !! "fields" = match fields with
                         | Some (f :: fs) => Some (PList (PStr <$> f :: fs))
                         | _ => None
                         end.
Proof.
  unfold search_payload. eexists. split; [reflexivity|].
  destruct fields as [[|f fs]|]; repeat split; by simplify_map_eq.
Qed.

Lemma calls_yield items : calls (EvYield <$> items) = [].
Proof. induction items; done. Qed.

Lemma search_loop_offsets fuel query entity_types account_id limit fields size from n w o w' :
  search_loop fuel query entity_types account_id limit fields size from n w = (o, w') ->
  exists new (groups : list (list Call)),
    trace w' = (trace w ++ new)%list
    /\ calls new = concat groups
    /\ forall (j : nat) cs,
         groups !! j = Some cs ->
         cs <> []
         /\ Forall (fun c =>
                      call_method c = "POST"
                      /\ call_url c = String.append BASE_URL "/search/query"
                      /\ call_json c
                         = Some (search_payload query entity_types size
                                   (from + Z.of_nat j * size) fields)) cs.
Proof.
  revert from n w. induction fuel as [|fuel IH]; intros from n w Hrun.
  { injection Hrun as <- <-. exists [], []. rewrite app_nil_r.
    split; [done|]. split; [done|]. intros j cs Hj. by destruct j. }
  cbn [search_loop] in Hrun. unfold bind at 1 in Hrun.
  destruct (request _ _ _ _ _ _ _ w) as [o1 w1] eqn:Hreq.
  apply request_calls_json in Hreq as (new1 & Ht1 & _ & Hc1 & Hsent).
  assert (Forall (fun c =>
                    call_method c = "POST"
                    /\ call_url c = String.append BASE_URL "/search/query"
                    /\ call_json c
                       = Some (search_payload query entity_types size
                                 (from + Z.of_nat 0 * size) fields)) (calls new1)) as Hc1'.
  { eapply Forall_impl; [exact Hc1|]. intros c (Hm & Hu & Hj & _).
    split; [done|]. split; [done|]. rewrite Hj. do 2 f_equal. lia. }
  (* the run ends with this request *)
  assert (forall ys,
            exists groups : list (list Call),
              calls (new1 ++ (EvYield <$> ys)) = concat groups
              /\ forall (j : nat) cs,
                   groups !! j = Some cs ->
                   cs <> []
                   /\ Forall (fun c =>
                                call_method c = "POST"
                                /\ call_url c = String.append BASE_URL "/search/query"
                                /\ call_json c
                                   = Some (search_payload query entity_types size
                                             (from + Z.of_nat j * size) fields)) cs)
    as Hlast.
  { intros ys. rewrite calls_app, calls_yield, app_nil_r.
    destruct (calls new1) as [|c cs] eqn:Hcalls.
    - exists []. split; [done|]. intros j cs' Hj. by destruct j.
    - exists [c :: cs]. split; [cbn; by rewrite app_nil_r|].
      intros [|j] cs' Hj; [|by destruct j].
      injection Hj as <-. done. }
  destruct o1 as [result|e|].
  2:{ injection Hrun as <- <-. destruct (Hlast []) as (groups & Hg & Hgroups).
      cbn in Hg. rewrite app_nil_r in Hg. by exists new1, groups. }
  2:{ injection Hrun as <- <-. destruct (Hlast []) as (groups & Hg & Hgroups).
      cbn in Hg. rewrite app_nil_r in Hg. by exists new1, groups. }
  unfold bind at 1 in Hrun.
  destruct (search_cycle limit result n w1) as [o2 w2] eqn:Hcycle.
  destruct (search_cycle_only_yields _ _ _ _ _ _ Hcycle) as (ys & -> & _).
  destruct o2 as [[why|n']|e|];
    try (injection Hrun as <- <-; destruct (Hlast ys) as (groups & Hg & Hgroups);
         exists (new1 ++ (EvYield <$> ys))%list, groups;
         cbn; rewrite Ht1, <- app_assoc; by split).
  apply IH in Hrun as (new2 & groups2 & Ht2 & Hg2 & Hgroups2).
  exists ((new1 ++ (EvYield <$> ys)) ++ new2)%list, (calls new1 :: groups2).
  rewrite Ht2. cbn. rewrite Ht1, <- !app_assoc. split; [done|].
  split.
  { rewrite app_assoc, !calls_app, calls_yield, app_nil_r. by rewrite Hg2. }
  intros [|j] cs Hj.
  - injection Hj as <-. split; [by apply (Hsent result)|done].
  - destruct (Hgroups2 j cs Hj) as [Hne Hcs]. split; [done|].
    eapply Forall_impl; [exact Hcs|]. intros c (Hm & Hu & Hjs).
    split; [done|]. split; [done|]. rewrite Hjs. do 2 f_equal. lia.
Qed.

(** X16. The calls of [search_query] come in groups, one group for each
    request: the call of the request, once and then once more after each
    retried response.  Every call is a POST to [BASE_URL/search/query]
    whose JSON body has one request under ["requests"], with the entity
    types, the query string under ["query"], [min(limit, 25)] as ["size"],
    and a ["fields"] entry only for a list of fields that is not empty;
    its ["from"] is 0 in the first group and one size more in each
    following group.  With a limit of 0 the size is 0 and the offset never
    moves. *)
Theorem search_query_offsets fuel query entity_types account_id limit fields w o w' :
  search_query fuel query entity_types account_id limit fields w = (o, w') ->
  exists new (groups : list (list Call)),
    trace w' = (trace w ++ new)%list
    /\ calls new = concat groups
    /\ forall (j : nat) cs,
         groups !! j = Some cs ->
         cs <> []
         /\ Forall (fun c =>
                      call_method c = "POST"
                      /\ call_url c = String.append BASE_URL "/search/query"
                      /\ exists req : dict,
                           call_json c = Some (PDict {[ "requests" := PList [PDict req] ]})
                           /\ req !! "entityTypes" = Some (PList (PStr <$> entity_types))
                           /\ req !! "query"
                              = Some (PDict {[ "queryString" := PStr query ]})
                           /\ req !! "size" = Some (PInt (Z.min limit 25))
                           /\ req !! "from" = Some (PInt (Z.of_nat j * Z.min limit 25))
                           /\ req !! "fields"
                              = match fields with
                                | Some (f :: fs) => Some (PList (PStr <$> f :: fs))
                                | _ => None
                                end) cs.
Proof.
  intros Hrun. unfold search_query in Hrun.
  apply search_loop_offsets in Hrun as (new & groups & Ht & Hg & Hgroups).
  exists new, groups. split; [done|]. split; [done|].
  intros j cs Hj. destruct (Hgroups j cs Hj) as [Hne Hcs]. split; [done|].
  eapply Forall_impl; [exact Hcs|]. intros c (Hm & Hu & Hjs).
  split; [done|]. split; [done|].
  destruct (search_payload_entries query entity_types (Z.min limit 25)
              (0 + Z.of_nat j * Z.min limit 25) fields)
    as (req & Hreq & He & Hq & Hs & Hf & Hfs).
  exists req. rewrite Hjs, Hreq. rewrite Z.add_0_l in Hf. done.
Qed.

(** *** The chunks of an upload, put together again *)

Lemma chained_le lo hi ranges : chained lo hi ranges -> lo <= hi.
Proof.
  revert lo. induction ranges as [|[a b] ranges IH]; intros lo; cbn; [lia|].
  intros (-> & Hab & Hrest). apply IH in Hrest. lia.
Qed.

Lemma slice_app {A} (data : list A) lo mid hi :
  0 <= lo <= mid -> mid <= hi ->
  (slice data lo mid ++ slice data mid hi)%list = slice data lo hi.
Proof.
  intros Hlo Hhi. unfold slice.
  replace (Z.to_nat mid) with (Z.to_nat lo + Z.to_nat (mid - lo))%nat by lia.
  rewrite <- drop_drop, take_take_drop. f_equal. lia.
Qed.

Lemma slices_chained {A} (data : list A) lo hi ranges :
  0 <= lo -> chained lo hi ranges ->
  concat ((fun r : Z * Z => slice data r.1 r.2) <$> ranges) = slice data lo hi.
Proof.
  revert lo. induction ranges as [|[a b] ranges IH]; intros lo Hlo; cbn.
  - intros <-. unfold slice. by rewrite Z.sub_diag.
  - intros (-> & Hab & Hrest). rewrite (IH b) by (done || lia).
    apply slice_app; [lia|]. by apply chained_le in Hrest.
Qed.

(** X17. The contents of the PUTs that [_do_chunked_upload] prepares, one
    for each start of [range(0, file_size, UPLOAD_CHUNK_SIZE)], are the data
    when put one after the other: no byte is left out, sent twice or out of
    place. *)
Theorem chunked_upload_contents upload_url (data : list Byte.byte) headers :
  let file_size := Z.of_nat (length data) in
  concat (omap (fun i => call_content (chunk_call upload_url data headers file_size i))
            (range0 file_size UPLOAD_CHUNK_SIZE)) = data.
Proof.
  intros file_size. unfold chunk_call. cbn [call_content].
  assert (forall (starts : list Z),
            omap (fun i => Some (slice data i (Z.min (i + UPLOAD_CHUNK_SIZE) file_size))) starts
            = (fun r : Z * Z => slice data r.1 r.2)
                <$> ((fun i => (i, Z.min (i + UPLOAD_CHUNK_SIZE) file_size)) <$> starts))
    as ->.
  { induction starts as [|i starts IH]; [done|]. cbn. by rewrite IH. }
  assert (data = [] \/ 0 < file_size) as [-> | Hpos]; [|done|].
  { unfold file_size. destruct data; [by left | right; cbn; lia]. }
  rewrite (slices_chained data 0 file_size); [| lia |].
  - unfold slice, file_size. rewrite Z.sub_0_r, Nat2Z.id. cbn [Z.to_nat drop].
    apply firstn_all.
  - apply range0_chained; [done | done].
Qed.

(** *** How an upload ends *)

Lemma chunk_attempt_done c rc w v w' :
  chunk_attempt c rc w = (Returned (Done v), w') ->
  exists r,
    server (trace w) c = Responded r
    /\ w' = extend w [EvHttp c (Responded r)]
    /\ (status_code r = 200 \/ status_code r = 201)
    /\ body r = JsonBody v.
Proof.
  unfold chunk_attempt, catch_status, bind at 1, client_send.
  destruct (server (trace w) c) as [r|] eqn:Hs; [|done].
  fold (extend w [EvHttp c (Responded r)]). unfold bind at 1.
  destruct (throttled_cases r 3 rc (extend w [EvHttp c (Responded r)]))
    as [(d & -> & H429 & Hlt & Hd) | [(-> & Hno) | (e & -> & H429)]]; cbn; [done| |done].
  unfold bind, raise_for_status.
  destruct (is_success (status_code r)) eqn:Eok; cbn.
  - destruct ((status_code r =? 200) || (status_code r =? 201)) eqn:Hfinal; [|done].
    unfold response_json. destruct (body r) eqn:Hb; cbn; try done.
    intros [= <- <-]. exists r. repeat split; try done. lia.
  - unfold on_status_error.
    destruct ((rc <? 3) && (500 <=? status_code r)); [|done].
    unfold bind, sleep. destruct (_ <? 0); done.
Qed.

Lemma chunk_loop_returned fuel c rc w v w' :
  chunk_loop fuel c rc w = (Returned (Some v), w') ->
  exists pre r,
    w' = extend w (pre ++ [EvHttp c (Responded r)])
    /\ (status_code r = 200 \/ status_code r = 201)
    /\ body r = JsonBody v.
Proof.
  revert rc w. induction fuel as [|fuel IH]; intros rc w; cbn [chunk_loop].
  { by destruct (rc <=? 3). }
  destruct (rc <=? 3); [|done]. unfold bind.
  destruct (chunk_attempt c rc w) as [o1 w1] eqn:Ha.
  destruct o1 as [[rc'| |v']|e|]; try done.
  - apply chunk_attempt_cases in Ha as [(d & _ & _ & ->) | (_ & _ & Hagain)];
      [|by specialize (Hagain rc')].
    intros Hrun. apply IH in Hrun as (pre & r & -> & Hfinal & Hb).
    exists ([EvHttp c (server (trace w) c); EvSleep d] ++ pre)%list, r.
    by rewrite extend_extend, <- app_assoc.
  - apply chunk_attempt_done in Ha as (r & _ & -> & Hfinal & Hb).
    intros [= <- <-]. by exists [], r.
Qed.

Lemma upload_chunks_returned upload_url data headers file_size starts w v w' :
  upload_chunks upload_url data headers file_size starts w = (Returned v, w') ->
  exists pre (i : Z) r,
    i ∈ starts
    /\ w' = extend w (pre ++ [EvHttp (chunk_call upload_url data headers file_size i)
                                (Responded r)])
    /\ (status_code r = 200 \/ status_code r = 201)
    /\ body r = JsonBody v.
Proof.
  revert w. induction starts as [|i starts IH]; intros w; cbn [upload_chunks]; [done|].
  unfold bind.
  destruct (chunk_loop 4 _ 0 w) as [o1 w1] eqn:Hloop.
  destruct o1 as [[v'|]|e|]; try done.
  - intros [= <- <-]. apply chunk_loop_returned in Hloop as (pre & r & -> & Hfinal & Hb).
    exists pre, i, r. split; [apply list_elem_of_here | done].
  - apply chunk_loop_run in Hloop as (new1 & retries & -> & _); [| lia | lia].
    intros Hrest. apply IH in Hrest as (pre & i' & r & Hi & -> & Hfinal & Hb).
    exists (new1 ++ pre)%list, i', r. rewrite extend_extend, <- app_assoc.
    split; [by apply list_elem_of_further | done].
Qed.

(** X18. [_do_chunked_upload] returns only what the service sent with a
    200 or a 201: when it returns [v], the last event of the run is the
    answer to the PUT of one of the chunks, its status is 200 or 201, and
    its body is the JSON [v].  There was data to send. *)
Theorem chunked_upload_returns_final upload_url data headers w v w' :
  _do_chunked_upload upload_url data headers w = (Returned v, w') ->
  let file_size := Z.of_nat (length data) in
  data <> []
  /\ exists pre (i : Z) r,
       i ∈ range0 file_size UPLOAD_CHUNK_SIZE
       /\ trace w' = (trace w ++ pre
                      ++ [EvHttp (chunk_call upload_url data headers file_size i)
                            (Responded r)])%list
       /\ (status_code r = 200 \/ status_code r = 201)
       /\ body r = JsonBody v.
Proof.
  unfold _do_chunked_upload. intros Hrun. cbv zeta. split.
  { intros ->. by cbn in Hrun. }
  apply upload_chunks_returned in Hrun as (pre & i & r & Hi & -> & Hfinal & Hb).
  by exists pre, i, r.
Qed.

Lemma attempts_length call_of sched :
  Forall (fun p : Z * nat => (p.2 <= 3)%nat) sched ->
  (length (attempts call_of sched) <= 4 * length sched)%nat.
Proof.
  unfold attempts. induction 1 as [|[i k] sched Hk _ IH]; cbn [fmap list_fmap concat length].
  { lia. }
  rewrite length_app, length_replicate. cbn in Hk. cbn [fst snd]. lia.
Qed.

Lemma attempts_Forall (P : Call -> Prop) call_of sched :
  (forall i, P (call_of i)) -> Forall P (attempts call_of sched).
Proof.
  intros HP. unfold attempts. induction sched as [|[i k] sched IH]; cbn; [constructor|].
  constructor; [apply HP|]. apply Forall_app. split; [|done].
  apply Forall_forall. by intros c [-> _]%elem_of_replicate.
Qed.

(** X19. [_do_chunked_upload] always ends, after at most four PUTs for each
    chunk; all its calls are PUTs to the upload URL, and it touches nothing
    in the heap. *)
Theorem chunked_upload_call_bound upload_url data headers w o w' :
  _do_chunked_upload upload_url data headers w = (o, w') ->
  exists new,
    trace w' = (trace w ++ new)%list
    /\ heap w' = heap w
    /\ o <> OutOfFuel
    /\ (length (calls new) <= 4 * length (chunk_ranges (Z.of_nat (length data))))%nat
    /\ Forall (fun c => call_method c = "PUT" /\ call_url c = upload_url) (calls new).
Proof.
  unfold _do_chunked_upload. intros Hrun.
  apply upload_chunks_run in Hrun as (new & sched & -> & Hpre & Hle & Hcalls & Hout & _).
  exists new. split; [done|]. split; [done|]. split; [done|]. rewrite Hcalls. split.
  - etrans; [by apply attempts_length|].
    unfold chunk_ranges. rewrite length_fmap.
    apply prefix_length in Hpre. rewrite length_fmap in Hpre. lia.
  - by apply attempts_Forall.
Qed.

Lemma upload_chunks_acknowledged upload_url data headers file_size starts w :
  (forall t c, acknowledged (server t c)) ->
  exists new,
    upload_chunks upload_url data headers file_size starts w
    = (Raised (ValueError "Upload completed but no final response received"),
       extend w new)
    /\ calls new = chunk_call upload_url data headers file_size <$> starts
    /\ sleeps new = [].
Proof.
  intros Hack. revert w. induction starts as [|i starts IH]; intros w; cbn [upload_chunks].
  { exists []. by rewrite extend_nil. }
  unfold bind. rewrite chunk_loop_acknowledged by apply Hack.
  destruct (IH (extend w [EvHttp (chunk_call upload_url data headers file_size i)
                            (server (trace w)
                               (chunk_call upload_url data headers file_size i))]))
    as (new & -> & Hcalls & Hsleeps).
  eexists (_ :: new). rewrite extend_extend. split; [done|].
  unfold calls, sleeps in *. cbn. by rewrite Hcalls, Hsleeps.
Qed.

(** X20. When the service answers every PUT with a success other than 200
    and 201, [_do_chunked_upload] sends each chunk once, in order and
    without a wait, and then raises [ValueError]: an upload that is
    accepted but never confirmed is reported as a failure. *)
Theorem chunked_upload_never_confirmed upload_url data headers w :
  (forall t c, acknowledged (server t c)) ->
  exists new,
    _do_chunked_upload upload_url data headers w
    = (Raised (ValueError "Upload completed but no final response received"),
       extend w new)
    /\ calls new
       = chunk_call upload_url data headers (Z.of_nat (length data))
           <$> range0 (Z.of_nat (length data)) UPLOAD_CHUNK_SIZE
    /\ sleeps new = [].
Proof. intros Hack. by apply upload_chunks_acknowledged. Qed.

(** *** Upload sessions *)

(** [request] without [params], followed by the check of its result that
    the upload functions make. *)
Lemma checked_request method path account_id json data msg w o w' :
  (let* result := request method path account_id None json data 3 in
   if negb (truthy result) then raise (ValueError msg) else ret result) w = (o, w') ->
  exists new,
    w' = extend w new
    /\ o <> OutOfFuel
    /\ Forall (plain_call method path json data) (calls new)
    /\ checked_result msg new o.
Proof.
  unfold bind at 1.
  destruct (request _ _ _ _ _ _ _ w) as [o1 w1] eqn:Hreq.
  pose proof (request_heap _ _ _ _ _ _ _ _ _ _ Hreq) as (o0 & w0 & Hp0 & Hheap).
  pose proof (prepare_request_heap _ _ _ _ _ _ _ _ _ Hp0) as [Hw0 | (l & ? & _)]; [|done].
  apply request_replies in Hreq
    as [(e & -> & Hp) | (c & w2 & rs & rp & Hp & -> & Hall & Hlen & Hdec & _)]; [| |lia].
  - intros [= <- <-]. rewrite Hp in Hp0. injection Hp0 as <- <-.
    pose proof (prepare_request_trace _ _ _ _ _ _ _ _ _ Hp) as [Ht _].
    exists []. rewrite extend_nil. split; [destruct w, w1; cbn in *; congruence|].
    split; [done|]. split; [constructor|]. split; [done|]. split; by intros r.
  - rewrite Hp in Hp0. injection Hp0 as <- <-.
    pose proof (prepare_request_trace _ _ _ _ _ _ _ _ _ Hp) as [Ht _].
    assert (w2 = w) as -> by (destruct w, w2; cbn in *; congruence).
    set (new := (retries c 0 rs ++ [EvHttp c rp])%list).
    assert (Forall (plain_call method path json data) (calls new)) as Hcalls.
    { unfold new. rewrite calls_loop. apply Forall_forall.
      intros c' [-> _]%elem_of_replicate.
      apply prepare_request_call in Hp
        as (Hm & Hu & Hj & Hd & Hps & token & _ & _ & Hct & _).
      by repeat split. }
    assert (last (replies new) = Some rp) as Hlast.
    { unfold new. rewrite replies_loop. apply last_snoc. }
    unfold decides in Hdec.
    assert (o1 <> OutOfFuel
            /\ (forall v, o1 = Returned v ->
                  exists r, rp = Responded r /\ is_success (status_code r) = true
                            /\ body r <> Malformed /\ body_value r = v)
            /\ (forall r, rp = Responded r -> is_success (status_code r) = true ->
                  body r <> Malformed -> o1 = Returned (body_value r)))
      as (Hout & Hret & Hok).
    { destruct rp as [r|].
      2:{ subst o1. split; [done|]. split; [done|]. by intros r. }
      destruct (retryable (status_code r)) eqn:Hretry.
      - apply retryable_not_success in Hretry.
        assert (exists e, o1 = Raised e) as [e ->].
        { destruct Hdec as [[-> _] | (_ & msg' & ->)]; eauto. }
        split; [done|]. split; [done|]. intros r' [= <-]. congruence.
      - subst o1. unfold settled, body_value.
        destruct (is_success (status_code r)) eqn:Hsucc.
        2:{ split; [done|]. split; [done|]. intros r' [= <-]. congruence. }
        destruct (body r) eqn:Hb.
        + split; [done|]. split.
          * intros v [= <-]. exists r. by rewrite Hb.
          * intros r' [= <-] _ _. by rewrite Hb.
        + split; [done|]. split.
          * intros v' [= <-]. exists r. by rewrite Hb.
          * intros r' [= <-] _ _. by rewrite Hb.
        + split; [done|]. split; [done|].
          intros r' [= <-] _ Hm. by rewrite Hb in Hm. }
    intros Hrun.
    assert (o <> OutOfFuel
            /\ (forall v, o = Returned v -> o1 = Returned v /\ truthy v = true)
            /\ (forall v, o1 = Returned v -> truthy v = false ->
                  o = Raised (ValueError msg))
            /\ w' = extend w new) as (Ho & Hov & Hfalsy & ->).
    { destruct o1 as [v|e|]; [| |done].
      - destruct (truthy v) eqn:Hv; cbn in Hrun; injection Hrun as <- <-.
        + split; [done|]. split; [by intros v' [= <-]|]. split; [|done].
          intros v' [= <-]. congruence.
        + split; [done|]. split; [done|]. split; [|done]. by intros v' [= <-].
      - injection Hrun as <- <-. split; [done|]. split; [done|]. split; done. }
    exists new. split; [done|]. split; [done|]. split; [done|]. split; [|split].
    + intros v Hv. destruct (Hov v Hv) as [Ho1 Htruthy]. split; [done|].
      destruct (Hret v Ho1) as (r & -> & Hsucc & Hm & Hbv). exists r.
      split; [done|]. split; [done|].
      unfold body_value in Hbv. destruct (body r); subst; done.
    + intros r Hr Hsucc Hm Hv. rewrite Hlast in Hr. injection Hr as ->.
      eapply Hfalsy; [by apply (Hok r)|done].
    + intros r v Hr Hsucc Hb Hv. rewrite Hlast in Hr. injection Hr as ->.
      assert (o1 = Returned v) as ->.
      { rewrite (Hok r eq_refl Hsucc) by (by rewrite Hb). unfold body_value. by rewrite Hb. }
      rewrite Hv in Hrun. cbn in Hrun. by injection Hrun as <-.
Qed.




(** X23. A file of at most [UPLOAD_CHUNK_SIZE] bytes is uploaded without a
    session: every call of [upload_large_file] is a PUT of the whole data
    to the path followed by [/content], as [application/octet-stream].  The
    result is the truthy JSON body of a final success; a success without
    content raises [ValueError]. *)
Theorem upload_large_file_small path data account_id item_properties w o w' :
  Z.of_nat (length data) <= UPLOAD_CHUNK_SIZE ->
  upload_large_file path data account_id item_properties w = (o, w') ->
  exists new,
    trace w' = (trace w ++ new)%list
    /\ heap w' = heap w
    /\ o <> OutOfFuel
    /\ Forall (fun c =>
                 call_method c = "PUT"
                 /\ call_url c = String.append BASE_URL (String.append path "/content")
                 /\ call_json c = None
                 /\ call_content c = Some data
                 /\ call_headers c !! "Content-Type" = Some "application/octet-stream")
         (calls new)
    /\ checked_result "Failed to upload file" new o.
Proof.
  intros Hsize. unfold upload_large_file.
  replace (Z.of_nat (length data) <=? UPLOAD_CHUNK_SIZE) with true by lia.
  intros Hrun.
  apply checked_request in Hrun as (new & -> & Hout & Hcalls & Hres).
  exists new. split; [done|]. split; [done|]. split; [done|]. split; [|done].
  eapply Forall_impl; [exact Hcalls|].
  intros c (Hm & Hu & _ & Hj & Hd & Hct). by repeat split.
Qed.





(** *** What chunking leaves alone *)

Lemma chunked_requests_fields requests chunked :
  chunked_requests requests = inr chunked ->
  length chunked = length requests
  /\ forall (i : nat) (req : dict),
       requests !! i = Some req ->
       exists req' : dict,
         chunked !! i = Some req'
         /\ forall key, key <> "dependsOn" -> req' !! key = req !! key.
Proof.
  intros Hch.
  destruct (Z_le_gt_dec (Z.of_nat (length requests)) 4) as [Hsmall|Hlarge].
  - unfold chunked_requests in Hch. replace (_ <=? 4) with true in Hch by lia.
    injection Hch as <-. split; [done|]. intros i req Hi. by exists req.
  - apply chunked_requests_chain in Hch as (Hlen & Hfirst & Hrest); [|lia].
    split; [done|]. intros [|i] req Hi.
    + exists req. by rewrite Hfirst.
    + destruct (Hrest i req Hi) as (prev & id & _ & _ & Hc).
      eexists. split; [exact Hc|]. intros key Hkey. by rewrite lookup_insert_ne.
Qed.

(** X26. Whatever the number of requests, the JSON body of every call of
    [batch_request] is a dictionary whose one entry, ["requests"], is a list
    with one item for each request of the caller, in the same order, and an
    item differs from its request in the ["dependsOn"] field at most: the
    id, the method, the URL, the body and the headers go out as they came
    in. *)
Theorem batch_request_keeps_fields requests account_id max_retries w o w' :
  batch_request requests account_id max_retries w = (o, w') ->
  exists new,
    trace w' = (trace w ++ new)%list
    /\ forall c,
         c ∈ calls new ->
         exists chunked : list dict,
           call_json c = Some (PDict {[ "requests" := PList (PDict <$> chunked) ]})
           /\ length chunked = length requests
           /\ forall (i : nat) (req : dict),
                requests !! i = Some req ->
                exists req' : dict,
                  chunked !! i = Some req'
                  /\ forall key, key <> "dependsOn" -> req' !! key = req !! key.
Proof.
  intros Hrun. apply batch_request_calls in Hrun as (new & -> & Hcalls).
  exists new. split; [done|]. intros c Hc.
  destruct (Hcalls c Hc) as (chunked & Hch & Hj).
  exists chunked. split; [exact Hj|]. by apply chunked_requests_fields.
Qed.

(** *** The hits that follow a cursor *)

Lemma walks_ret n : walks ([], None) (ret (Walked n)).
Proof. intros w o w' [= <- <-]. exists []. by rewrite extend_nil. Qed.

Lemma walks_stopped h : walks h (ret Stopped).
Proof.
  intros w o w' [= <- <-]. exists []. rewrite extend_nil.
  split; [done|]. split; [apply prefix_nil | done].
Qed.

Lemma walks_lift {A} (r : exn + A) (k : A -> M walk) (f : A -> hits_run) :
  (forall a, walks (f a) (k a)) ->
  walks (match r with inl e => ([], Some e) | inr a => f a end) (bind (lift r) k).
Proof.
  intros Hk w o w'. unfold bind, lift. destruct r as [e|a]; cbn.
  - intros [= <- <-]. exists []. by rewrite extend_nil.
  - apply Hk.
Qed.

Lemma walks_then (a b : hits_run) (m : M walk) (k : walk -> M walk) :
  walks a m ->
  k Stopped = ret Stopped ->
  (forall n1, walks b (k (Walked n1))) ->
  walks (hits_then a b) (bind m k).
Proof.
  intros Hm Hstop Hk w o w'. unfold bind.
  destruct (m w) as [o1 w1] eqn:Hrun1.
  apply Hm in Hrun1 as (ys1 & -> & Hpre1 & Ho1).
  unfold hits_then.
  destruct o1 as [[|n1]|e|]; [| | |done].
  - rewrite Hstop. intros [= <- <-]. exists ys1. split; [done|]. split; [|done].
    destruct (a.2); [done|]. cbn. by apply prefix_app_r.
  - destruct Ho1 as [-> Hnone]. rewrite Hnone. intros Hrun2.
    apply Hk in Hrun2 as (ys2 & -> & Hpre2 & Ho2).
    exists (a.1 ++ ys2)%list. rewrite extend_extend, fmap_app. split; [done|].
    cbn. split; [by apply prefix_app|].
    destruct o as [[|n2]|e|]; [done| | |done].
    + destruct Ho2 as [-> ?]. done.
    + destruct Ho2 as [-> ?]. done.
  - destruct Ho1 as [-> Hsome]. rewrite Hsome. intros [= <- <-].
    exists a.1. done.
Qed.

Lemma yield_hits_walks limit hits n :
  walks (hits_all hit_resource hits) (yield_hits limit hits n).
Proof.
  revert n. induction hits as [|hit hits IH]; intros n; cbn [yield_hits hits_all].
  { apply walks_ret. }
  destruct (limit_reached (Some limit) n); [apply walks_stopped|].
  intros w o w'. unfold bind at 1, lift, hit_resource.
  destruct (getitem hit "resource") as [e|resource]; cbn.
  { intros [= <- <-]. exists []. by rewrite extend_nil. }
  unfold bind, emit. fold (extend w [EvYield resource]). intros Hrun.
  apply IH in Hrun as (ys & -> & Hpre & Ho).
  exists (resource :: ys). rewrite extend_extend. split; [done|].
  unfold hits_then. cbn. split; [by apply prefix_cons|].
  destruct o as [[|n']|e|]; [done| | |done].
  - destruct Ho as [-> ?]. done.
  - destruct Ho as [-> ?]. done.
Qed.

Lemma walk_containers_walks limit containers n :
  walks (hits_all container_hits containers) (walk_containers limit containers n).
Proof.
  revert n.
  induction containers as [|container containers IH]; intros n;
    cbn [walk_containers hits_all].
  { apply walks_ret. }
  intros w o w'. unfold bind at 1, lift.
  destruct (contains "hits" container) as [e|has_hits] eqn:Hc; cbn.
  { intros [= <- <-]. exists []. rewrite extend_nil.
    unfold hits_then, container_hits. by rewrite Hc. }
  apply walks_then; [|done|intros n1; apply IH].
  unfold container_hits. rewrite Hc.
  destruct has_hits; [|apply walks_ret].
  apply (walks_lift (getitem container "hits") _
           (fun h => match iter h with
                     | inl e => ([], Some e)
                     | inr hits => hits_all hit_resource hits
                     end)).
  intros h.
  apply (walks_lift (iter h) _ (fun hits => hits_all hit_resource hits)).
  intros hits. apply yield_hits_walks.
Qed.

Lemma walk_responses_walks limit responses n :
  walks (hits_all response_hits responses) (walk_responses limit responses n).
Proof.
  revert n.
  induction responses as [|response responses IH]; intros n;
    cbn [walk_responses hits_all].
  { apply walks_ret. }
  intros w o w'. unfold bind at 1, lift.
  destruct (contains "hitsContainers" response) as [e|has_containers] eqn:Hc; cbn.
  { intros [= <- <-]. exists []. rewrite extend_nil.
    unfold hits_then, response_hits. by rewrite Hc. }
  apply walks_then; [|done|intros n1; apply IH].
  unfold response_hits. rewrite Hc.
  destruct has_containers; [|apply walks_ret].
  apply (walks_lift (getitem response "hitsContainers") _
           (fun c => match iter c with
                     | inl e => ([], Some e)
                     | inr containers => hits_all container_hits containers
                     end)).
  intros c.
  apply (walks_lift (iter c) _ (fun containers => hits_all container_hits containers)).
  intros containers. apply walk_containers_walks.
Qed.

(** One pass of [search_query] over a result that has the cursor key. *)
Lemma search_cycle_at_cursor limit result n w o w' :
  contains "@odata.nextLink" result = inr true ->
  search_cycle limit result n w = (o, w') ->
  exists ys,
    w' = extend w (EvYield <$> ys)
    /\ ys `prefix_of` (result_hits result).1
    /\ match o with
       | Returned (inl LimitReached) => True
       | Returned (inl CursorPresent) | Returned (inl NoResult) =>
           ys = (result_hits result).1 /\ (result_hits result).2 = None
       | Raised e => ys = (result_hits result).1 /\ (result_hits result).2 = Some e
       | _ => False
       end.
Proof.
  intros Hcursor. unfold search_cycle, result_hits.
  destruct (negb (truthy result)).
  { intros [= <- <-]. exists []. by rewrite extend_nil. }
  unfold bind at 1, lift.
  destruct (contains "value" result) as [e|has_value]; cbn.
  { intros [= <- <-]. exists []. by rewrite extend_nil. }
  destruct has_value; cbn.
  2:{ intros [= <- <-]. exists []. by rewrite extend_nil. }
  unfold bind at 1.
  destruct (getitem result "value") as [e|v]; cbn.
  { intros [= <- <-]. exists []. by rewrite extend_nil. }
  unfold bind at 1.
  destruct (iter v) as [e|responses]; cbn.
  { intros [= <- <-]. exists []. by rewrite extend_nil. }
  unfold bind at 1.
  destruct (walk_responses limit responses n w) as [o1 w1] eqn:Hwalk.
  apply walk_responses_walks in Hwalk as (ys & -> & Hpre & Ho1).
  destruct o1 as [[|n1]|e|]; [| | |done].
  - intros [= <- <-]. by exists ys.
  - rewrite Hcursor. unfold bind, lift, ret. intros [= <- <-]. by exists ys.
  - intros [= <- <-]. by exists ys.
Qed.

Lemma app_eq_split {A} (l1 l2 pre post : list A) (x : A) :
  (l1 ++ l2 = pre ++ x :: post)%list ->
  (exists mid, l1 = (pre ++ x :: mid)%list /\ post = (mid ++ l2)%list)
  \/ (exists mid, pre = (l1 ++ mid)%list /\ l2 = (mid ++ x :: post)%list).
Proof.
  intros [(k & Hl1 & Hk) | (k & Hpre & Hl2)]%app_eq_inv.
  - destruct k as [|y k]; cbn in Hk.
    + right. exists []. rewrite app_nil_r in *. by subst.
    + injection Hk as <- ->. left. by exists k.
  - right. by exists k.
Qed.

Lemma yields_hold_no_reply ys mid c rp post :
  EvYield <$> ys <> (mid ++ EvHttp c rp :: post)%list.
Proof.
  revert mid. induction ys as [|y ys IH]; intros mid; [by destruct mid|].
  destruct mid as [|e mid]; cbn; [done|]. intros [= _ H]. by apply IH in H.
Qed.

(** In the events of one retry loop a successful response can only be the
    last one. *)
Lemma retries_success_last c rc rs rp pre c' r post :
  Forall (fun r => retryable (status_code r) = true) rs ->
  (retries c rc rs ++ [EvHttp c rp] = pre ++ EvHttp c' (Responded r) :: post)%list ->
  is_success (status_code r) = true ->
  rp = Responded r /\ post = [].
Proof.
  intros Hall. revert rc pre. induction Hall as [|r0 rs Hr0 _ IH]; intros rc pre Heq Hok.
  - destruct pre as [|p pre]; cbn in Heq.
    + by injection Heq as -> -> <-.
    + injection Heq as _ Heq. by destruct pre.
  - cbn [retries app] in Heq. destruct pre as [|p1 [|p2 pre]]; cbn in Heq.
    + injection Heq as _ <- _. apply retryable_not_success in Hr0. congruence.
    + by injection Heq as _ ?.
    + injection Heq as _ _ Heq. by eapply IH.
Qed.

Lemma search_loop_hits fuel query entity_types account_id limit fields size from n w o w' :
  search_loop fuel query entity_types account_id limit fields size from n w = (o, w') ->
  exists new,
    trace w' = (trace w ++ new)%list
    /\ forall pre c r post,
         new = (pre ++ EvHttp c (Responded r) :: post)%list ->
         is_success (status_code r) = true ->
         contains "@odata.nextLink" (body_value r) = inr true ->
         exists ys, post = EvYield <$> ys /\ ends_after_hits (body_value r) ys o.
Proof.
  revert from n w. induction fuel as [|fuel IH]; intros from n w Hrun.
  { injection Hrun as <- <-. exists []. rewrite app_nil_r. split; [done|].
    intros pre c r post Heq. by destruct pre. }
  cbn [search_loop] in Hrun. unfold bind at 1 in Hrun.
  destruct (request _ _ _ _ _ _ _ w) as [o1 w1] eqn:Hreq.
  apply request_replies in Hreq
    as [(e & -> & Hp) | (c0 & w0 & rs & rp & Hp & -> & Hall & _ & Hdec & _)]; [| |lia].
  { injection Hrun as <- <-. apply prepare_request_trace in Hp as [Ht _].
    exists []. rewrite app_nil_r. split; [done|].
    intros pre c r post Heq. by destruct pre. }
  apply prepare_request_trace in Hp as [Ht0 _].
  set (new1 := (retries c0 0 rs ++ [EvHttp c0 rp])%list) in *.
  (* a successful response with a cursor in [new1] is what the request returned *)
  assert (forall pre c r mid,
            new1 = (pre ++ EvHttp c (Responded r) :: mid)%list ->
            is_success (status_code r) = true ->
            contains "@odata.nextLink" (body_value r) = inr true ->
            mid = [] /\ o1 = Returned (body_value r)) as Hlast.
  { intros pre c r mid Heq Hok Hcursor.
    destruct (retries_success_last _ _ _ _ _ _ _ _ Hall Heq Hok) as [-> ->].
    split; [done|]. unfold decides in Hdec.
    destruct (retryable (status_code r)) eqn:Hretry.
    { apply retryable_not_success in Hretry. congruence. }
    subst o1. unfold settled, body_value in *. rewrite Hok.
    destruct (body r); done. }
  destruct o1 as [result|e|].
  - unfold bind at 1 in Hrun.
    destruct (search_cycle limit result n (extend w0 new1)) as [o2 w2] eqn:Hcycle.
    pose proof (search_cycle_only_yields _ _ _ _ _ _ Hcycle) as (ys & Hw2 & Hout2).
    assert (forall pre c r post,
              (new1 ++ (EvYield <$> ys) = pre ++ EvHttp c (Responded r) :: post)%list ->
              is_success (status_code r) = true ->
              contains "@odata.nextLink" (body_value r) = inr true ->
              post = EvYield <$> ys
              /\ exists ys',
                   w2 = extend (extend w0 new1) (EvYield <$> ys')
                   /\ ys' `prefix_of` (result_hits (body_value r)).1
                   /\ match o2 with
                      | Returned (inl LimitReached) => True
                      | Returned (inl CursorPresent) | Returned (inl NoResult) =>
                          ys' = (result_hits (body_value r)).1
                          /\ (result_hits (body_value r)).2 = None
                      | Raised e =>
                          ys' = (result_hits (body_value r)).1
                          /\ (result_hits (body_value r)).2 = Some e
                      | _ => False
                      end) as Hhere.
    { intros pre c r post Heq Hok Hcursor.
      apply app_eq_split in Heq as [(mid & Hn1 & ->) | (mid & -> & Hys)];
        [|by apply yields_hold_no_reply in Hys].
      destruct (Hlast _ _ _ _ Hn1 Hok Hcursor) as [-> [= ->]].
      split; [done|]. by apply search_cycle_at_cursor in Hcycle. }
    assert (forall ys1 ys2 : list pyval,
              extend (extend w0 new1) (EvYield <$> ys1)
              = extend (extend w0 new1) (EvYield <$> ys2) -> ys1 = ys2) as Hinj.
    { intros ys1 ys2 Heq. apply (f_equal trace) in Heq. cbn in Heq.
      apply app_inv_head in Heq.
      apply (f_equal yields) in Heq. by rewrite !yields_yield in Heq. }
    subst w2.
    destruct o2 as [[why|n']|e|]; [| | |done].
    + injection Hrun as <- <-. exists (new1 ++ (EvYield <$> ys))%list.
      cbn. rewrite Ht0, <- app_assoc. split; [done|].
      intros pre c r post Heq Hok Hcursor.
      destruct (Hhere _ _ _ _ Heq Hok Hcursor) as (-> & ys' & Hw & Hpre & Ho).
      apply Hinj in Hw as <-. exists ys. split; [done|]. split; [done|].
      by destruct why.
    + apply IH in Hrun as (new2 & Ht2 & Hrest).
      exists ((new1 ++ (EvYield <$> ys)) ++ new2)%list.
      rewrite Ht2. cbn. rewrite Ht0, <- !app_assoc. split; [done|].
      intros pre c r post Heq Hok Hcursor. rewrite app_assoc in Heq.
      apply app_eq_split in Heq as [(mid & Hn1 & ->) | (mid & -> & Hn2)].
      * by destruct (Hhere _ _ _ _ Hn1 Hok Hcursor) as (_ & ys' & _ & _ & ?).
      * by apply (Hrest mid c r post).
    + injection Hrun as <- <-. exists (new1 ++ (EvYield <$> ys))%list.
      cbn. rewrite Ht0, <- app_assoc. split; [done|].
      intros pre c r post Heq Hok Hcursor.
      destruct (Hhere _ _ _ _ Heq Hok Hcursor) as (-> & ys' & Hw & Hpre & Ho).
      apply Hinj in Hw as <-. exists ys. by split.
  - injection Hrun as <- <-. exists new1. cbn. rewrite Ht0. split; [done|].
    intros pre c r post Heq Hok Hcursor.
    by destruct (Hlast _ _ _ _ Heq Hok Hcursor) as [_ ?].
  - injection Hrun as <- <-. exists new1. cbn. rewrite Ht0. split; [done|].
    intros pre c r post Heq Hok Hcursor.
    by destruct (Hlast _ _ _ _ Heq Hok Hcursor) as [_ ?].
Qed.

(** C8. In a run of [search_query], a successful response whose body has
    the ['@odata.nextLink'] key is the last one: what follows it is the
    yields of the resources of its own hits, in their order, with no
    further call, whatever the hit containers report.  All the hits of the
    response are yielded and the generator ends at the cursor (or at line
    411 for a result without ["value"]), unless the limit check stops it
    before, which takes a limit other than 0 and, for a limit above 0,
    exactly [limit] yields in the whole run, or unless a step through the
    hits raises, after the hits before that step. *)
Theorem search_query_ends_at_cursor fuel query entity_types account_id limit fields w o w' :
  search_query fuel query entity_types account_id limit fields w = (o, w') ->
  exists new,
    trace w' = (trace w ++ new)%list
    /\ forall pre c r post,
         new = (pre ++ EvHttp c (Responded r) :: post)%list ->
         is_success (status_code r) = true ->
         contains "@odata.nextLink" (body_value r) = inr true ->
         calls post = []
         /\ Forall (fun e => is_yield e = true) post
         /\ o <> OutOfFuel
         /\ exists ys,
              post = EvYield <$> ys
              /\ ys `prefix_of` (result_hits (body_value r)).1
              /\ match o with
                 | Returned CursorPresent | Returned NoResult =>
                     ys = (result_hits (body_value r)).1
                     /\ (result_hits (body_value r)).2 = None
                 | Returned LimitReached =>
                     limit <> 0
                     /\ (0 < limit -> Z.of_nat (length (yields new)) = limit)
                 | Raised e =>
                     ys = (result_hits (body_value r)).1
                     /\ (result_hits (body_value r)).2 = Some e
                 | _ => False
                 end.
Proof.
  intros Hrun. unfold search_query in Hrun.
  pose proof (search_loop_hits _ _ _ _ _ _ _ _ _ _ _ _ Hrun) as (new & Ht & Hhits).
  exists new. split; [done|].
  intros pre c r post Heq Hok Hcursor.
  destruct (Hhits pre c r post Heq Hok Hcursor) as (ys & -> & Hpre & Ho).
  split; [apply calls_yield|]. split; [apply yields_are_yields|].
  split; [by intros ->|].
  exists ys. split; [done|]. split; [done|].
  destruct o as [[| | | |]|e|]; try done.
  split.
  - intros ->. apply search_loop_run in Hrun as (new' & _ & _ & _ & Hzero). by apply Hzero.
  - intros Hpos. apply search_loop_limited in Hrun as (new' & Ht' & _ & Hstop); [|lia..].
    rewrite Ht in Ht'. apply app_inv_head in Ht' as <-.
    specialize (Hstop eq_refl). lia.
Qed.
End Graph.

(** ** The statements at concrete inputs *)

(** Four transient responses in a row use up the default budget: three
    sleeps, of 5, 2 and 4 seconds, and then the error of the last one. *)
Example request_gives_up :
  let run := request token_for_all
               (scripted [respond 429 NoContent; respond 500 NoContent;
                          respond 503 NoContent; respond 429 NoContent])
               "GET" "/me" None None None None 3 fresh in
  fst run = Raised (HTTPStatusError 429)
  /\ sleeps (trace (snd run)) = [5; 2; 4]
  /\ length (calls (trace (snd run))) = 4%nat.
Proof. vm_compute. done. Qed.

(** A cursor ends the search although the container reports more. *)
Example search_ends_at_cursor :
  let run := search_query token_for_all (scripted [respond 200 (JsonBody hits_with_cursor)])
               5 "budget" ["message"] None 50 None fresh in
  fst run = Returned CursorPresent
  /\ yields (trace (snd run)) = [PStr "a"; PStr "b"]
  /\ length (calls (trace (snd run))) = 1%nat.
Proof. vm_compute. done. Qed.

Lemma request_retry_budget_witness :
  let run := request token_for_all down "GET" "/me" None None None None 3 fresh in
  exists new,
    trace (snd run) = (trace fresh ++ new)%list
    /\ fst run <> OutOfFuel
    /\ (length (sleeps new) <= Z.to_nat 3)%nat
    /\ (forall r, last (replies new) = Some (Responded r) ->
          retryable (status_code r) = true -> exists e, fst run = Raised e)
    /\ (fst run = Returned PNone ->
          (3 < 0 /\ new = [])
          \/ exists r, last (replies new) = Some (Responded r)
                       /\ is_success (status_code r) = true
                       /\ (body r = NoContent \/ body r = JsonBody PNone)).
Proof.
  intros run.
  apply (request_retry_budget token_for_all down "GET" "/me" None None None None 3 fresh).
  apply surjective_pairing.
Defined.

Lemma chunked_upload_ranges_witness :
  UPLOAD_CHUNK_SIZE < Z.of_nat (length chunk_and_a_byte)
  /\ chained 0 (Z.of_nat (length chunk_and_a_byte))
       (chunk_ranges (Z.of_nat (length chunk_and_a_byte))).
Proof.
  assert (UPLOAD_CHUNK_SIZE < Z.of_nat (length chunk_and_a_byte)) as Hsize.
  { unfold chunk_and_a_byte. rewrite length_replicate. unfold UPLOAD_CHUNK_SIZE. lia. }
  split; [exact Hsize|].
  exact (proj1 (proj2 (chunked_upload_ranges accepting "https://upload"
                         chunk_and_a_byte ∅ fresh _ _ Hsize (surjective_pairing _)))).
Defined.

Lemma batch_request_preconditions_witness :
  20 < Z.of_nat (length (replicate 21 (get_me "1")))
  /\ batch_request token_for_all down (replicate 21 (get_me "1")) None 3 fresh
     = (Raised (ValueError "Batch requests cannot exceed 20 items"), fresh).
Proof.
  split; [cbn; lia|].
  apply (proj2 (batch_request_preconditions token_for_all down None 3 fresh)).
  cbn. lia.
Defined.

Lemma batch_request_chain_witness :
  let run := batch_request token_for_all forgetful five_requests None 3 fresh in
  4 < Z.of_nat (length five_requests) <= 20
  /\ exists new c (chunked : list dict),
       trace (snd run) = new
       /\ c ∈ calls new
       /\ call_json c = Some (PDict {[ "requests" := PList (PDict <$> chunked) ]})
       /\ length chunked = 5%nat
       /\ chunked !! 4%nat = Some (<["dependsOn" := PList [PStr "4"]]> (get_me "5")).
Proof.
  intros run.
  assert (4 < Z.of_nat (length five_requests) <= 20) as Hlen by (cbn; lia).
  split; [exact Hlen|].
  destruct (batch_request_chain token_for_all forgetful five_requests None 3 fresh
              (fst run) (snd run) Hlen (surjective_pairing _))
    as (new & Ht & Hcalls & Hsent).
  assert (calls new <> []) as Hne.
  { apply Hsent; [|by exists "token"|lia].
    repeat constructor; by eexists. }
  destruct (calls new) as [|c cs] eqn:Hc; [done|].
  destruct (Hcalls c) as (chunked & Hjson & Hlength & _ & Hlinks); [by left|].
  destruct (Hlinks 3%nat (get_me "5") eq_refl) as (prev & id & Hprev & Hid & Hitem).
  injection Hprev as <-. injection Hid as <-.
  exists new, c, chunked. repeat split; try done. rewrite Hc. by left.
Defined.

(** C5 fails on the code: a result without any entry is returned as it is,
    though the id ["1"] was sent. *)
Lemma batch_request_result_incomplete :
  let run := batch_request token_for_all forgetful [get_me "1"] None 3 fresh in
  fst run = Returned no_responses
  /\ PStr "1" ∈ submitted_ids [get_me "1"]
  /\ response_ids no_responses = [].
Proof. vm_compute. repeat split. by left. Qed.

Lemma batch_request_returns_body_witness :
  let run := batch_request token_for_all forgetful [get_me "1"] None 3 fresh in
  [get_me "1"] <> []
  /\ exists new r,
       trace (snd run) = (trace fresh ++ new)%list
       /\ last (replies new) = Some (Responded r)
       /\ is_success (status_code r) = true
       /\ body r = JsonBody no_responses.
Proof.
  intros run.
  assert ([get_me "1"] <> []) as Hne by done.
  split; [exact Hne|].
  apply (batch_request_returns_body token_for_all forgetful [get_me "1"] None 3 fresh
           no_responses (snd run) Hne).
  vm_compute. reflexivity.
Defined.

(** C6 fails on the code: a list of two requests is sent as it is, and the
    second item of the payload that goes out carries the [dependsOn] the
    caller gave it. *)
Lemma batch_request_small_keeps_depends_on :
  let run := batch_request token_for_all forgetful dependent_pair None 3 fresh in
  Z.of_nat (length dependent_pair) <= 4
  /\ exists c (item : dict),
       calls (trace (snd run)) = [c]
       /\ call_json c
          = Some (PDict {[ "requests" := PList [PDict (get_me "1"); PDict item] ]})
       /\ item !! "dependsOn" = Some (PList [PStr "1"]).
Proof.
  intros run. split; [cbn; lia|].
  eexists _, (<["dependsOn" := PList [PStr "1"]]> (get_me "2")).
  split; [vm_compute; reflexivity|]. split; [vm_compute; reflexivity|].
  vm_compute. reflexivity.
Qed.

Lemma batch_request_small_unchanged_witness :
  let run := batch_request token_for_all forgetful dependent_pair None 3 fresh in
  Z.of_nat (length dependent_pair) <= 4
  /\ exists new,
       trace (snd run) = (trace fresh ++ new)%list
       /\ Forall (fun c =>
                    call_json c
                    = Some (PDict {[ "requests" := PList (PDict <$> dependent_pair) ]}))
            (calls new)
       /\ (dependent_pair <> [] ->
           (exists token, token_for_all None = inr token) -> 0 <= 3 ->
           calls new <> []).
Proof.
  intros run.
  assert (Z.of_nat (length dependent_pair) <= 4) as Hlen by (cbn; lia).
  split; [exact Hlen|].
  apply (batch_request_small_unchanged token_for_all forgetful dependent_pair None 3 fresh
           (fst run) (snd run) Hlen).
  apply surjective_pairing.
Defined.

Lemma request_paginated_limit_witness :
  let run := request_paginated token_for_all two_pages 2 "/me/messages" None None (Some 3) fresh in
  fst run = Returned LimitReached
  /\ yields (trace (snd run)) = [PInt 1; PInt 2; PInt 3]
  /\ length (calls (trace (snd run))) = 2%nat.
Proof.
  intros run.
  edestruct (proj1 (request_paginated_limit token_for_all two_pages)
               "/me/messages" None None fresh) as [c2 Hrun].
  - vm_compute. reflexivity.
  - vm_compute. reflexivity.
  - reflexivity.
  - reflexivity.
  - reflexivity.
  - reflexivity.
  - discriminate.
  - intros c2. reflexivity.
  - reflexivity.
  - reflexivity.
  - reflexivity.
  - apply le_n.
  - unfold run. rewrite Hrun. repeat split.
Defined.


Lemma request_sets_count_in_place_witness :
  let run := request token_for_all down "GET" "/me/messages" None (Some 0%nat) None None 3
               with_search_params in
  heap (snd run) !! 0%nat = Some (<["$count" := PStr "true"]> search_params).
Proof.
  intros run.
  edestruct (request_sets_count_in_place token_for_all down "GET" "/me/messages" None
               0%nat search_params None None 3 with_search_params)
    as [Hheap _].
  - reflexivity.
  - left. by eexists.
  - reflexivity.
  - reflexivity.
  - reflexivity.
  - apply surjective_pairing.
  - unfold run. rewrite Hheap. apply lookup_insert_eq.
Defined.

Lemma limit_zero_is_no_limit_witness :
  let run := request_paginated token_for_all two_pages 5 "/me/messages" None None (Some 0) fresh in
  exists new ps p,
    trace (snd run) = (trace fresh ++ new)%list
    /\ NoCursor <> LimitReached
    /\ pages new = (ps ++ [p])%list
    /\ Forall (fun page => leads_on page = true) ps
    /\ leads_on p = false
    /\ yields new = concat (page_items <$> pages new).
Proof.
  intros run.
  apply (proj1 (proj2 (limit_zero_is_no_limit token_for_all two_pages))
           5%nat "/me/messages" None None fresh NoCursor (snd run)).
  vm_compute. reflexivity.
Defined.

(** With a limit of [0] every item of both pages is yielded. *)
Example paginated_without_limit :
  let run := request_paginated token_for_all two_pages 5 "/me/messages" None None (Some 0) fresh in
  fst run = Returned NoCursor
  /\ yields (trace (snd run)) = [PInt 1; PInt 2; PInt 3; PInt 4; PInt 5; PInt 6; PInt 7].
Proof. vm_compute. done. Qed.

(** The cursor of a page, turned into the path of the next request. *)
Example replace_base_url :
  str_replace BASE_URL EmptyString (String.append BASE_URL "/me/messages?$skip=10")
  = "/me/messages?$skip=10".
Proof. reflexivity. Qed.

Example contains_filter : contains "contains(" (PStr "contains(subject,'x')") = inr true.
Proof. reflexivity. Qed.

Example range0_three : range0 10 4 = [0; 4; 8].
Proof. reflexivity. Qed.

Example content_range_first :
  chunk_headers ∅ 0 4915200 4915201 [] !! "Content-Range" = Some "bytes 0-4915199/4915201".
Proof. reflexivity. Qed.

Lemma request_backoff_schedule_witness :
  let run := request token_for_all recovering "GET" "/me" None None None None 3 fresh in
  (trace (snd run) = trace fresh /\ exists e, fst run = Raised e)
  \/ exists c rs rp,
       trace (snd run) = (trace fresh ++ retries c 0 rs ++ [EvHttp c rp])%list
       /\ Forall (fun r => retryable (status_code r) = true) rs
       /\ (length rs <= Z.to_nat 3)%nat
       /\ calls (retries c 0 rs ++ [EvHttp c rp]) = replicate (S (length rs)) c
       /\ forall (k : nat) r,
            rs !! k = Some r ->
            sleeps (retries c 0 rs ++ [EvHttp c rp]) !! k
            = Some (if status_code r =? 429
                    then Z.min (match retry_after r with
                                | RA_int seconds => seconds
                                | _ => 5
                                end) 60
                    else 2 ^ Z.of_nat k).
Proof.
  intros run.
  apply (request_backoff_schedule token_for_all recovering
           "GET" "/me" None None None None 3 fresh); [lia | apply surjective_pairing].
Defined.

(** The run of the witness above: a wait of 7 seconds after the 429, of 2
    seconds after the 500 that came second, and then the body. *)
Example request_recovers :
  let run := request token_for_all recovering "GET" "/me" None None None None 3 fresh in
  fst run = Returned (PDict {[ "id" := PStr "1" ]})
  /\ sleeps (trace (snd run)) = [7; 2]
  /\ length (calls (trace (snd run))) = 3%nat.
Proof. vm_compute. done. Qed.



Lemma request_heap_frame_witness :
  let run := request token_for_all always_down "GET" "/me/messages" None (Some 0%nat)
               None None 3 with_search_params in
  (forall l, Some 0%nat <> Some l -> heap (snd run) !! l = heap with_search_params !! l)
  /\ forall l (d : dict),
       Some 0%nat = Some l -> heap with_search_params !! l = Some d ->
       exists d' : dict,
         heap (snd run) !! l = Some d'
         /\ (forall key, key <> "$count" -> d' !! key = d !! key)
         /\ (d' !! "$count" = d !! "$count"
             \/ (d !! "$count" = None /\ d' !! "$count" = Some (PStr "true"))).
Proof.
  intros run.
  apply (request_heap_frame token_for_all always_down "GET" "/me/messages" None
           (Some 0%nat) None None 3 with_search_params (fst run)).
  apply surjective_pairing.
Defined.

Lemma request_call_fields_witness :
  let run := request token_for_all recovering "POST" "/me/sendMail" None None
               (Some (PDict {[ "message" := PStr "m" ]})) None 3 fresh in
  exists new c,
    trace (snd run) = (trace fresh ++ new)%list
    /\ calls new = replicate (length (calls new)) c
    /\ (calls new <> [] ->
        call_method c = "POST"
        /\ call_url c = String.append BASE_URL "/me/sendMail"
        /\ call_json c = Some (PDict {[ "message" := PStr "m" ]})
        /\ call_content c = None
        /\ call_params c = (fun l => default ∅ (heap (snd run) !! l)) <$> None
        /\ exists token,
             token_for_all None = inr token
             /\ call_headers c !! "Authorization" = Some (String.append "Bearer " token)
             /\ call_headers c !! "Content-Type"
                = (if String.eqb "POST" "GET" then None
                   else Some (if truthy (PDict {[ "message" := PStr "m" ]})
                              then "application/json" else "application/octet-stream"))
             /\ (String.eqb "POST" "GET" = false -> call_headers c !! "Prefer" = None)
             /\ (@None loc = None ->
                 call_headers c !! "ConsistencyLevel" = None
                 /\ call_headers c !! "Prefer" = None)).
Proof.
  intros run.
  apply (request_call_fields token_for_all recovering "POST" "/me/sendMail" None None
           (Some (PDict {[ "message" := PStr "m" ]})) None 3 fresh (fst run)).
  apply surjective_pairing.
Defined.


(** A list of two requests goes out as it is under ["requests"], three
    times, after waits of 7 and 2 seconds, and the body of the 200 comes
    back. *)
Example batch_recovers :
  let run := batch_request token_for_all recovering [get_me "1"; get_me "2"] None 3 fresh in
  fst run = Returned (PDict {[ "id" := PStr "1" ]})
  /\ call_json <$> calls (trace (snd run))
     = replicate 3
         (Some (PDict {[ "requests" := PList [PDict (get_me "1"); PDict (get_me "2")] ]}))
  /\ sleeps (trace (snd run)) = [7; 2].
Proof. vm_compute. done. Qed.

Lemma batch_request_negative_budget_witness :
  batch_request token_for_all recovering [get_me "1"] None (-1) fresh
  = (Raised (ValueError "Batch request failed after all retries"), fresh).
Proof.
  apply (batch_request_negative_budget token_for_all recovering [get_me "1"] None (-1)
           fresh [get_me "1"] "token"); [done | cbn; lia | reflexivity | reflexivity | lia].
Defined.

Lemma batch_request_missing_id_witness :
  batch_request token_for_all recovering anonymous_requests None 3 fresh
  = (Raised (KeyError "id"), fresh).
Proof.
  apply (batch_request_missing_id token_for_all recovering anonymous_requests None 3
           fresh 0%nat ∅); [cbn; lia | reflexivity | cbn; lia | reflexivity].
Defined.


Lemma download_raw_negative_budget_witness :
  download_raw token_for_all recovering "/me/photo/$value" None (-1) fresh
  = (Raised (ValueError "Failed to download file after all retries"), fresh).
Proof.
  apply (download_raw_negative_budget token_for_all recovering "/me/photo/$value" None (-1)
           fresh "token"); [reflexivity | lia].
Defined.

Lemma fetch_page_follows_cursor_witness :
  let run := fetch_page token_for_all two_pages "/me/messages" None None
               (PStr (String.append BASE_URL "/me/messages?$skip=2")) fresh in
  exists new,
    trace (snd run) = (trace fresh ++ new)%list
    /\ heap (snd run) = heap fresh
    /\ Forall (fun c =>
                 call_method c = "GET"
                 /\ call_url c = String.append BASE_URL "/me/messages?$skip=2"
                 /\ call_params c = None
                 /\ call_headers c !! "Prefer" = None
                 /\ call_headers c !! "ConsistencyLevel" = None) (calls new).
Proof.
  intros run.
  apply (fetch_page_follows_cursor token_for_all two_pages "/me/messages" None None
           "/me/messages?$skip=2" fresh (fst run));
    [reflexivity | apply surjective_pairing].
Defined.

Lemma fetch_page_foreign_cursor_witness :
  let link := "https://graph.microsoft.com/beta/me/messages?$skip=2" in
  let run := fetch_page token_for_all two_pages "/me/messages" None None (PStr link) fresh in
  exists new,
    trace (snd run) = (trace fresh ++ new)%list
    /\ Forall (fun c => call_url c = String.append BASE_URL link) (calls new).
Proof.
  intros link run.
  apply (fetch_page_foreign_cursor token_for_all two_pages "/me/messages" None None
           link fresh (fst run));
    [done | reflexivity | apply surjective_pairing].
Defined.

Lemma request_paginated_yields_in_order_witness :
  let run := request_paginated token_for_all two_pages 5 "/me/messages" None None (Some 3)
               fresh in
  exists new,
    trace (snd run) = (trace fresh ++ new)%list
    /\ yields new `prefix_of` concat (page_items <$> pages new).
Proof.
  intros run.
  apply (request_paginated_yields_in_order token_for_all two_pages 5 "/me/messages" None
           None (Some 3) fresh (fst run)).
  apply surjective_pairing.
Defined.

Lemma request_paginated_negative_limit_witness :
  let run := request_paginated token_for_all two_pages 5 "/me/messages" None None
               (Some (-1)) fresh in
  exists new, trace (snd run) = (trace fresh ++ new)%list /\ yields new = [].
Proof.
  intros run.
  apply (request_paginated_negative_limit token_for_all two_pages 5 "/me/messages" None
           None (-1) fresh (fst run)); [lia | apply surjective_pairing].
Defined.

Lemma search_query_limit_witness :
  let run := search_query token_for_all (scripted [respond 200 (JsonBody hits_with_cursor)])
               5 "budget" ["message"] None 1 None fresh in
  exists new,
    trace (snd run) = (trace fresh ++ new)%list
    /\ Z.of_nat (length (yields new)) <= 1
    /\ (fst run = Returned LimitReached -> Z.of_nat (length (yields new)) = 1).
Proof.
  intros run.
  apply (search_query_limit token_for_all (scripted [respond 200 (JsonBody hits_with_cursor)])
           5 "budget" ["message"] None 1 None fresh (fst run));
    [lia | apply surjective_pairing].
Defined.

(** The run of the witness above: the second hit is not yielded. *)
Example search_stops_at_limit :
  let run := search_query token_for_all (scripted [respond 200 (JsonBody hits_with_cursor)])
               5 "budget" ["message"] None 1 None fresh in
  fst run = Returned LimitReached /\ yields (trace (snd run)) = [PStr "a"].
Proof. vm_compute. done. Qed.

Lemma search_query_offsets_witness :
  let run := search_query token_for_all two_searches 5 "budget" ["message"] None 50
               (Some ["subject"]) fresh in
  exists new (groups : list (list Call)),
    trace (snd run) = (trace fresh ++ new)%list
    /\ calls new = concat groups
    /\ forall (j : nat) cs,
         groups !! j = Some cs ->
         cs <> []
         /\ Forall (fun c =>
                      call_method c = "POST"
                      /\ call_url c = String.append BASE_URL "/search/query"
                      /\ exists req : dict,
                           call_json c = Some (PDict {[ "requests" := PList [PDict req] ]})
                           /\ req !! "entityTypes" = Some (PList (PStr <$> ["message"]))
                           /\ req !! "query"
                              = Some (PDict {[ "queryString" := PStr "budget" ]})
                           /\ req !! "size" = Some (PInt (Z.min 50 25))
                           /\ req !! "from" = Some (PInt (Z.of_nat j * Z.min 50 25))
                           /\ req !! "fields" = Some (PList (PStr <$> ["subject"]))) cs.
Proof.
  intros run.
  apply (search_query_offsets token_for_all two_searches 5 "budget" ["message"] None 50
           (Some ["subject"]) fresh (fst run)).
  apply surjective_pairing.
Defined.

(** The run of the witness above: one call from offset 0, two calls from
    offset 25 with a wait in between, and both hits. *)
Example search_moves_on :
  let run := search_query token_for_all two_searches 5 "budget" ["message"] None 50
               (Some ["subject"]) fresh in
  let from (c : Call) : option pyval :=
    match call_json c with
    | Some (PDict d) =>
        match d !! "requests" with
        | Some (PList [PDict req]) => req !! "from"
        | _ => None
        end
    | _ => None
    end in
  fst run = Returned NoMoreResults
  /\ from <$> calls (trace (snd run)) = [Some (PInt 0); Some (PInt 25); Some (PInt 25)]
  /\ sleeps (trace (snd run)) = [1]
  /\ yields (trace (snd run)) = [PStr "a"; PStr "b"].
Proof. vm_compute. done. Qed.

Lemma chunked_upload_returns_final_witness :
  let run := _do_chunked_upload confirming session_url [Byte.x00] ∅ fresh in
  [Byte.x00] <> []
  /\ exists pre (i : Z) r,
       i ∈ range0 1 UPLOAD_CHUNK_SIZE
       /\ trace (snd run)
          = (trace fresh ++ pre
             ++ [EvHttp (chunk_call session_url [Byte.x00] ∅ 1 i) (Responded r)])%list
       /\ (status_code r = 200 \/ status_code r = 201)
       /\ body r = JsonBody (PDict {[ "id" := PStr "file" ]}).
Proof.
  intros run.
  apply (chunked_upload_returns_final confirming session_url [Byte.x00] ∅ fresh
           (PDict {[ "id" := PStr "file" ]}) (snd run)).
  transitivity (fst run, snd run); [apply surjective_pairing|].
  vm_compute. reflexivity.
Defined.

Lemma chunked_upload_call_bound_witness :
  let run := _do_chunked_upload accepting session_url [Byte.x00] ∅ fresh in
  exists new,
    trace (snd run) = (trace fresh ++ new)%list
    /\ heap (snd run) = heap fresh
    /\ fst run <> OutOfFuel
    /\ (length (calls new) <= 4 * length (chunk_ranges (Z.of_nat (length [Byte.x00]))))%nat
    /\ Forall (fun c => call_method c = "PUT" /\ call_url c = session_url) (calls new).
Proof.
  intros run.
  apply (chunked_upload_call_bound accepting session_url [Byte.x00] ∅ fresh (fst run)).
  apply surjective_pairing.
Defined.

Lemma chunked_upload_never_confirmed_witness :
  exists new,
    _do_chunked_upload accepting session_url [Byte.x00] ∅ fresh
    = (Raised (ValueError "Upload completed but no final response received"),
       extend fresh new)
    /\ calls new
       = chunk_call session_url [Byte.x00] ∅ (Z.of_nat (length [Byte.x00]))
           <$> range0 (Z.of_nat (length [Byte.x00])) UPLOAD_CHUNK_SIZE
    /\ sleeps new = [].
Proof.
  apply (chunked_upload_never_confirmed accepting session_url [Byte.x00] ∅ fresh).
  intros t c. eexists. split; [reflexivity|]. cbn. repeat split; lia.
Defined.



Lemma upload_large_file_small_witness :
  let run := upload_large_file token_for_all confirming "/me/drive/root:/a.bin:"
               [Byte.x00] None None fresh in
  exists new,
    trace (snd run) = (trace fresh ++ new)%list
    /\ heap (snd run) = heap fresh
    /\ fst run <> OutOfFuel
    /\ Forall (fun c =>
                 call_method c = "PUT"
                 /\ call_url c
                    = String.append BASE_URL (String.append "/me/drive/root:/a.bin:" "/content")
                 /\ call_json c = None
                 /\ call_content c = Some [Byte.x00]
                 /\ call_headers c !! "Content-Type" = Some "application/octet-stream")
         (calls new)
    /\ checked_result "Failed to upload file" new (fst run).
Proof.
  intros run.
  apply (upload_large_file_small token_for_all confirming "/me/drive/root:/a.bin:"
           [Byte.x00] None None fresh (fst run)).
  - cbn. unfold UPLOAD_CHUNK_SIZE. lia.
  - apply surjective_pairing.
Defined.



(** The run of the witness above: the session is opened, the one chunk is
    PUT to its URL, and the upload that is accepted with a 202 and never
    confirmed ends in an error. *)
Example mail_attachment_goes_through_session :
  let run := upload_large_mail_attachment token_for_all opening "m1" "a.bin" [Byte.x00]
               None "application/octet-stream" fresh in
  fst run = Raised (ValueError "Upload completed but no final response received")
  /\ call_method <$> calls (trace (snd run)) = ["POST"; "PUT"]
  /\ call_url <$> calls (trace (snd run))
     = [String.append BASE_URL "/me/messages/m1/attachments/createUploadSession";
        session_url].
Proof. vm_compute. done. Qed.

Lemma batch_request_keeps_fields_witness :
  let run := batch_request token_for_all forgetful five_requests None 3 fresh in
  exists new,
    trace (snd run) = (trace fresh ++ new)%list
    /\ forall c,
         c ∈ calls new ->
         exists chunked : list dict,
           call_json c = Some (PDict {[ "requests" := PList (PDict <$> chunked) ]})
           /\ length chunked = length five_requests
           /\ forall (i : nat) (req : dict),
                five_requests !! i = Some req ->
                exists req' : dict,
                  chunked !! i = Some req'
                  /\ forall key, key <> "dependsOn" -> req' !! key = req !! key.
Proof.
  intros run.
  apply (batch_request_keeps_fields token_for_all forgetful five_requests None 3 fresh
           (fst run)).
  apply surjective_pairing.
Defined.

Lemma search_query_ends_at_cursor_witness :
  let run := search_query token_for_all (scripted [respond 200 (JsonBody hits_with_cursor)])
               5 "budget" ["message"] None 50 None fresh in
  exists c r ys,
    trace (snd run) = EvHttp c (Responded r) :: (EvYield <$> ys)
    /\ is_success (status_code r) = true
    /\ contains "@odata.nextLink" (body_value r) = inr true
    /\ fst run = Returned CursorPresent
    /\ ys = [PStr "a"; PStr "b"]
    /\ ys = (result_hits (body_value r)).1
    /\ (result_hits (body_value r)).2 = None.
Proof.
  intros run.
  assert (fst run = Returned CursorPresent) as Hout by (vm_compute; reflexivity).
  destruct (search_query_ends_at_cursor token_for_all
              (scripted [respond 200 (JsonBody hits_with_cursor)])
              5 "budget" ["message"] None 50 None fresh (Returned CursorPresent) (snd run))
    as (new & Ht & Hnew).
  { rewrite <- Hout. apply surjective_pairing. }
  change (trace fresh ++ new)%list with new in Ht.
  let t := eval vm_compute in
             (trace (snd (search_query token_for_all
                            (scripted [respond 200 (JsonBody hits_with_cursor)])
                            5 "budget" ["message"] None 50 None fresh))) in
  match t with
  | EvHttp ?c (Responded ?r) :: ?post =>
      destruct (Hnew [] c r post) as (_ & _ & _ & ys & Hpost & _ & Hall & Hnone);
        [ rewrite <- Ht; vm_compute; reflexivity
        | reflexivity
        | vm_compute; reflexivity
        | exists c, r, ys ]
  end.
  split; [rewrite <- Hpost; vm_compute; reflexivity|].
  split; [reflexivity|].
  split; [vm_compute; reflexivity|].
  split; [exact Hout|].
  split; [rewrite Hall; vm_compute; reflexivity|].
  split; [exact Hall|]. exact Hnone.
Defined.

(** C9 fails on the code when [request] raises before line 36.  The
    caller's [params] have a [$filter] with [contains(] and no [$count],
    and a [$select] that is a number: the [in] of line 29 raises TypeError
    and the dictionary is left without [$count].  The same holds for
    [params] with [$search] when [get_token] raises at line 23. *)
Lemma request_raises_before_count :
  let run := request token_for_all down "GET" "/me/messages" None (Some 0%nat) None None 3
               with_filter_params in
  let run' := request token_unavailable down "GET" "/me/messages" None (Some 0%nat) None None 3
                with_search_params in
  (heap with_filter_params !! 0%nat = Some filter_params
   /\ (exists f, filter_params !! "$filter" = Some (PStr f)
         /\ str_contains "contains(" f = true)
   /\ filter_params !! "$count" = None
   /\ fst run = Raised TypeError
   /\ heap (snd run) !! 0%nat = Some filter_params
   /\ trace (snd run) = [])
  /\ (heap with_search_params !! 0%nat = Some search_params
      /\ is_Some (search_params !! "$search")
      /\ search_params !! "$count" = None
      /\ fst run' = Raised (ValueError "no account")
      /\ heap (snd run') !! 0%nat = Some search_params
      /\ trace (snd run') = []).
Proof.
  intros run run'. split.
  - split; [reflexivity|].
    split; [exists "contains(subject,'x')"; split; vm_compute; reflexivity|].
    split; [vm_compute; reflexivity|].
    split; [vm_compute; reflexivity|].
    split; vm_compute; reflexivity.
  - split; [reflexivity|].
    split; [by eexists|].
    split; [vm_compute; reflexivity|].
    split; [vm_compute; reflexivity|].
    split; vm_compute; reflexivity.
Qed.
